(** * Secure Password Share: the envelope cipher, the session vault and the
      entry store

    A shallow embedding of [server/crypto.ts] and of the [DatabaseStorage]
    class of the server's storage module (the TypeScript module that follows
    the overview in [replit.md]), with [shared/schema.ts] as the data model.

    - JavaScript strings are represented by their UTF-8 bytes
      ([String.string]); a [Buffer] is a [list byte].
    - The Node.js runtime the code calls into (Base64, PBKDF2, AES-256-GCM,
      JSON, bcryptjs) is an interface, [NodeRuntime]; what is known of it is
      stated as named laws, and every theorem lists the laws it relies on.
    - [async] methods run to completion one after the other; they are
      functions in a state-and-exception monad over [World], which holds the
      three tables, the clock and the entropy the process reads. *)

From Stdlib Require Import Strings.String Strings.Ascii Strings.Byte.
From Stdlib Require Import List ZArith NArith Bool Arith Lia DecimalString.
Import ListNotations.
Local Open Scope string_scope.
Local Open Scope list_scope.

(** ** JavaScript values *)

Definition Buffer := list byte.

(** [Buffer.from(s, "utf8")] and [buf.toString("utf8")]. *)
Definition utf8 (s : string) : Buffer := list_byte_of_string s.
Definition utf8_decode (b : Buffer) : string := string_of_list_byte b.

#[local] Set Warnings "-register-all".

(** What [JSON.parse] returns.  [undefined] is the [None] of a property
    lookup; numbers are kept to the integers. *)
Inductive JSValue : Type :=
| JSNull
| JSBool (b : bool)
| JSNumber (z : Z)
| JSString (s : string)
| JSArray (items : list JSValue)
| JSObject (props : list (string * JSValue)).

(** Induction on a value with the hypothesis on every element of an array
    and on every property of an object. *)
Section JSValue_induction.
Variable P : JSValue -> Prop.
Hypothesis H_null : P JSNull.
Hypothesis H_bool : forall b, P (JSBool b).
Hypothesis H_number : forall z, P (JSNumber z).
Hypothesis H_string : forall s, P (JSString s).
Hypothesis H_array : forall items, Forall P items -> P (JSArray items).
Hypothesis H_object :
  forall props, Forall (fun p => P (snd p)) props -> P (JSObject props).

Fixpoint JSValue_nested_ind (v : JSValue) : P v :=
  match v with
  | JSNull => H_null
  | JSBool b => H_bool b
  | JSNumber z => H_number z
  | JSString s => H_string s
  | JSArray items =>
      H_array items
        ((fix all (l : list JSValue) : Forall P l :=
            match l with
            | [] => Forall_nil P
            | x :: r => Forall_cons x (JSValue_nested_ind x) (all r)
            end) items)
  | JSObject props =>
      H_object props
        ((fix all (l : list (string * JSValue)) : Forall (fun p => P (snd p)) l :=
            match l with
            | [] => Forall_nil _
            | p :: r => Forall_cons p (JSValue_nested_ind (snd p)) (all r)
            end) props)
  end.

End JSValue_induction.

(** [!v] is [negb (truthy v)]. *)
Definition truthy (v : JSValue) : bool :=
  match v with
  | JSNull => false
  | JSBool b => b
  | JSNumber z => negb (Z.eqb z 0)
  | JSString s => negb (String.eqb s EmptyString)
  | JSArray _ | JSObject _ => true
  end.

Fixpoint assoc {A : Type} (k : string) (l : list (string * A)) : option A :=
  match l with
  | [] => None
  | (k', v) :: r => if String.eqb k k' then Some v else assoc k r
  end.

(** [v.k] for the data properties the code reads ([title], [fields]): only
    an object carries them. *)
Definition get_prop (v : JSValue) (k : string) : option JSValue :=
  match v with
  | JSObject props => assoc k props
  | _ => None
  end.

(** [typeof x === "string"] and [Array.isArray(x)] on a property that may be
    [undefined]. *)
Definition typeof_is_string (x : option JSValue) : bool :=
  match x with Some (JSString _) => true | _ => false end.

Definition Array_isArray (x : option JSValue) : bool :=
  match x with Some (JSArray _) => true | _ => false end.

(** [s.split(sep)] for a one-character separator: never empty, the empty string
    splits into one empty component. *)
Fixpoint split (sep : ascii) (s : string) : list string :=
  match s with
  | EmptyString => [EmptyString]
  | String c r =>
      if Ascii.eqb c sep then EmptyString :: split sep r
      else match split sep r with
           | h :: t => String c h :: t
           | [] => [String c EmptyString]
           end
  end.

(** [!x] on a destructured array element ([undefined] when the array is too
    short). *)
Definition falsy_string (x : option string) : bool :=
  match x with
  | None => true
  | Some s => String.eqb s EmptyString
  end.

(** ** The payload ([DecryptedData], [PasswordEntryData]) *)

Record PasswordField : Type := mkField {
  name : string;
  value : string;
  isPassword : bool
}.

Record DecryptedData : Type := mkData {
  title : string;
  fields : list PasswordField
}.

(** The object a typed payload is at run time. *)
Definition field_toJS (f : PasswordField) : JSValue :=
  JSObject [("name", JSString (name f));
            ("value", JSString (value f));
            ("isPassword", JSBool (isPassword f))].

Definition toJS (d : DecryptedData) : JSValue :=
  JSObject [("title", JSString (title d));
            ("fields", JSArray (map field_toJS (fields d)))].

(** Values for which [JSON.parse (JSON.stringify v)] gives [v] back: no
    number (their printing is IEEE-754's), no repeated key, and no key that
    starts with a digit (an object lists its integer keys first, whatever
    the order they were written in). *)
Definition is_digit (c : ascii) : bool :=
  (48 <=? N_of_ascii c)%N && (N_of_ascii c <=? 57)%N.

Definition name_key (k : string) : bool :=
  match k with
  | EmptyString => true
  | String c _ => negb (is_digit c)
  end.

Fixpoint keys_distinct (ks : list string) : bool :=
  match ks with
  | [] => true
  | k :: r => name_key k && negb (existsb (String.eqb k) r) && keys_distinct r
  end.

Fixpoint json_plain (v : JSValue) : bool :=
  match v with
  | JSNull | JSBool _ | JSString _ => true
  | JSNumber _ => false
  | JSArray items => forallb json_plain items
  | JSObject props =>
      keys_distinct (map fst props) && forallb (fun p => json_plain (snd p)) props
  end.

(** ** The Node.js runtime *)

Class NodeRuntime : Type := {
  (** [buf.toString("base64")] and [Buffer.from(s, "base64")] *)
  toBase64 : Buffer -> string;
  fromBase64 : string -> Buffer;
  (** SHA-256, and PBKDF2 over HMAC-SHA-256 once HMAC has prepared its key
      block: salt, iteration count and key length follow. *)
  sha256 : Buffer -> Buffer;
  pbkdf2_hmac : Buffer -> Buffer -> N -> nat -> Buffer;
  (** [createCipheriv("aes-256-gcm", key, iv)], [setAAD], [update], [final],
      [getAuthTag]: key, iv, additional data, plaintext to ciphertext and
      tag; [None] when [createCipheriv] throws. *)
  gcm_encrypt : Buffer -> Buffer -> Buffer -> Buffer -> option (Buffer * Buffer);
  (** [createDecipheriv], [setAAD], [setAuthTag], [update], [final]: key, iv,
      additional data, ciphertext, tag; [None] when one of them throws. *)
  gcm_decrypt : Buffer -> Buffer -> Buffer -> Buffer -> Buffer -> option Buffer;
  JSON_stringify : JSValue -> string;
  (** [None] is a [SyntaxError]. *)
  JSON_parse : string -> option JSValue;
  (** bcryptjs: [genSalt(rounds)] from 16 random bytes, [hash], [compare]. *)
  bcrypt_genSalt : nat -> Buffer -> string;
  bcrypt_hash : string -> string -> string;
  bcrypt_compare : string -> string -> bool
}.

(** HMAC's key preparation (RFC 2104, section 2): a key longer than the
    64-byte block of SHA-256 is hashed, and the key is then padded with zero
    bytes to the block. *)
Definition HMAC_BLOCK : nat := 64.

Definition hmac_key_block `{NodeRuntime} (key : Buffer) : Buffer :=
  let k := if (length key <=? HMAC_BLOCK)%nat then key else sha256 key in
  k ++ repeat x00 (HMAC_BLOCK - length k).

(** [crypto.pbkdf2Sync(password, salt, iterations, keylen, "sha256")]: the
    password is the HMAC key of every round (RFC 8018, section 5.2). *)
Definition pbkdf2Sync `{NodeRuntime}
    (password : string) (salt : Buffer) (iterations : N) (keylen : nat) : Buffer :=
  pbkdf2_hmac (hmac_key_block (utf8 password)) salt iterations keylen.

(** ** The tables of [shared/schema.ts]

    Timestamps are milliseconds since the epoch. *)

Record MasterPassword : Type := mkMasterPassword {
  mp_id : string;
  hashedPassword : string;
  mp_salt : string;
  mp_createdAt : Z
}.

Record Session : Type := mkSession {
  s_id : string;
  sessionToken : string;
  encryptedMasterPassword : string;
  sessionSalt : string;
  s_createdAt : Z;
  s_expiresAt : Z;
  isActive : bool
}.

Record PasswordEntry : Type := mkEntry {
  e_id : string;
  encryptedData : string;
  salt : string;
  iv : string;
  authTag : string;
  e_createdAt : Z;
  e_expiresAt : Z;
  isDeleted : bool
}.

(** [EncryptedData] of [crypto.ts]. *)
Record EncryptedData : Type := mkEncrypted {
  ed_encryptedData : string;
  ed_salt : string;
  ed_iv : string;
  ed_authTag : string
}.

(** ** The world a request runs in *)

Record World : Type := mkWorld {
  master_password : list MasterPassword;
  sessions : list Session;
  password_entries : list PasswordEntry;
  (** the clock [new Date()] and SQL's [NOW()] read *)
  now : Z;
  (** the bytes [crypto.randomBytes] and [randomUUID] will return, and how
      many of them have been read *)
  entropy : nat -> byte;
  drawn : nat
}.

(** ** Thrown errors *)

(** What was caught and put after the prefix of a rethrown message. *)
Inductive Cause : Type :=
| CipherRejected             (** thrown by the cipher or the decipher *)
| JsonSyntaxError            (** thrown by [JSON.parse] *)
| InvalidStructure           (** "Invalid decrypted data structure" *)
| InvalidSessionDataFormat.  (** "Invalid encrypted session data format" *)

Inductive Failure : Type :=
| EncryptionFailed (why : Cause)          (** "Encryption failed: ..." *)
| DecryptionFailed (why : Cause)          (** "Decryption failed: ..." *)
| SessionEncryptionFailed (why : Cause)   (** "Session encryption failed: ..." *)
| SessionDecryptionFailed (why : Cause)   (** "Session decryption failed: ..." *)
| InvalidMasterPassword     (** "Invalid master password - session creation denied" *)
| InvalidSession            (** "Invalid session - access denied" *)
| InvalidOrExpiredSession   (** "Invalid or expired session" *)
| MasterPasswordExists      (** "Master password already exists" *)
| UniqueViolation (table : string).  (** the insert broke a key of [schema.ts] *)

Definition Result (A : Type) : Type := (Failure + A)%type.

(** The error kinds of the specification, section 7, and one for the
    errors it does not name. *)
Inductive SpecError : Type :=
| AlreadyConfiguredError
| AuthenticationError
| InvalidSessionError
| IntegrityError
| FormatError
| Unnamed.

Definition spec_error (f : Failure) : SpecError :=
  match f with
  | DecryptionFailed CipherRejected => IntegrityError
  | DecryptionFailed _ => FormatError
  | SessionDecryptionFailed CipherRejected => IntegrityError
  | SessionDecryptionFailed _ => FormatError
  | InvalidMasterPassword => AuthenticationError
  | InvalidSession | InvalidOrExpiredSession => InvalidSessionError
  | MasterPasswordExists => AlreadyConfiguredError
  | EncryptionFailed _ | SessionEncryptionFailed _ | UniqueViolation _ => Unnamed
  end.

(** ** The monad of the [async] methods *)

Definition M (A : Type) : Type := World -> Result A * World.

Definition ret {A : Type} (a : A) : M A := fun w => (inr a, w).

Definition throw {A : Type} (f : Failure) : M A := fun w => (inl f, w).

Definition bind {A B : Type} (m : M A) (k : A -> M B) : M B :=
  fun w =>
    match m w with
    | (inr a, w') => k a w'
    | (inl f, w') => (inl f, w')
    end.

Declare Scope async_scope.
Delimit Scope async_scope with async.
Notation "x <- m ;; k" := (bind m (fun x => k))
  (at level 61, m at next level, right associativity) : async_scope.
Notation "m ;;; k" := (bind m (fun _ => k))
  (at level 61, right associativity) : async_scope.
Local Open Scope async_scope.

(** Lifting a synchronous function that may throw. *)
Definition lift {A : Type} (r : Result A) : M A := fun w => (r, w).

Definition get_world : M World := fun w => (inr w, w).

(** The world after [n] bytes of entropy were read. *)
Definition after_draw (n : nat) (w : World) : World :=
  mkWorld (master_password w) (sessions w) (password_entries w) (now w)
          (entropy w) (drawn w + n).

(** [crypto.randomBytes(n)] *)
Definition randomBytes (n : nat) : M Buffer :=
  fun w => (inr (map (entropy w) (seq (drawn w) n)), after_draw n w).

(** [new Date()] *)
Definition new_Date : M Z := fun w => (inr (now w), w).

(** [randomUUID()]: sixteen random bytes printed as a version-4 UUID. *)
Definition hex_digit (n : N) : ascii :=
  nth (N.to_nat n) (list_ascii_of_string "0123456789abcdef") "0"%char.

Definition hex2 (n : N) : string :=
  String (hex_digit (n / 16)) (String (hex_digit (n mod 16)) EmptyString).

Definition uuid_format (b : Buffer) : string :=
  let n i := Byte.to_N (nth i b x00) in
  let h i := hex2 (n i) in
  h 0%nat ++ h 1%nat ++ h 2%nat ++ h 3%nat ++ "-" ++
  h 4%nat ++ h 5%nat ++ "-" ++
  hex2 (N.lor (N.land (n 6%nat) 15) 64) ++ h 7%nat ++ "-" ++
  hex2 (N.lor (N.land (n 8%nat) 63) 128) ++ h 9%nat ++ "-" ++
  h 10%nat ++ h 11%nat ++ h 12%nat ++ h 13%nat ++ h 14%nat ++ h 15%nat.

Definition randomUUID : M string :=
  b <- randomBytes 16 ;; ret (uuid_format b).

(** ** [server/crypto.ts] *)

Module Crypto.
Section WithRuntime.
Context {R : NodeRuntime}.

Definition PBKDF2_ITERATIONS : N := 100000.
Definition SALT_LENGTH : nat := 32.
Definition IV_LENGTH : nat := 12.
Definition KEY_LENGTH : nat := 32.
Definition BCRYPT_ROUNDS : nat := 12.

Definition generateSalt : M string :=
  b <- randomBytes SALT_LENGTH ;; ret (toBase64 b).

Definition generateIV : M string :=
  b <- randomBytes IV_LENGTH ;; ret (toBase64 b).

Definition deriveKey (masterPassword : string) (salt : string) : Buffer :=
  let saltBuffer := fromBase64 salt in
  pbkdf2Sync masterPassword saltBuffer PBKDF2_ITERATIONS KEY_LENGTH.

(** The body of [encryptPasswordEntry] once salt and IV are drawn, on the
    object [data] is at run time.  The Base64 text of [update] and of [final]
    are concatenated; the cipher's output decoder carries the bytes that do
    not fill a group of three from one to the other, so the sum is the Base64
    of the whole ciphertext. *)
Definition seal_entry (salt iv : string) (data : JSValue)
    (masterPassword : string) : Result EncryptedData :=
  let key := deriveKey masterPassword salt in
  let ivBuffer := fromBase64 iv in
  let dataString := JSON_stringify data in
  match gcm_encrypt key ivBuffer (fromBase64 salt) (utf8 dataString) with
  | None => inl (EncryptionFailed CipherRejected)
  | Some (encrypted, tag) =>
      inr {| ed_encryptedData := toBase64 encrypted;
             ed_salt := salt;
             ed_iv := iv;
             ed_authTag := toBase64 tag |}
  end.

Definition encryptPasswordEntry (data : DecryptedData) (masterPassword : string)
    : M EncryptedData :=
  salt <- generateSalt ;;
  iv <- generateIV ;;
  lift (seal_entry salt iv (toJS data) masterPassword).

(** The [as DecryptedData] cast checks nothing: what is returned is the
    parsed value. *)
Definition decryptPasswordEntry (encrypted : EncryptedData) (masterPassword : string)
    : Result JSValue :=
  let key := deriveKey masterPassword (ed_salt encrypted) in
  let ivBuffer := fromBase64 (ed_iv encrypted) in
  match gcm_decrypt key ivBuffer (fromBase64 (ed_salt encrypted))
          (fromBase64 (ed_encryptedData encrypted))
          (fromBase64 (ed_authTag encrypted)) with
  | None => inl (DecryptionFailed CipherRejected)
  | Some decrypted =>
      match JSON_parse (utf8_decode decrypted) with
      | None => inl (DecryptionFailed JsonSyntaxError)
      | Some data =>
          if negb (truthy data)
             || negb (typeof_is_string (get_prop data "title"))
             || negb (Array_isArray (get_prop data "fields"))
          then inl (DecryptionFailed InvalidStructure)
          else inr data
      end
  end.

Definition hashMasterPassword (password : string) : M (string * string) :=
  rnd <- randomBytes 16 ;;
  let salt := bcrypt_genSalt BCRYPT_ROUNDS rnd in
  let hashedPassword := bcrypt_hash password salt in
  ret (hashedPassword, salt).

Definition verifyMasterPassword (inputPassword storedHash : string) : bool :=
  bcrypt_compare inputPassword storedHash.

Record SessionSecret : Type := mkSessionSecret {
  ss_encryptedMasterPassword : string;
  ss_sessionSalt : string
}.

(** The body of [encryptMasterPasswordForSession] once salt and IV are
    drawn; no additional data is set. *)
Definition seal_session (sessionSalt iv : string) (masterPassword : string)
    : Result SessionSecret :=
  let sessionKey :=
    pbkdf2Sync masterPassword (fromBase64 sessionSalt) PBKDF2_ITERATIONS KEY_LENGTH in
  let ivBuffer := fromBase64 iv in
  match gcm_encrypt sessionKey ivBuffer [] (utf8 masterPassword) with
  | None => inl (SessionEncryptionFailed CipherRejected)
  | Some (encrypted, tag) =>
      let authTag := toBase64 tag in
      inr {| ss_encryptedMasterPassword :=
               toBase64 encrypted ++ ":" ++ iv ++ ":" ++ authTag;
             ss_sessionSalt := sessionSalt |}
  end.

Definition encryptMasterPasswordForSession (masterPassword : string)
    : M SessionSecret :=
  sessionSalt <- generateSalt ;;
  iv <- generateIV ;;
  lift (seal_session sessionSalt iv masterPassword).

(** An array element that passed the [!x] test is a string. *)
Definition defined (x : option string) : string :=
  match x with Some s => s | None => EmptyString end.

Definition decryptMasterPasswordFromSession
    (encryptedMasterPassword sessionSalt sessionToken : string) : Result string :=
  let parts := split ":" encryptedMasterPassword in
  let encrypted := nth_error parts 0 in
  let iv := nth_error parts 1 in
  let authTag := nth_error parts 2 in
  if falsy_string encrypted || falsy_string iv || falsy_string authTag
  then inl (SessionDecryptionFailed InvalidSessionDataFormat)
  else
    let sessionKey :=
      pbkdf2Sync sessionToken (fromBase64 sessionSalt) PBKDF2_ITERATIONS KEY_LENGTH in
    let ivBuffer := fromBase64 (defined iv) in
    match gcm_decrypt sessionKey ivBuffer []
            (fromBase64 (defined encrypted)) (fromBase64 (defined authTag)) with
    | None => inl (SessionDecryptionFailed CipherRejected)
    | Some decrypted => inr (utf8_decode decrypted)
    end.

End WithRuntime.
End Crypto.

(** ** The storage module: the queries *)

Definition with_master_password (t : list MasterPassword) (w : World) : World :=
  mkWorld t (sessions w) (password_entries w) (now w) (entropy w) (drawn w).

Definition with_sessions (t : list Session) (w : World) : World :=
  mkWorld (master_password w) t (password_entries w) (now w) (entropy w) (drawn w).

Definition with_password_entries (t : list PasswordEntry) (w : World) : World :=
  mkWorld (master_password w) (sessions w) t (now w) (entropy w) (drawn w).

(** [db.insert(masterPassword).values(r)]: [id] is the primary key. *)
Definition insert_master_password (r : MasterPassword) : M unit :=
  fun w =>
    if existsb (fun x => String.eqb (mp_id x) (mp_id r)) (master_password w)
    then (inl (UniqueViolation "master_password"), w)
    else (inr tt, with_master_password (master_password w ++ [r]) w).

(** [db.insert(sessions).values(r)]: [id] is the primary key and
    [session_token] is unique. *)
Definition insert_session (r : Session) : M unit :=
  fun w =>
    if existsb (fun x => String.eqb (s_id x) (s_id r)
                         || String.eqb (sessionToken x) (sessionToken r)) (sessions w)
    then (inl (UniqueViolation "sessions"), w)
    else (inr tt, with_sessions (sessions w ++ [r]) w).

(** [db.insert(passwordEntries).values(r)]: [id] is the primary key. *)
Definition insert_password_entry (r : PasswordEntry) : M unit :=
  fun w =>
    if existsb (fun x => String.eqb (e_id x) (e_id r)) (password_entries w)
    then (inl (UniqueViolation "password_entries"), w)
    else (inr tt, with_password_entries (password_entries w ++ [r]) w).

(** The [where] clause shared by [verifySession] and
    [getMasterPasswordFromSession]:
    [session_token = t AND is_active = true AND expires_at > NOW()]. *)
Definition live_session (t : string) (time : Z) (s : Session) : bool :=
  String.eqb (sessionToken s) t && Bool.eqb (isActive s) true
  && (time <? s_expiresAt s)%Z.

(** [is_deleted = false AND expires_at > NOW()] *)
Definition listed_entry (time : Z) (e : PasswordEntry) : bool :=
  Bool.eqb (isDeleted e) false && (time <? e_expiresAt e)%Z.

(** [ORDER BY created_at DESC]; rows of one instant keep their table order. *)
Fixpoint insert_newest_first (e : PasswordEntry) (l : list PasswordEntry)
    : list PasswordEntry :=
  match l with
  | [] => [e]
  | x :: r =>
      if (e_createdAt x <? e_createdAt e)%Z then e :: x :: r
      else x :: insert_newest_first e r
  end.

Definition newest_first (l : list PasswordEntry) : list PasswordEntry :=
  fold_right insert_newest_first [] l.

Definition set_isDeleted (b : bool) (e : PasswordEntry) : PasswordEntry :=
  mkEntry (e_id e) (encryptedData e) (salt e) (iv e) (authTag e)
          (e_createdAt e) (e_expiresAt e) b.

Definition set_isActive (b : bool) (s : Session) : Session :=
  mkSession (s_id s) (sessionToken s) (encryptedMasterPassword s) (sessionSalt s)
            (s_createdAt s) (s_expiresAt s) b.

(** What the update of [deleteAllPasswordEntries] does to one row:
    [SET is_deleted = true WHERE is_deleted = false]. *)
Definition soft_delete (e : PasswordEntry) : PasswordEntry :=
  if Bool.eqb (isDeleted e) false then set_isDeleted true e else e.

(** What the update of [invalidateSession] does to one row:
    [SET is_active = false WHERE session_token = t]. *)
Definition invalidate (t : string) (s : Session) : Session :=
  if String.eqb (sessionToken s) t then set_isActive false s else s.

(** ** The storage module: [DatabaseStorage] *)

Module DatabaseStorage.
Section WithRuntime.
Context {R : NodeRuntime}.

Definition getMasterPassword : M (option MasterPassword) :=
  w <- get_world ;;
  let result := firstn 1 (master_password w) in
  ret (nth_error result 0).

Definition createMasterPassword (hashed saltText : string) : M MasterPassword :=
  id <- randomUUID ;;
  createdAt <- new_Date ;;
  let masterPasswordRecord := mkMasterPassword id hashed saltText createdAt in
  insert_master_password masterPasswordRecord ;;;
  ret masterPasswordRecord.

Definition verifyMasterPassword (inputPassword : string) : M bool :=
  masterPasswordRecord <- getMasterPassword ;;
  match masterPasswordRecord with
  | None => ret false
  | Some r => ret (Crypto.verifyMasterPassword inputPassword (hashedPassword r))
  end.

Definition SESSION_LIFETIME : Z := 4 * 60 * 60 * 1000.
Definition ENTRY_LIFETIME : Z := 24 * 60 * 60 * 1000.

Definition createSession (masterPassword : string) : M (string * Z) :=
  isAuthenticated <- verifyMasterPassword masterPassword ;;
  if negb isAuthenticated then throw InvalidMasterPassword
  else
    u1 <- randomUUID ;;
    u2 <- randomUUID ;;
    let token := (u1 ++ "-" ++ u2)%string in
    createdAt <- new_Date ;;
    let expiresAt := (createdAt + SESSION_LIFETIME)%Z in
    secret <- Crypto.encryptMasterPasswordForSession masterPassword ;;
    id <- randomUUID ;;
    let session :=
      mkSession id token (Crypto.ss_encryptedMasterPassword secret)
                (Crypto.ss_sessionSalt secret) createdAt expiresAt true in
    insert_session session ;;;
    ret (token, expiresAt).

(** The select cannot fail in this model, so the [catch] that answers
    [false] is never entered. *)
Definition verifySession (token : string) : M bool :=
  w <- get_world ;;
  let session := firstn 1 (filter (live_session token (now w)) (sessions w)) in
  ret (0 <? length session)%nat.

Definition getMasterPasswordFromSession (token : string) : M string :=
  w <- get_world ;;
  let sessionResult := firstn 1 (filter (live_session token (now w)) (sessions w)) in
  match sessionResult with
  | [] => throw InvalidOrExpiredSession
  | session :: _ =>
      lift (Crypto.decryptMasterPasswordFromSession
              (encryptedMasterPassword session) (sessionSalt session) token)
  end.

Definition invalidateSession (token : string) : M unit :=
  fun w =>
    (inr tt, with_sessions (map (invalidate token) (sessions w)) w).

Definition cleanupExpiredSessions : M nat :=
  fun w =>
    let expired s := (s_expiresAt s <=? now w)%Z in
    let result := filter expired (sessions w) in
    (inr (length result),
     with_sessions (filter (fun s => negb (expired s)) (sessions w)) w).

Definition createPasswordEntry (entryData : DecryptedData) (token : string)
    : M PasswordEntry :=
  isAuthenticated <- verifySession token ;;
  if negb isAuthenticated then throw InvalidSession
  else
    masterPassword <- getMasterPasswordFromSession token ;;
    id <- randomUUID ;;
    time <- new_Date ;;
    let expiresAt := (time + ENTRY_LIFETIME)%Z in
    encrypted <- Crypto.encryptPasswordEntry entryData masterPassword ;;
    let entry :=
      mkEntry id (ed_encryptedData encrypted) (ed_salt encrypted) (ed_iv encrypted)
              (ed_authTag encrypted) time expiresAt false in
    insert_password_entry entry ;;;
    ret entry.

(** [{ title: decryptedData.title, fields: decryptedData.fields }]; both
    properties are there once [decryptPasswordEntry] has returned. *)
Definition entryData_of (decryptedData : JSValue) : JSValue :=
  let prop k := match get_prop decryptedData k with Some v => v | None => JSNull end in
  JSObject [("title", prop "title"); ("fields", prop "fields")].

(** The loop of [getAllPasswordEntries]: an entry that does not decrypt is
    skipped. *)
Fixpoint decrypt_each (masterPassword : string) (activeEntries : list PasswordEntry)
    : list JSValue :=
  match activeEntries with
  | [] => []
  | entry :: rest =>
      let encryptedData :=
        mkEncrypted (encryptedData entry) (salt entry) (iv entry) (authTag entry) in
      match Crypto.decryptPasswordEntry encryptedData masterPassword with
      | inr decryptedData =>
          entryData_of decryptedData :: decrypt_each masterPassword rest
      | inl _ => decrypt_each masterPassword rest
      end
  end.

Definition getAllPasswordEntries (token : string) : M (list JSValue) :=
  isAuthenticated <- verifySession token ;;
  if negb isAuthenticated then throw InvalidSession
  else
    masterPassword <- getMasterPasswordFromSession token ;;
    w <- get_world ;;
    let activeEntries :=
      newest_first (filter (listed_entry (now w)) (password_entries w)) in
    ret (decrypt_each masterPassword activeEntries).

Definition deleteAllPasswordEntries (token : string) : M unit :=
  isAuthenticated <- verifySession token ;;
  if negb isAuthenticated then throw InvalidSession
  else
    fun w =>
      (inr tt, with_password_entries (map soft_delete (password_entries w)) w).

Definition deleteExpiredEntries : M nat :=
  fun w =>
    let expired e := (e_expiresAt e <=? now w)%Z in
    let result := filter expired (password_entries w) in
    (inr (length result),
     with_password_entries (filter (fun e => negb (expired e)) (password_entries w)) w).

Definition setupMasterPassword (password : string) : M MasterPassword :=
  existing <- getMasterPassword ;;
  match existing with
  | Some _ => throw MasterPasswordExists
  | None =>
      hs <- Crypto.hashMasterPassword password ;;
      createMasterPassword (fst hs) (snd hs)
  end.

End WithRuntime.
End DatabaseStorage.

(** ** What the code relies on from the runtime

    The first group holds of Node.js as documented.  The last one is the
    usual idealisation of authenticated encryption: true of AES-256-GCM up to
    a negligible probability, and assumed outright where a theorem names
    it. *)

Fixpoint has_colon (s : string) : bool :=
  match s with
  | EmptyString => false
  | String c r => Ascii.eqb c ":" || has_colon r
  end.

(** The key length of AES-256, in bytes. *)
Definition AES_256_KEY : nat := 32.

Section Laws.
Context (R : NodeRuntime).

(** Decoding the Base64 text of a buffer gives the buffer back. *)
Definition base64_roundtrip : Prop :=
  forall b : Buffer, fromBase64 (toBase64 b) = b.

(** The Base64 alphabet has no colon. *)
Definition base64_no_colon : Prop :=
  forall b : Buffer, has_colon (toBase64 b) = false.

(** [pbkdf2Sync] returns as many bytes as it is asked for. *)
Definition pbkdf2_length : Prop :=
  forall block salt_bytes iterations keylen,
    length (pbkdf2_hmac block salt_bytes iterations keylen) = keylen.

(** With a 32-byte key and an IV that is not empty the cipher is created,
    and deciphering with the key, IV, additional data and tag of the
    encryption gives the plaintext back. *)
Definition gcm_roundtrip : Prop :=
  forall key iv aad plain,
    length key = AES_256_KEY -> iv <> [] ->
    exists cipher tag,
      gcm_encrypt key iv aad plain = Some (cipher, tag)
      /\ gcm_decrypt key iv aad cipher tag = Some plain.

(** [JSON.parse] reads back what [JSON.stringify] wrote. *)
Definition json_roundtrip : Prop :=
  forall v, json_plain v = true -> JSON_parse (JSON_stringify v) = Some v.

(** [bcrypt.compare] accepts the password a hash was made from. *)
Definition bcrypt_accepts : Prop :=
  forall password rounds rnd,
    bcrypt_compare password (bcrypt_hash password (bcrypt_genSalt rounds rnd)) = true.

(** Idealisation: a ciphertext does not authenticate under another key. *)
Definition gcm_authentic : Prop :=
  forall key key' iv aad plain cipher tag,
    gcm_encrypt key iv aad plain = Some (cipher, tag) ->
    key <> key' ->
    gcm_decrypt key' iv aad cipher tag = None.

End Laws.

(** ** The shapes a decrypted value is checked against *)

(** What [decryptPasswordEntry] tests: an object whose [title] is a string
    and whose [fields] is an array. *)
Definition basic_shape (v : JSValue) : bool :=
  match v with
  | JSObject props =>
      typeof_is_string (assoc "title" props) && Array_isArray (assoc "fields" props)
  | _ => false
  end.

(** The shape the specification asks for: moreover every element of
    [fields] is a record with a string [name], a string [value] and a
    boolean [isPassword]. *)
Definition field_shape (v : JSValue) : bool :=
  match v with
  | JSObject props =>
      typeof_is_string (assoc "name" props)
      && typeof_is_string (assoc "value" props)
      && match assoc "isPassword" props with Some (JSBool _) => true | _ => false end
  | _ => false
  end.

Definition entry_shape (v : JSValue) : bool :=
  match v with
  | JSObject props =>
      typeof_is_string (assoc "title" props)
      && match assoc "fields" props with
         | Some (JSArray items) => forallb field_shape items
         | _ => false
         end
  | _ => false
  end.

(** The first three components of a [":"]-separated text are there and not
    empty: what [decryptMasterPasswordFromSession] tests. *)
Definition first_three_nonempty (s : string) : bool :=
  match split ":" s with
  | a :: b :: c :: _ =>
      negb (String.eqb a EmptyString) && negb (String.eqb b EmptyString)
      && negb (String.eqb c EmptyString)
  | _ => false
  end.

(** Exactly three components, none empty. *)
Definition three_nonempty (s : string) : bool :=
  match split ":" s with
  | [a; b; c] =>
      negb (String.eqb a EmptyString) && negb (String.eqb b EmptyString)
      && negb (String.eqb c EmptyString)
  | _ => false
  end.

(** The bytes the next [encryptPasswordEntry] draws for its salt and for its
    IV. *)
Definition salt_draw (w : World) : Buffer :=
  map (entropy w) (seq (drawn w) Crypto.SALT_LENGTH).

Definition iv_draw (w : World) : Buffer :=
  map (entropy w) (seq (drawn w + Crypto.SALT_LENGTH) Crypto.IV_LENGTH).

(** A store with no row. *)
Definition empty_store (w : World) : Prop :=
  master_password w = [] /\ sessions w = [] /\ password_entries w = [].

(** The scenario of the specification: configure the master secret, log in. *)
Definition configure_and_login `{NodeRuntime} (secret : string) : M (string * Z) :=
  DatabaseStorage.setupMasterPassword secret ;;;
  DatabaseStorage.createSession secret.

Definition mail_entry : DecryptedData :=
  mkData "Mail" [mkField "user" "a@b.com" false].


(** The same world at another time of the clock. *)
Definition at_time (t : Z) (w : World) : World :=
  mkWorld (master_password w) (sessions w) (password_entries w) t
          (entropy w) (drawn w).

(** ** A reference runtime

    A runtime that satisfies every law above, the two idealisations
    included: Base64 and JSON are the real encodings (RFC 4648 with padding;
    the compact text [JSON.stringify] writes), while key derivation,
    encryption and password hashing are symbolic, a key, a tag or a hash
    being a copy of what it was computed from.  It shows the laws consistent and
    gives the theorems concrete runs. *)

Module Reference.

(** *** Base64 *)

Definition b64_alphabet : list ascii :=
  list_ascii_of_string
    "ABCDEFGHIJKLMNOPQRSTUVWXYZabcdefghijklmnopqrstuvwxyz0123456789+/".

Definition b64_char (n : N) : ascii := nth (N.to_nat n) b64_alphabet "A"%char.

Fixpoint index_of (c : ascii) (l : list ascii) (i : N) : option N :=
  match l with
  | [] => None
  | x :: r => if Ascii.eqb c x then Some i else index_of c r (N.succ i)
  end.

Definition b64_index (c : ascii) : option N := index_of c b64_alphabet 0.

Definition byte_of (n : N) : byte :=
  match Byte.of_N n with Some b => b | None => x00 end.

Definition pad : ascii := "="%char.

Fixpoint b64_encode (b : Buffer) : list ascii :=
  match b with
  | [] => []
  | [x] =>
      let a := Byte.to_N x in
      [b64_char (a / 4); b64_char ((a mod 4) * 16); pad; pad]
  | [x; y] =>
      let a := Byte.to_N x in
      let b := Byte.to_N y in
      [b64_char (a / 4); b64_char ((a mod 4) * 16 + b / 16);
       b64_char ((b mod 16) * 4); pad]
  | x :: y :: z :: r =>
      let a := Byte.to_N x in
      let b := Byte.to_N y in
      let c := Byte.to_N z in
      b64_char (a / 4) :: b64_char ((a mod 4) * 16 + b / 16)
      :: b64_char ((b mod 16) * 4 + c / 64) :: b64_char (c mod 64)
      :: b64_encode r
  end.

(** Reads groups of four; a character outside the alphabet in third or
    fourth place is padding and ends the text. *)
Fixpoint b64_decode (s : list ascii) : Buffer :=
  match s with
  | c1 :: c2 :: c3 :: c4 :: r =>
      match b64_index c1, b64_index c2 with
      | Some s1, Some s2 =>
          let x := byte_of (s1 * 4 + s2 / 16) in
          match b64_index c3 with
          | None => [x]
          | Some s3 =>
              let y := byte_of ((s2 mod 16) * 16 + s3 / 4) in
              match b64_index c4 with
              | None => [x; y]
              | Some s4 => x :: y :: byte_of ((s3 mod 4) * 64 + s4) :: b64_decode r
              end
          end
      | _, _ => []
      end
  | _ => []
  end.

(** *** JSON *)

Definition dquote : ascii := "034"%char.
Definition backslash : ascii := "092"%char.

Definition hex_value (c : ascii) : option N :=
  match index_of c (list_ascii_of_string "0123456789abcdef") 0 with
  | Some n => Some n
  | None =>
      match index_of c (list_ascii_of_string "ABCDEF") 10 with
      | Some n => Some n
      | None => None
      end
  end.

(** How [JSON.stringify] writes one character of a string. *)
Definition json_escape (c : ascii) : list ascii :=
  let n := N_of_ascii c in
  if Ascii.eqb c dquote then [backslash; dquote]
  else if Ascii.eqb c backslash then [backslash; backslash]
  else if (n =? 8)%N then [backslash; "b"%char]
  else if (n =? 9)%N then [backslash; "t"%char]
  else if (n =? 10)%N then [backslash; "n"%char]
  else if (n =? 12)%N then [backslash; "f"%char]
  else if (n =? 13)%N then [backslash; "r"%char]
  else if (n <? 32)%N then
    [backslash; "u"%char; "0"%char; "0"%char; hex_digit (n / 16); hex_digit (n mod 16)]
  else [c].

Definition print_string (s : string) : list ascii :=
  dquote :: flat_map json_escape (list_ascii_of_string s) ++ [dquote].

Definition unescape (e : ascii) : option ascii :=
  if Ascii.eqb e dquote then Some dquote
  else if Ascii.eqb e backslash then Some backslash
  else if Ascii.eqb e "/" then Some "/"%char
  else if Ascii.eqb e "b" then Some "008"%char
  else if Ascii.eqb e "t" then Some "009"%char
  else if Ascii.eqb e "n" then Some "010"%char
  else if Ascii.eqb e "f" then Some "012"%char
  else if Ascii.eqb e "r" then Some "013"%char
  else None.

Definition push {A : Type} (c : A) (o : option (list A * list ascii))
    : option (list A * list ascii) :=
  match o with
  | Some (cs, r) => Some (c :: cs, r)
  | None => None
  end.

(** The characters of a string up to its closing quote.  A [\u] escape is
    read when it names an ASCII character. *)
Fixpoint read_string (s : list ascii) : option (list ascii * list ascii) :=
  match s with
  | [] => None
  | c :: r =>
      if Ascii.eqb c dquote then Some ([], r)
      else if Ascii.eqb c backslash then
        match r with
        | [] => None
        | e :: r1 =>
            if Ascii.eqb e "u" then
              match r1 with
              | h1 :: h2 :: h3 :: h4 :: r2 =>
                  match hex_value h1, hex_value h2, hex_value h3, hex_value h4 with
                  | Some 0%N, Some 0%N, Some a, Some b =>
                      if (a <? 8)%N then push (ascii_of_N (a * 16 + b)) (read_string r2)
                      else None
                  | _, _, _, _ => None
                  end
              | _ => None
              end
            else
              match unescape e with
              | Some c' => push c' (read_string r1)
              | None => None
              end
        end
      else if (N_of_ascii c <? 32)%N then None
      else push c (read_string r)
  end.

Definition print_elems_with (pr : JSValue -> list ascii) : list JSValue -> list ascii :=
  fix elems (l : list JSValue) : list ascii :=
    match l with
    | [] => ["]"%char]
    | x :: r =>
        pr x ++ match r with
                | [] => ["]"%char]
                | _ :: _ => ","%char :: elems r
                end
    end.

Definition print_members_with (pr : JSValue -> list ascii)
    : list (string * JSValue) -> list ascii :=
  fix members (l : list (string * JSValue)) : list ascii :=
    match l with
    | [] => ["}"%char]
    | (k, x) :: r =>
        print_string k ++ ":"%char :: pr x
        ++ match r with
           | [] => ["}"%char]
           | _ :: _ => ","%char :: members r
           end
    end.

Definition print_int (z : Z) : list ascii :=
  match z with
  | Z0 => ["0"%char]
  | Zpos p => list_ascii_of_string (NilEmpty.string_of_uint (Pos.to_uint p))
  | Zneg p => "-"%char :: list_ascii_of_string (NilEmpty.string_of_uint (Pos.to_uint p))
  end.

Fixpoint print_value (v : JSValue) : list ascii :=
  match v with
  | JSNull => list_ascii_of_string "null"
  | JSBool true => list_ascii_of_string "true"
  | JSBool false => list_ascii_of_string "false"
  | JSNumber z => print_int z
  | JSString s => print_string s
  | JSArray items => "["%char :: print_elems_with print_value items
  | JSObject props => "{"%char :: print_members_with print_value props
  end.

Fixpoint strip_prefix (p s : list ascii) : option (list ascii) :=
  match p, s with
  | [], _ => Some s
  | a :: p', b :: s' => if Ascii.eqb a b then strip_prefix p' s' else None
  | _ :: _, [] => None
  end.

Fixpoint read_digits (acc : Z) (s : list ascii) : Z * list ascii :=
  match s with
  | c :: r =>
      if is_digit c then read_digits (10 * acc + Z.of_N (N_of_ascii c - 48)) r
      else (acc, s)
  | [] => (acc, s)
  end.

(** An integer, or nothing. *)
Definition read_int (s : list ascii) : option (JSValue * list ascii) :=
  match s with
  | c :: r =>
      if is_digit c then
        let (z, r') := read_digits 0 s in Some (JSNumber z, r')
      else if Ascii.eqb c "-" then
        match r with
        | d :: _ =>
            if is_digit d then
              let (z, r') := read_digits 0 r in Some (JSNumber (- z), r')
            else None
        | [] => None
        end
      else None
  | [] => None
  end.

Fixpoint parse_value (fuel : nat) (s : list ascii) {struct fuel}
    : option (JSValue * list ascii) :=
  match fuel with
  | O => None
  | S f =>
      match strip_prefix (list_ascii_of_string "null") s with
      | Some r => Some (JSNull, r)
      | None =>
      match strip_prefix (list_ascii_of_string "true") s with
      | Some r => Some (JSBool true, r)
      | None =>
      match strip_prefix (list_ascii_of_string "false") s with
      | Some r => Some (JSBool false, r)
      | None =>
      match s with
      | [] => None
      | c :: r =>
          if Ascii.eqb c dquote then
            match read_string r with
            | Some (cs, r') => Some (JSString (string_of_list_ascii cs), r')
            | None => None
            end
          else if Ascii.eqb c "[" then
            match strip_prefix ["]"%char] r with
            | Some r' => Some (JSArray [], r')
            | None =>
                match parse_elems f r with
                | Some (vs, r') => Some (JSArray vs, r')
                | None => None
                end
            end
          else if Ascii.eqb c "{" then
            match strip_prefix ["}"%char] r with
            | Some r' => Some (JSObject [], r')
            | None =>
                match parse_members f r with
                | Some (ms, r') => Some (JSObject ms, r')
                | None => None
                end
            end
          else read_int s
      end end end end
  end

with parse_elems (fuel : nat) (s : list ascii) {struct fuel}
    : option (list JSValue * list ascii) :=
  match fuel with
  | O => None
  | S f =>
      match parse_value f s with
      | Some (v, r) =>
          match r with
          | c :: r' =>
              if Ascii.eqb c "," then push v (parse_elems f r')
              else if Ascii.eqb c "]" then Some ([v], r')
              else None
          | [] => None
          end
      | None => None
      end
  end

with parse_members (fuel : nat) (s : list ascii) {struct fuel}
    : option (list (string * JSValue) * list ascii) :=
  match fuel with
  | O => None
  | S f =>
      match s with
      | q :: s1 =>
          if Ascii.eqb q dquote then
            match read_string s1 with
            | Some (k, c :: s2) =>
                if Ascii.eqb c ":" then
                  match parse_value f s2 with
                  | Some (v, d :: r') =>
                      if Ascii.eqb d "," then
                        push (string_of_list_ascii k, v) (parse_members f r')
                      else if Ascii.eqb d "}" then
                        Some ([(string_of_list_ascii k, v)], r')
                      else None
                  | _ => None
                  end
                else None
            | _ => None
            end
          else None
      | [] => None
      end
  end.

Definition stringify (v : JSValue) : string :=
  string_of_list_ascii (print_value v).

Definition parse (s : string) : option JSValue :=
  let text := list_ascii_of_string s in
  match parse_value (S (length text)) text with
  | Some (v, []) => Some v
  | _ => None
  end.

(** The fuel [parse_value] needs to read back what [print_value] wrote. *)
Definition fuel_elems_with (need : JSValue -> nat) : list JSValue -> nat :=
  fix go (l : list JSValue) : nat :=
    match l with
    | [] => 0
    | x :: r => S (Nat.max (need x) (go r))
    end.

Definition fuel_members_with (need : JSValue -> nat) : list (string * JSValue) -> nat :=
  fix go (l : list (string * JSValue)) : nat :=
    match l with
    | [] => 0
    | (_, x) :: r => S (Nat.max (need x) (go r))
    end.

Fixpoint fuel_needed (v : JSValue) : nat :=
  match v with
  | JSArray items => S (fuel_elems_with fuel_needed items)
  | JSObject props => S (fuel_members_with fuel_needed props)
  | _ => 1
  end.

(** What is read back from the text of a value, whatever follows it. *)
Definition reads_back (v : JSValue) : Prop :=
  json_plain v = true ->
  forall f rest, fuel_needed v <= f ->
    parse_value f (print_value v ++ rest) = Some (v, rest).

(** *** Symbolic key derivation and encryption *)

(** A self-delimiting copy of a buffer. *)
Definition frame (b : Buffer) : Buffer :=
  flat_map (fun x => [x01; x]) b ++ [x00].

Fixpoint buffer_eqb (a b : Buffer) : bool :=
  match a, b with
  | [], [] => true
  | x :: a', y :: b' => Byte.eqb x y && buffer_eqb a' b'
  | _, _ => false
  end.

(** A stand-in for the digest: thirty-two bytes of its input, last first. *)
Definition digest (b : Buffer) : Buffer :=
  firstn 32 (rev b ++ repeat x00 32).

(** The derived key is made of the bytes of key block and salt, taken in
    turn, cut or padded to the length asked for. *)
Fixpoint interleave (a b : Buffer) : Buffer :=
  match a, b with
  | x :: a', y :: b' => x :: y :: interleave a' b'
  | [], _ => b
  | _, [] => a
  end.

Definition kdf (block salt_bytes : Buffer) (iterations : N) (keylen : nat) : Buffer :=
  firstn keylen (interleave block salt_bytes ++ repeat x00 keylen).

Definition mac (key iv_bytes aad plain : Buffer) : Buffer :=
  frame key ++ frame iv_bytes ++ frame aad ++ frame plain.

(** The ciphertext stands for the plaintext; the tag is the tuple of key,
    IV, additional data and plaintext. *)
Definition seal (key iv_bytes aad plain : Buffer) : option (Buffer * Buffer) :=
  match iv_bytes with
  | [] => None
  | _ :: _ =>
      if (length key =? 32)%nat then Some (plain, mac key iv_bytes aad plain) else None
  end.

Definition unseal (key iv_bytes aad cipher tag : Buffer) : option Buffer :=
  match iv_bytes with
  | [] => None
  | _ :: _ =>
      if (length key =? 32)%nat && buffer_eqb tag (mac key iv_bytes aad cipher)
      then Some cipher else None
  end.

(** *** Symbolic password hashing *)

Definition hex_string (b : Buffer) : string :=
  String.concat EmptyString (map (fun x => hex2 (Byte.to_N x)) b).

Definition genSalt (rounds : nat) (rnd : Buffer) : string :=
  ("$2a$12$" ++ hex_string rnd)%string.

Definition hash (password saltText : string) : string :=
  (saltText ++ "$" ++ hex_string (utf8 password))%string.

Fixpoint ends_with (x h : string) : bool :=
  String.eqb x h
  || match h with
     | EmptyString => false
     | String _ r => ends_with x r
     end.

Definition compare (password hashed : string) : bool :=
  ends_with ("$" ++ hex_string (utf8 password))%string hashed.

Definition runtime : NodeRuntime := {|
  toBase64 := fun b => string_of_list_ascii (b64_encode b);
  fromBase64 := fun s => b64_decode (list_ascii_of_string s);
  sha256 := digest;
  pbkdf2_hmac := kdf;
  gcm_encrypt := seal;
  gcm_decrypt := unseal;
  JSON_stringify := stringify;
  JSON_parse := parse;
  bcrypt_genSalt := genSalt;
  bcrypt_hash := hash;
  bcrypt_compare := compare
|}.

End Reference.

(** ** Concrete worlds and values for the runs below *)

Module Example.

#[local] Existing Instance Reference.runtime.

Definition entropy_tape (n : nat) : byte :=
  Reference.byte_of (N.of_nat (7 * n + 3) mod 256).

(** Nothing stored yet. *)
Definition fresh_world : World :=
  mkWorld [] [] [] 1700000000000 entropy_tape 0.

(** The world the second of two [encryptPasswordEntry] calls runs in. *)
Definition later_world : World :=
  after_draw Crypto.IV_LENGTH (after_draw Crypto.SALT_LENGTH fresh_world).

(** What a call returned, for the calls below, which all return. *)
Definition returned {A : Type} (default : A) (r : Result A) : A :=
  match r with
  | inr a => a
  | inl _ => default
  end.

Definition no_envelope : EncryptedData :=
  mkEncrypted EmptyString EmptyString EmptyString EmptyString.


Definition second_envelope : EncryptedData :=
  returned no_envelope
    (fst (Crypto.encryptPasswordEntry mail_entry "s3cret" later_world)).

(** A value with a [title] and a [fields] array whose elements are not
    field records, and a value with no [fields]. *)
Definition incomplete_fields : JSValue :=
  JSObject [("title", JSString "Mail");
            ("fields", JSArray [JSObject [("name", JSString "user")]; JSNull])].

Definition no_fields : JSValue := JSObject [("title", JSString "Mail")].

Definition incomplete_envelope : EncryptedData :=
  returned no_envelope
    (Crypto.seal_entry (toBase64 (salt_draw fresh_world))
       (toBase64 (iv_draw fresh_world)) incomplete_fields "s3cret").

Definition no_fields_envelope : EncryptedData :=
  returned no_envelope
    (Crypto.seal_entry (toBase64 (salt_draw fresh_world))
       (toBase64 (iv_draw fresh_world)) no_fields "s3cret").

(** A session secret as [createSession] stores it, and the same text with
    a fourth component. *)
Definition session_secret : Crypto.SessionSecret :=
  returned (Crypto.mkSessionSecret EmptyString EmptyString)
    (fst (Crypto.encryptMasterPasswordForSession "Sup3rSecret!" fresh_world)).

Definition four_components : string :=
  (Crypto.ss_encryptedMasterPassword session_secret ++ ":extra")%string.

(** The store after the master secret was configured, and the token a
    login is then issued. *)
Definition configured_world : World :=
  snd (DatabaseStorage.setupMasterPassword "Sup3rSecret!" fresh_world).

Definition issued_token : string :=
  match fst (configure_and_login "Sup3rSecret!" fresh_world) with
  | inr (token, _) => token
  | inl _ => EmptyString
  end.

Definition logged_in_world : World :=
  snd (configure_and_login "Sup3rSecret!" fresh_world).

(** One live session and one entry that expired and was not deleted. *)
Definition live_session_row : Session :=
  mkSession "s1" "token-1" "Y3Q=:aXY=:dGFn" "c2FsdA==" 86000000 100400000 true.

Definition expired_row : PasswordEntry :=
  mkEntry "e1" "ZGF0YQ==" "c2FsdA==" "aXY=" "dGFn" 0 86400000 false.

Definition deleted_row : PasswordEntry :=
  mkEntry "e2" "ZGF0YQ==" "c2FsdA==" "aXY=" "dGFn" 80000000 166400000 true.

Definition world_with_expired_row : World :=
  mkWorld [] [live_session_row] [expired_row; deleted_row] 90000000 entropy_tape 0.

End Example.

(** * The rest of the server: routes, cleanup, users, password generator

    [server/routes.ts] calls the storage module from the HTTP handlers; the
    storage module has, beside the methods above, the hourly cleanup, the
    legacy user table and [checkMasterPasswordExists]; [server/crypto.ts]
    has [generateSecurePassword].  The calls the client makes to the routes
    ([client/src/App.tsx] and its forms) close the section. *)

(** ** Strings as JavaScript measures and searches them *)

(** The UTF-16 code units a UTF-8 byte stands for: a continuation byte
    none, the lead of a four-byte sequence a surrogate pair, any other byte
    one. *)
Definition utf16_units (c : ascii) : nat :=
  let n := N_of_ascii c in
  if (n <? 128)%N then 1
  else if (n <? 192)%N then 0
  else if (n <? 240)%N then 1
  else 2.

(** [s.length] *)
Fixpoint js_length (s : string) : nat :=
  match s with
  | EmptyString => 0
  | String c r => utf16_units c + js_length r
  end.

(** Bytes that are laid out as UTF-8 sequences: what every text is. *)
Fixpoint utf8_sequences (pending : nat) (s : string) : bool :=
  match s with
  | EmptyString => Nat.eqb pending 0
  | String c r =>
      let n := N_of_ascii c in
      match pending with
      | O =>
          if (n <? 128)%N then utf8_sequences 0 r
          else if (n <? 192)%N then false
          else if (n <? 224)%N then utf8_sequences 1 r
          else if (n <? 240)%N then utf8_sequences 2 r
          else if (n <? 248)%N then utf8_sequences 3 r
          else false
      | S k => (128 <=? n)%N && (n <? 192)%N && utf8_sequences k r
      end
  end.

Definition well_formed (s : string) : bool := utf8_sequences 0 s.

(** [s.includes(searchString)] *)
Fixpoint includes (searchString s : string) : bool :=
  String.prefix searchString s
  || match s with
     | EmptyString => false
     | String _ r => includes searchString r
     end.

(** Truthiness of a string: [!!s]. *)
Definition nonempty (s : string) : bool := negb (String.eqb s EmptyString).

(** The white space and line terminators [trim] removes, in UTF-8: U+0009 to
    U+000D, U+0020, U+00A0, U+1680, U+2000 to U+200A, U+2028, U+2029, U+202F,
    U+205F, U+3000 and U+FEFF. *)
Definition bytes3 (a b c : ascii) : string :=
  String a (String b (String c EmptyString)).

Definition white_space : list string :=
  [String "009" EmptyString; String "010" EmptyString; String "011" EmptyString;
   String "012" EmptyString; String "013" EmptyString; String " " EmptyString;
   String "194" (String "160" EmptyString);
   bytes3 "225" "154" "128";
   bytes3 "226" "128" "128"; bytes3 "226" "128" "129"; bytes3 "226" "128" "130";
   bytes3 "226" "128" "131"; bytes3 "226" "128" "132"; bytes3 "226" "128" "133";
   bytes3 "226" "128" "134"; bytes3 "226" "128" "135"; bytes3 "226" "128" "136";
   bytes3 "226" "128" "137"; bytes3 "226" "128" "138";
   bytes3 "226" "128" "168"; bytes3 "226" "128" "169"; bytes3 "226" "128" "175";
   bytes3 "226" "129" "159";
   bytes3 "227" "128" "128";
   bytes3 "239" "187" "191"].

(** The text after one leading white-space character, if there is one. *)
Fixpoint after_prefix (p s : string) : option string :=
  match p, s with
  | EmptyString, _ => Some s
  | String a p', String b s' => if Ascii.eqb a b then after_prefix p' s' else None
  | String _ _, EmptyString => None
  end.

Fixpoint after_one_of (ps : list string) (s : string) : option string :=
  match ps with
  | [] => None
  | p :: r =>
      match after_prefix p s with
      | Some t => Some t
      | None => after_one_of r s
      end
  end.

Fixpoint trim_start_within (steps : nat) (s : string) : string :=
  match steps with
  | O => s
  | S k =>
      match after_one_of white_space s with
      | Some t => trim_start_within k t
      | None => s
      end
  end.

Definition trimStart (s : string) : string :=
  trim_start_within (String.length s) s.

Definition reverse (s : string) : string :=
  string_of_list_ascii (rev (list_ascii_of_string s)).

Fixpoint trim_end_within (steps : nat) (reversed : string) : string :=
  match steps with
  | O => reversed
  | S k =>
      match after_one_of (map reverse white_space) reversed with
      | Some t => trim_end_within k t
      | None => reversed
      end
  end.

Definition trimEnd (s : string) : string :=
  reverse (trim_end_within (String.length s) (reverse s)).

(** [s.trim()] *)
Definition trim (s : string) : string := trimEnd (trimStart s).

(** ** zod, as far as [routes.ts] uses it *)

Module Zod.

#[local] Unset Elimination Schemes.

(** [z.string().min(n, message)], [z.boolean()],
    [z.array(element).min(n, message)] and [z.object(shape)]. *)
Inductive Schema : Type :=
| string_min (minimum : nat) (message : string)
| boolean
| array_min (element : Schema) (minimum : nat) (message : string)
| object (shape : list (string * Schema)).

#[local] Set Elimination Schemes.

Inductive Issue : Type :=
| invalid_type (expected received : string)
| too_small (message : string).

(** The default error map: a missing value is "Required". *)
Definition issue_message (i : Issue) : string :=
  match i with
  | invalid_type expected received =>
      if String.eqb received "undefined" then "Required"
      else ("Expected " ++ expected ++ ", received " ++ received)%string
  | too_small message => message
  end.

(** The type zod sees; [None] is [undefined]. *)
Definition parsed_type (x : option JSValue) : string :=
  match x with
  | None => "undefined"
  | Some JSNull => "null"
  | Some (JSBool _) => "boolean"
  | Some (JSNumber _) => "number"
  | Some (JSString _) => "string"
  | Some (JSArray _) => "array"
  | Some (JSObject _) => "object"
  end.

(** The issues of a parse, in the order zod finds them: a value of the wrong
    type is not looked into; an array reports its length, then its elements;
    an object its properties in the order of the shape. *)
Fixpoint issues (s : Schema) (x : option JSValue) {struct s} : list Issue :=
  match s with
  | string_min minimum message =>
      match x with
      | Some (JSString t) =>
          if (js_length t <? minimum)%nat then [too_small message] else []
      | _ => [invalid_type "string" (parsed_type x)]
      end
  | boolean =>
      match x with
      | Some (JSBool _) => []
      | _ => [invalid_type "boolean" (parsed_type x)]
      end
  | array_min element minimum message =>
      match x with
      | Some (JSArray items) =>
          (if (length items <? minimum)%nat then [too_small message] else [])
          ++ flat_map (fun v => issues element (Some v)) items
      | _ => [invalid_type "array" (parsed_type x)]
      end
  | object shape =>
      match x with
      | Some (JSObject props) =>
          (fix each (l : list (string * Schema)) : list Issue :=
             match l with
             | [] => []
             | (k, s') :: r => issues s' (assoc k props) ++ each r
             end) shape
      | _ => [invalid_type "object" (parsed_type x)]
      end
  end.

(** The data of a successful parse: an object keeps the properties of the
    shape, in its order, and drops the others. *)
Fixpoint output (s : Schema) (v : JSValue) {struct s} : JSValue :=
  match s with
  | string_min _ _ | boolean => v
  | array_min element _ _ =>
      match v with
      | JSArray items => JSArray (map (output element) items)
      | _ => v
      end
  | object shape =>
      match v with
      | JSObject props =>
          JSObject
            ((fix each (l : list (string * Schema)) : list (string * JSValue) :=
                match l with
                | [] => []
                | (k, s') :: r =>
                    match assoc k props with
                    | Some x => (k, output s' x) :: each r
                    | None => each r
                    end
                end) shape)
      | _ => v
      end
  end.

(** [schema.safeParse(data)]: [inl] carries [error.errors], which is not
    empty. *)
Definition safeParse (s : Schema) (data : JSValue) : (Issue * list Issue) + JSValue :=
  match issues s (Some data) with
  | [] => inr (output s data)
  | first :: others => inl (first, others)
  end.

End Zod.

(** ** Texts the runtime produces *)

Class NodeText : Type := {
  (** [date.toISOString()], which [res.json] uses for a [Date] *)
  toISOString : Z -> string;
  (** the message of the error the cipher or the decipher threw, of the
      [SyntaxError] of [JSON.parse], and of the database driver on a
      violated key of the named table *)
  cipher_error_message : string;
  json_error_message : string;
  unique_violation_message : string -> string
}.

(** [error.message] of what the storage and crypto modules throw. *)
Definition cause_message `{NodeText} (c : Cause) : string :=
  match c with
  | CipherRejected => cipher_error_message
  | JsonSyntaxError => json_error_message
  | InvalidStructure => "Invalid decrypted data structure"
  | InvalidSessionDataFormat => "Invalid encrypted session data format"
  end.

Definition error_message `{NodeText} (f : Failure) : string :=
  match f with
  | EncryptionFailed c => ("Encryption failed: " ++ cause_message c)%string
  | DecryptionFailed c => ("Decryption failed: " ++ cause_message c)%string
  | SessionEncryptionFailed c =>
      ("Session encryption failed: " ++ cause_message c)%string
  | SessionDecryptionFailed c =>
      ("Session decryption failed: " ++ cause_message c)%string
  | InvalidMasterPassword => "Invalid master password - session creation denied"
  | InvalidSession => "Invalid session - access denied"
  | InvalidOrExpiredSession => "Invalid or expired session"
  | MasterPasswordExists => "Master password already exists"
  | UniqueViolation table => unique_violation_message table
  end.

(** ** The storage module: what is beside the session and entry methods *)

Module Storage.
Section WithRuntime.
Context {R : NodeRuntime}.

(** [checkMasterPasswordExists]: [!!existing].  The [DatabaseStorage] it
    constructs for the call does nothing but schedule the cleanup below. *)
Definition checkMasterPasswordExists : M bool :=
  existing <- DatabaseStorage.getMasterPassword ;;
  ret (match existing with Some _ => true | None => false end).

(** What the constructor of [DatabaseStorage] schedules every hour: both
    cleanups, which write different tables; a rejection of either is logged
    and nothing else. *)
Definition hourly_cleanup : M unit :=
  fun w =>
    let w1 := snd (DatabaseStorage.deleteExpiredEntries w) in
    let w2 := snd (DatabaseStorage.cleanupExpiredSessions w1) in
    (inr tt, w2).

End WithRuntime.

(** *** The legacy user table

    The [users] table is kept beside the world: no other method reads or
    writes it. *)

Record User : Type := mkUser {
  u_id : string;
  username : string;
  password : string
}.

Record InsertUser : Type := mkInsertUser {
  new_username : string;
  new_password : string
}.

Definition getUser (id : string) (users : list User) : option User :=
  let result := firstn 1 (filter (fun u => String.eqb (u_id u) id) users) in
  nth_error result 0.

Definition getUserByUsername (wanted : string) (users : list User) : option User :=
  let result := firstn 1 (filter (fun u => String.eqb (username u) wanted) users) in
  nth_error result 0.

(** [db.insert(users).values(user)]: [id] is the primary key and [username]
    is unique. *)
Definition insert_user (user : User) (users : list User) : Result (list User) :=
  if existsb (fun x => String.eqb (u_id x) (u_id user)
                       || String.eqb (username x) (username user)) users
  then inl (UniqueViolation "users")
  else inr (users ++ [user]).

(** [createUser]: the user returned, and the table after the insert. *)
Definition createUser (insertUser : InsertUser) (users : list User)
    : M (User * list User) :=
  id <- randomUUID ;;
  let user := mkUser id (new_username insertUser) (new_password insertUser) in
  inserted <- lift (insert_user user users) ;;
  ret (user, inserted).

End Storage.

(** ** [generateSecurePassword] of [server/crypto.ts] *)

(** [crypto.randomInt(min, max)] *)
Class NodeRandomInt : Type := {
  randomInt : Z -> Z -> M Z
}.

(** What Node.js documents of it: an integer [n] with [min <= n < max]. *)
Definition randomInt_in_range (G : NodeRandomInt) : Prop :=
  forall (min max : Z) (w : World),
    (min < max)%Z ->
    exists n w', randomInt min max w = (inr n, w') /\ (min <= n < max)%Z.

Module Generator.
Section WithRandomInt.
Context {G : NodeRandomInt}.

Definition charset : string :=
  "ABCDEFGHIJKLMNOPQRSTUVWXYZabcdefghijklmnopqrstuvwxyz0123456789!@#$%^&*".

(** [charset[i]] as [+=] appends it: the character, or the text of
    [undefined] when there is none at [i]. *)
Definition charset_at (i : Z) : string :=
  if (i <? 0)%Z then "undefined"
  else match String.get (Z.to_nat i) charset with
       | Some c => String c EmptyString
       | None => "undefined"
       end.

(** The loop, with the turns that are left. *)
Fixpoint append_random (turns : nat) (so_far : string) : M string :=
  match turns with
  | O => ret so_far
  | S k =>
      randomIndex <- randomInt 0 (Z.of_nat (String.length charset)) ;;
      append_random k (so_far ++ charset_at randomIndex)%string
  end.

(** [generateSecurePassword(length)] for an integer [length]; the loop does
    not run when it is not positive. *)
Definition generateSecurePassword (length : Z) : M string :=
  append_random (Z.to_nat length) EmptyString.

Definition DEFAULT_LENGTH : Z := 16.

End WithRandomInt.
End Generator.

(** ** [server/routes.ts] *)

Module Routes.

Record Response : Type := mkResponse {
  status : Z;
  json : JSValue
}.

Definition masterPasswordCreateSchema : Zod.Schema :=
  Zod.object
    [("masterPassword",
      Zod.string_min 8 "Master password must be at least 8 characters")].

Definition sessionCreateSchema : Zod.Schema :=
  Zod.object [("masterPassword", Zod.string_min 1 "Master password is required")].

Definition sessionTokenSchema : Zod.Schema :=
  Zod.object [("sessionToken", Zod.string_min 1 "Session token is required")].

Definition passwordEntryCreateSchema : Zod.Schema :=
  Zod.object
    [("sessionToken", Zod.string_min 1 "Session token is required");
     ("entry",
      Zod.object
        [("title", Zod.string_min 1 "Title is required");
         ("fields",
          Zod.array_min
            (Zod.object
               [("name", Zod.string_min 1 "Field name is required");
                ("value", Zod.string_min 1 "Field value is required");
                ("isPassword", Zod.boolean)])
            1 "At least one field is required")])].

(** A property of validated data read as the string, the boolean or the
    entry its schema says it is. *)
Definition text (x : option JSValue) : string :=
  match x with
  | Some (JSString s) => s
  | _ => EmptyString
  end.

Definition flag (x : option JSValue) : bool :=
  match x with
  | Some (JSBool b) => b
  | _ => false
  end.

Definition as_field (v : JSValue) : PasswordField :=
  mkField (text (get_prop v "name")) (text (get_prop v "value"))
          (flag (get_prop v "isPassword")).

Definition as_entry (x : option JSValue) : DecryptedData :=
  match x with
  | Some v =>
      mkData (text (get_prop v "title"))
             match get_prop v "fields" with
             | Some (JSArray items) => map as_field items
             | _ => []
             end
  | None => mkData EmptyString []
  end.

(** [try { ... } catch (error) { ... }] around a handler: what was done
    before the throw stays done. *)
Definition try_catch (body : M Response) (handler : Failure -> Response)
    : M Response :=
  fun w =>
    match body w with
    | (inl error, w') => (inr (handler error), w')
    | (inr response, w') => (inr response, w')
    end.

Definition validation_error (errors : Zod.Issue * list Zod.Issue) : Response :=
  mkResponse 400
    (JSObject [("error", JSString "Validation error");
               ("message", JSString (Zod.issue_message (fst errors)))]).

Definition internal_error (what : string) : Response :=
  mkResponse 500
    (JSObject [("error", JSString "Internal server error");
               ("message", JSString what)]).

Definition authentication_failed : Response :=
  mkResponse 401
    (JSObject [("error", JSString "Authentication failed");
               ("message", JSString "Invalid or expired session")]).

Section WithRuntime.
Context {R : NodeRuntime} {T : NodeText}.

(** The [catch] of the session routes. *)
Definition session_catch (what : string) (error : Failure) : Response :=
  if includes "Invalid session" (error_message error)
  then authentication_failed
  else internal_error what.

(** [GET /api/master-password/exists] *)
Definition get_master_password_exists : M Response :=
  try_catch
    (found <- Storage.checkMasterPasswordExists ;;
     ret (mkResponse 200 (JSObject [("exists", JSBool found)])))
    (fun _ => internal_error "Failed to check master password status").

(** [POST /api/master-password/create] *)
Definition post_master_password_create (body : JSValue) : M Response :=
  try_catch
    match Zod.safeParse masterPasswordCreateSchema body with
    | inl errors => ret (validation_error errors)
    | inr data =>
        let masterPassword := text (get_prop data "masterPassword") in
        found <- Storage.checkMasterPasswordExists ;;
        if found
        then ret (mkResponse 409
                    (JSObject
                       [("error", JSString "Master password already exists");
                        ("message",
                         JSString "Cannot create master password - one already exists")]))
        else
          DatabaseStorage.setupMasterPassword masterPassword ;;;
          ret (mkResponse 201
                 (JSObject
                    [("message", JSString "Master password created successfully");
                     ("success", JSBool true)]))
    end
    (fun _ => internal_error "Failed to create master password").

(** [POST /api/auth/login] *)
Definition post_auth_login (body : JSValue) : M Response :=
  try_catch
    match Zod.safeParse sessionCreateSchema body with
    | inl errors => ret (validation_error errors)
    | inr data =>
        let masterPassword := text (get_prop data "masterPassword") in
        created <- DatabaseStorage.createSession masterPassword ;;
        ret (mkResponse 200
               (JSObject
                  [("sessionToken", JSString (fst created));
                   ("expiresAt", JSString (toISOString (snd created)));
                   ("message",
                    JSString "Authentication successful - session created")]))
    end
    (session_catch "Failed to create session").

(** [POST /api/auth/logout] *)
Definition post_auth_logout (body : JSValue) : M Response :=
  try_catch
    match Zod.safeParse sessionTokenSchema body with
    | inl errors => ret (validation_error errors)
    | inr data =>
        let token := text (get_prop data "sessionToken") in
        DatabaseStorage.invalidateSession token ;;;
        ret (mkResponse 200
               (JSObject [("message", JSString "Session terminated successfully")]))
    end
    (fun _ => internal_error "Failed to terminate session").

(** [POST /api/password-entries] *)
Definition post_password_entries (body : JSValue) : M Response :=
  try_catch
    match Zod.safeParse passwordEntryCreateSchema body with
    | inl errors => ret (validation_error errors)
    | inr data =>
        let token := text (get_prop data "sessionToken") in
        let entry := as_entry (get_prop data "entry") in
        createdEntry <- DatabaseStorage.createPasswordEntry entry token ;;
        ret (mkResponse 201
               (JSObject
                  [("message", JSString "Password entry created successfully");
                   ("entry",
                    JSObject
                      [("id", JSString (e_id createdEntry));
                       ("createdAt",
                        JSString (toISOString (e_createdAt createdEntry)));
                       ("expiresAt",
                        JSString (toISOString (e_expiresAt createdEntry)))])]))
    end
    (session_catch "Failed to create password entry").

(** [POST /api/password-entries/list] *)
Definition post_password_entries_list (body : JSValue) : M Response :=
  try_catch
    match Zod.safeParse sessionTokenSchema body with
    | inl errors => ret (validation_error errors)
    | inr data =>
        let token := text (get_prop data "sessionToken") in
        entries <- DatabaseStorage.getAllPasswordEntries token ;;
        ret (mkResponse 200
               (JSObject
                  [("entries", JSArray entries);
                   ("message",
                    JSString "Password entries retrieved successfully")]))
    end
    (session_catch "Failed to retrieve password entries").

(** [POST /api/password-entries/delete-all] *)
Definition post_password_entries_delete_all (body : JSValue) : M Response :=
  try_catch
    match Zod.safeParse sessionTokenSchema body with
    | inl errors => ret (validation_error errors)
    | inr data =>
        let token := text (get_prop data "sessionToken") in
        DatabaseStorage.deleteAllPasswordEntries token ;;;
        ret (mkResponse 200
               (JSObject
                  [("message",
                    JSString "All password entries deleted successfully")]))
    end
    (session_catch "Failed to delete password entries").

(** [GET /api/admin/stats] *)
Definition get_admin_stats : M Response :=
  try_catch
    (deletedCount <- DatabaseStorage.deleteExpiredEntries ;;
     hasMaster <- Storage.checkMasterPasswordExists ;;
     time <- new_Date ;;
     ret (mkResponse 200
            (JSObject
               [("expiredEntriesCleanedUp", JSNumber (Z.of_nat deletedCount));
                ("masterPasswordConfigured", JSBool hasMaster);
                ("timestamp", JSString (toISOString time))])))
    (fun _ => internal_error "Failed to get system stats").

(** [GET /api/health] *)
Definition get_health : M Response :=
  time <- new_Date ;;
  ret (mkResponse 200
         (JSObject
            [("status", JSString "ok");
             ("timestamp", JSString (toISOString time));
             ("service", JSString "password-sharing-api")])).

End WithRuntime.
End Routes.

(** ** The client: [apiRequest] and the forms *)

Module Client.

(** [String(v)], which [new Error(v)] applies to its message; an integer
    below 10^21 prints in decimal. *)
Definition decimal (z : Z) : string :=
  NilEmpty.string_of_int (Z.to_int z).

Fixpoint ToString (v : JSValue) : string :=
  match v with
  | JSNull => "null"
  | JSBool true => "true"
  | JSBool false => "false"
  | JSNumber z => decimal z
  | JSString s => s
  | JSArray items =>
      (fix join (l : list JSValue) : string :=
         match l with
         | [] => EmptyString
         | [x] => match x with JSNull => EmptyString | _ => ToString x end
         | x :: r =>
             (match x with JSNull => EmptyString | _ => ToString x end
              ++ "," ++ join r)%string
         end) items
  | JSObject _ => "[object Object]"
  end.

(** [a || b] where [a] may be [undefined]. *)
Definition or_else (a : option JSValue) (b : JSValue) : JSValue :=
  match a with
  | Some v => if truthy v then v else b
  | None => b
  end.

(** [response.ok] *)
Definition ok (r : Routes.Response) : bool :=
  (200 <=? Routes.status r)%Z && (Routes.status r <=? 299)%Z.

(** [apiRequest] on a response whose body is a JSON object, as every body
    of the routes is: the data of the response, or the message of the
    [Error] it throws. *)
Definition apiRequest (r : Routes.Response) : string + JSValue :=
  let data := Routes.json r in
  if negb (ok r)
  then inl (ToString
              (or_else (get_prop data "message")
                 (or_else (get_prop data "error") (JSString "API request failed"))))
  else inr data.

(** The test the [catch] of [loadPasswordEntries] and the [onError] of the
    mutations make before they log out. *)
Definition session_lost (outcome : string + JSValue) : bool :=
  match outcome with
  | inl message => includes "Invalid session" message
  | inr _ => false
  end.

(** The bodies the client sends; [JSON.stringify] writes them and the
    server's JSON parser reads them. *)
Definition sent `{NodeRuntime} (v : JSValue) : option JSValue :=
  JSON_parse (JSON_stringify v).

Definition master_password_body (masterPassword : string) : JSValue :=
  JSObject [("masterPassword", JSString masterPassword)].

Definition session_token_body (token : string) : JSValue :=
  JSObject [("sessionToken", JSString token)].

(** [createPasswordEntryMutation] of [AdminPageRoute]:
    [{ sessionToken, title, fields }]. *)
Definition admin_entry_body (token : string) (entry : string * list PasswordField)
    : JSValue :=
  JSObject [("sessionToken", JSString token);
            ("title", JSString (fst entry));
            ("fields", JSArray (map field_toJS (snd entry)))].

(** [handleSubmit] of [AdminPage]: what it hands to [onSaveEntry], if it
    does. *)
Definition filled (f : PasswordField) : bool :=
  nonempty (name f) && nonempty (value f).

Definition AdminPage_handleSubmit (title_typed : string) (rows : list PasswordField)
    : option (string * list PasswordField) :=
  if nonempty (trim title_typed) && existsb filled rows
  then Some (title_typed, filter filled rows)
  else None.

(** [handleSubmit] of [MasterPasswordSetup]: what it hands to
    [onCreateMaster], if it does. *)
Definition MasterPasswordSetup_handleSubmit (typed confirmPassword : string)
    : option string :=
  if String.eqb typed confirmPassword && (6 <=? js_length typed)%nat
  then Some typed
  else None.

(** [updateTimer] of [PasswordDisplay]: hours, minutes and seconds of a
    time difference in milliseconds, and the text shown. *)
Definition updateTimer (timeDiff : Z) : Z * Z * Z :=
  let hours := (timeDiff / (1000 * 60 * 60))%Z in
  let minutes := (Z.rem timeDiff (1000 * 60 * 60) / (1000 * 60))%Z in
  let seconds := (Z.rem timeDiff (1000 * 60) / 1000)%Z in
  (hours, minutes, seconds).

Definition timer_text (timeDiff : Z) : string :=
  let '(hours, minutes, seconds) := updateTimer timeDiff in
  (decimal hours ++ "h " ++ decimal minutes ++ "m " ++ decimal seconds ++ "s")%string.

End Client.

(** ** A reference for the texts and for [randomInt] *)

Module ReferenceText.

(** Year, month and day of a day count from 1970-01-01 in the proleptic
    Gregorian calendar. *)
Definition civil_from_days (days : Z) : Z * Z * Z :=
  let z := (days + 719468)%Z in
  let era := (z / 146097)%Z in
  let doe := (z - era * 146097)%Z in
  let yoe := ((doe - doe / 1460 + doe / 36524 - doe / 146096) / 365)%Z in
  let doy := (doe - (365 * yoe + yoe / 4 - yoe / 100))%Z in
  let mp := ((5 * doy + 2) / 153)%Z in
  let d := (doy - (153 * mp + 2) / 5 + 1)%Z in
  let m := if (mp <? 10)%Z then (mp + 3)%Z else (mp - 9)%Z in
  let y := (yoe + era * 400)%Z in
  (if (m <=? 2)%Z then (y + 1)%Z else y, m, d).

Definition digit (z : Z) : ascii := ascii_of_N (48 + Z.to_N (z mod 10)).

(** The last [width] decimal digits of a natural number, zero-padded. *)
Fixpoint padded (width : nat) (z : Z) : string :=
  match width with
  | O => EmptyString
  | S k => (padded k (z / 10) ++ String (digit z) EmptyString)%string
  end.

Definition year_text (y : Z) : string :=
  if (0 <=? y)%Z && (y <=? 9999)%Z then padded 4 y
  else if (y <? 0)%Z then ("-" ++ padded 6 (- y))%string
  else ("+" ++ padded 6 y)%string.

Definition iso (t : Z) : string :=
  let days := (t / 86400000)%Z in
  let ms := (t mod 86400000)%Z in
  let '(y, m, d) := civil_from_days days in
  (year_text y ++ "-" ++ padded 2 m ++ "-" ++ padded 2 d ++ "T"
   ++ padded 2 (ms / 3600000) ++ ":" ++ padded 2 (ms / 60000 mod 60) ++ ":"
   ++ padded 2 (ms / 1000 mod 60) ++ "." ++ padded 3 (ms mod 1000) ++ "Z")%string.

Definition text : NodeText := {|
  toISOString := iso;
  cipher_error_message := "Unsupported state or unable to authenticate data";
  json_error_message := "Unexpected end of JSON input";
  unique_violation_message table :=
    ("duplicate key value violates unique constraint of " ++ table)%string
|}.

(** Six bytes of entropy, read as a big-endian number and reduced to the
    range. *)
Definition big_endian (b : Buffer) : Z :=
  fold_left (fun acc x => (acc * 256 + Z.of_N (Byte.to_N x))%Z) b 0%Z.

Definition random_below : NodeRandomInt := {|
  randomInt min max :=
    b <- randomBytes 6 ;;
    ret (if (min <? max)%Z then (min + big_endian b mod (max - min))%Z else min)
|}.

End ReferenceText.

(** ** What the routes accept and what the texts must not say *)

(** A value that reads as the field record [f]: an object with these three
    properties, and maybe others. *)
Definition reads_as_field (v : JSValue) (f : PasswordField) : Prop :=
  get_prop v "name" = Some (JSString (name f))
  /\ get_prop v "value" = Some (JSString (value f))
  /\ get_prop v "isPassword" = Some (JSBool (isPassword f)).

(** A value that reads as the payload [d]. *)
Definition reads_as_entry (v : JSValue) (d : DecryptedData) : Prop :=
  get_prop v "title" = Some (JSString (title d))
  /\ exists items,
       get_prop v "fields" = Some (JSArray items)
       /\ Forall2 reads_as_field items (fields d).

(** A payload with a title, at least one field, and a name and a value in
    every field. *)
Definition complete_entry (d : DecryptedData) : Prop :=
  (1 <= js_length (title d))%nat
  /\ fields d <> []
  /\ Forall (fun f => (1 <= js_length (name f))%nat /\ (1 <= js_length (value f))%nat)
            (fields d).

(** The texts of the runtime do not happen to say "Invalid session", the
    words the [catch] of the session routes looks for. *)
Definition no_session_wording (T : NodeText) : Prop :=
  forall why : Cause,
    includes "Invalid session"
      ("Session decryption failed: " ++ cause_message why)%string = false.

(** The schema of one field and of the entry inside
    [passwordEntryCreateSchema]. *)
Definition field_schema : Zod.Schema :=
  Zod.object
    [("name", Zod.string_min 1 "Field name is required");
     ("value", Zod.string_min 1 "Field value is required");
     ("isPassword", Zod.boolean)].

Definition entry_schema : Zod.Schema :=
  Zod.object
    [("title", Zod.string_min 1 "Title is required");
     ("fields", Zod.array_min field_schema 1 "At least one field is required")].

(** Induction on a schema with the hypothesis on the element of an array
    and on every property of an object. *)
Section Schema_induction.
Variable P : Zod.Schema -> Prop.
Hypothesis H_string : forall minimum message, P (Zod.string_min minimum message).
Hypothesis H_boolean : P Zod.boolean.
Hypothesis H_array :
  forall element minimum message, P element -> P (Zod.array_min element minimum message).
Hypothesis H_object :
  forall shape, Forall (fun ks => P (snd ks)) shape -> P (Zod.object shape).

Fixpoint Schema_nested_ind (s : Zod.Schema) : P s :=
  match s with
  | Zod.string_min minimum message => H_string minimum message
  | Zod.boolean => H_boolean
  | Zod.array_min element minimum message =>
      H_array element minimum message (Schema_nested_ind element)
  | Zod.object shape =>
      H_object shape
        ((fix all (l : list (string * Zod.Schema)) : Forall (fun ks => P (snd ks)) l :=
            match l with
            | [] => Forall_nil _
            | ks :: r => Forall_cons ks (Schema_nested_ind (snd ks)) (all r)
            end) shape)
  end.

End Schema_induction.

(** A text the client's test for a lost session does not react to. *)
Definition quiet_text (s : string) : bool := negb (includes "Invalid session" s).

(** A schema none of whose messages the test reacts to. *)
Fixpoint quiet_schema (s : Zod.Schema) : bool :=
  match s with
  | Zod.string_min _ message => quiet_text message
  | Zod.boolean => true
  | Zod.array_min element _ message => quiet_text message && quiet_schema element
  | Zod.object shape =>
      (fix all (l : list (string * Zod.Schema)) : bool :=
         match l with
         | [] => true
         | (_, s') :: r => quiet_schema s' && all r
         end) shape
  end.

(** ** Two more facts of the runtime, as Node.js documents them *)

Section MoreLaws.
Context (R : NodeRuntime).

(** The Base64 text of a buffer that is not empty is not empty. *)
Definition base64_nonempty : Prop :=
  forall b : Buffer, b <> [] -> toBase64 b <> EmptyString.

(** AES-GCM gives as many bytes of ciphertext as it was given of plaintext,
    and a tag. *)
Definition gcm_output_shape : Prop :=
  forall key iv aad plain cipher tag,
    gcm_encrypt key iv aad plain = Some (cipher, tag) ->
    length cipher = length plain /\ tag <> [].

End MoreLaws.

(** ** Texts of Unicode scalar values

    A JavaScript string is represented by its UTF-8 bytes, which a string
    with a lone surrogate does not have: [Buffer.from] writes U+FFFD for it.
    The strings that are represented are the UTF-8 sequences of the Unicode
    standard (table 3-7): no surrogate, no overlong form, nothing above
    U+10FFFF. *)
Fixpoint scalar_sequences (pending : nat) (lo hi : N) (s : string) : bool :=
  match s with
  | EmptyString => Nat.eqb pending 0
  | String c r =>
      let n := N_of_ascii c in
      match pending with
      | O =>
          if (n <? 128)%N then scalar_sequences 0 128 191 r
          else if (n <? 194)%N then false
          else if (n <? 224)%N then scalar_sequences 1 128 191 r
          else if (n =? 224)%N then scalar_sequences 2 160 191 r
          else if (n =? 237)%N then scalar_sequences 2 128 159 r
          else if (n <? 240)%N then scalar_sequences 2 128 191 r
          else if (n =? 240)%N then scalar_sequences 3 144 191 r
          else if (n <? 244)%N then scalar_sequences 3 128 191 r
          else if (n =? 244)%N then scalar_sequences 3 128 143 r
          else false
      | S k => (lo <=? n)%N && (n <=? hi)%N && scalar_sequences k 128 191 r
      end
  end.

Definition unicode_text (s : string) : bool := scalar_sequences 0 128 191 s.

(** ** Concrete requests, users and stores for the runs below *)

Module Sample.
Import Example.

#[local] Existing Instance Reference.runtime.



(** Two live sessions. *)
Definition second_session_row : Session :=
  mkSession "s2" "token-2" "Y3Q=:aXY=:dGFn" "c2FsdA==" 86000000 100400000 true.

Definition two_sessions : World :=
  mkWorld [] [live_session_row; second_session_row] [] 90000000 entropy_tape 0.

(** A session row whose secret was sealed under the key its own token
    derives, so that it opens under the token. *)
Definition self_sealed : Crypto.SessionSecret :=
  returned (Crypto.mkSessionSecret EmptyString EmptyString)
    (Crypto.seal_session (toBase64 (salt_draw fresh_world))
       (toBase64 (iv_draw fresh_world)) "token-1").

Definition self_sealed_row : Session :=
  mkSession "s1" "token-1" (Crypto.ss_encryptedMasterPassword self_sealed)
            (Crypto.ss_sessionSalt self_sealed) 1700000000000 1700014400000 true.

Definition vault_world : World :=
  mkWorld [] [self_sealed_row] [] 1700000000000 entropy_tape 0.

(** The store after an entry was created in [vault_world], with a row
    beside it that is no ciphertext of anything. *)
Definition garbage_row : PasswordEntry :=
  mkEntry "e0" "ZGF0YQ==" "c2FsdA==" "aXY=" "dGFn" 1700000000000 1700086400000 false.

Definition vault_with_garbage : World :=
  let w' := snd (DatabaseStorage.createPasswordEntry mail_entry "token-1" vault_world) in
  with_password_entries (garbage_row :: password_entries w') w'.

(** The row [setupMasterPassword] stored in [configured_world]. *)
Definition configured_row : MasterPassword :=
  nth 0 (master_password configured_world)
      (mkMasterPassword EmptyString EmptyString EmptyString 0).

(** Users. *)
Definition alice : Storage.InsertUser := Storage.mkInsertUser "alice" "wonderland".

Definition one_user : list Storage.User := [Storage.mkUser "u1" "alice" "rabbit"].

(** Bodies. *)
Definition empty_body : JSValue := JSObject [].

(** What the admin form holds when a title and the first row are filled. *)
Definition typed_rows : list PasswordField :=
  [mkField "Username" "a@b.com" false; mkField "Password" EmptyString true].

End Sample.

(** * Session vault and entry store *)

Section SessionFacts.

Lemma filter_nonempty_iff {A : Type} (p : A -> bool) (l : list A) :
  (0 <? length (firstn 1 (filter p l)))%nat = true <-> exists x, In x l /\ p x = true.
Proof.
  split.
  - destruct (filter p l) as [|x r] eqn:E; simpl; [discriminate|].
    intros _. exists x. apply filter_In. rewrite E. now left.
  - intros [x Hx]. apply filter_In in Hx.
    destruct (filter p l); [contradiction | reflexivity].
Qed.

Lemma live_session_spec (t : string) (time : Z) (s : Session) :
  live_session t time s = true <->
  sessionToken s = t /\ isActive s = true /\ (time < s_expiresAt s)%Z.
Proof.
  unfold live_session. rewrite !andb_true_iff, String.eqb_eq, Z.ltb_lt.
  destruct (isActive s); simpl; intuition congruence.
Qed.

(** C6.  [verifySession] changes nothing and answers [true] exactly when a
    session row with that token is active and expires strictly after now;
    otherwise, a missing token, [isActive = false] or [expiresAt <= now], it
    answers [false]. *)
Theorem verifySession_iff (token : string) (w : World) :
  exists b : bool,
    DatabaseStorage.verifySession token w = (inr b, w)
    /\ (b = true <->
        exists s, In s (sessions w) /\ sessionToken s = token
                  /\ isActive s = true /\ (now w < s_expiresAt s)%Z)
    /\ (b = false <->
        forall s, In s (sessions w) -> sessionToken s = token ->
                  isActive s = false \/ (s_expiresAt s <= now w)%Z).
Proof.
  eexists. split; [reflexivity|].
  assert (T : (0 <? length (firstn 1 (filter (live_session token (now w)) (sessions w))))%nat
              = true <->
              exists s, In s (sessions w) /\ sessionToken s = token
                        /\ isActive s = true /\ (now w < s_expiresAt s)%Z).
  { rewrite filter_nonempty_iff. split; intros [s [Hin Hs]]; exists s;
      (split; [exact Hin|]); now apply live_session_spec. }
  split; [exact T|].
  rewrite <- not_true_iff_false, T. split.
  - intros N s Hin Ht.
    destruct (isActive s) eqn:Ea; [|now left]. right.
    destruct (Z.le_gt_cases (s_expiresAt s) (now w)) as [L|G]; [exact L|].
    exfalso. apply N. exists s. repeat split; assumption.
  - intros A [s [Hin [Ht [Ha Hl]]]].
    destruct (A s Hin Ht) as [F|L]; [congruence | lia].
Qed.

End SessionFacts.

Section LoginFacts.
Context {R : NodeRuntime}.

(** C7.  When no master secret is configured, or the candidate does not
    verify against the stored hash, [createSession] throws "Invalid master
    password" (the specification's AuthenticationError) and leaves the whole
    world, the session table included, as it was. *)
Theorem createSession_denied (candidate : string) (w : World) :
  master_password w = []
  \/ (exists r rest, master_password w = r :: rest
                     /\ bcrypt_compare candidate (hashedPassword r) = false) ->
  DatabaseStorage.createSession candidate w = (inl InvalidMasterPassword, w)
  /\ spec_error InvalidMasterPassword = AuthenticationError
  /\ sessions (snd (DatabaseStorage.createSession candidate w)) = sessions w.
Proof.
  intros H.
  assert (E : DatabaseStorage.createSession candidate w = (inl InvalidMasterPassword, w)).
  { unfold DatabaseStorage.createSession, DatabaseStorage.verifyMasterPassword,
      DatabaseStorage.getMasterPassword, bind, get_world, ret, throw.
    destruct H as [H | [r [rest [H C]]]]; rewrite H; simpl.
    - reflexivity.
    - unfold Crypto.verifyMasterPassword. rewrite C. reflexivity. }
  rewrite E. auto.
Qed.

End LoginFacts.

Section SoftDelete.

Lemma verifySession_run (token : string) (w : World) :
  DatabaseStorage.verifySession token w
  = (inr (0 <? length (firstn 1 (filter (live_session token (now w)) (sessions w))))%nat, w).
Proof. reflexivity. Qed.

Lemma deleteAll_run (token : string) (w : World) :
  fst (DatabaseStorage.verifySession token w) = inr true ->
  DatabaseStorage.deleteAllPasswordEntries token w
  = (inr tt, with_password_entries (map soft_delete (password_entries w)) w).
Proof.
  intros H. unfold DatabaseStorage.deleteAllPasswordEntries, bind.
  rewrite verifySession_run in *. cbn [fst] in H.
  set (b := (0 <? _)%nat) in *.
  assert (Hb : b = true) by congruence.
  rewrite Hb. reflexivity.
Qed.

(** C5, as amended.  With a valid session, [deleteAllPasswordEntries] keeps
    every row in place and touches the [isDeleted] column only: it is [true]
    afterwards on every row, whether or not the row has expired, and a row
    that was already deleted is unchanged.  Sessions and the master secret
    are not touched. *)
Theorem deleteAll_marks_every_row (token : string) (w : World) :
  fst (DatabaseStorage.verifySession token w) = inr true ->
  exists w',
    DatabaseStorage.deleteAllPasswordEntries token w = (inr tt, w')
    /\ sessions w' = sessions w
    /\ master_password w' = master_password w
    /\ length (password_entries w') = length (password_entries w)
    /\ forall i e, nth_error (password_entries w) i = Some e ->
         exists e', nth_error (password_entries w') i = Some e'
           /\ isDeleted e' = true
           /\ e_id e' = e_id e /\ encryptedData e' = encryptedData e
           /\ salt e' = salt e /\ iv e' = iv e /\ authTag e' = authTag e
           /\ e_createdAt e' = e_createdAt e /\ e_expiresAt e' = e_expiresAt e
           /\ (isDeleted e = true -> e' = e).
Proof.
  intros V. eexists. split; [apply deleteAll_run, V|].
  simpl. repeat split; [apply length_map|].
  intros i e Hi. exists (soft_delete e). split.
  - rewrite nth_error_map, Hi. reflexivity.
  - unfold soft_delete. destruct e as [a b c d f g h del]; destruct del; simpl;
      repeat split; intros; congruence.
Qed.

End SoftDelete.

(** * Envelope cipher *)

Section EnvelopeFacts.
Context {R : NodeRuntime}.

Lemma encryptPasswordEntry_run (data : DecryptedData) (secret : string) (w : World) :
  Crypto.encryptPasswordEntry data secret w
  = (Crypto.seal_entry (toBase64 (salt_draw w)) (toBase64 (iv_draw w))
                       (toJS data) secret,
     after_draw Crypto.IV_LENGTH (after_draw Crypto.SALT_LENGTH w)).
Proof. reflexivity. Qed.

Lemma encryptMasterPasswordForSession_run (secret : string) (w : World) :
  Crypto.encryptMasterPasswordForSession secret w
  = (Crypto.seal_session (toBase64 (salt_draw w)) (toBase64 (iv_draw w)) secret,
     after_draw Crypto.IV_LENGTH (after_draw Crypto.SALT_LENGTH w)).
Proof. reflexivity. Qed.

(** [KEY_LENGTH] is the key length of the cipher the code names. *)
Lemma derived_key_length (secret saltText : string) :
  pbkdf2_length R -> length (Crypto.deriveKey secret saltText) = AES_256_KEY.
Proof. intros L. unfold Crypto.deriveKey, pbkdf2Sync. now rewrite L. Qed.

Lemma draw_nonempty (tape : nat -> byte) (from n : nat) :
  n <> 0 -> map tape (seq from n) <> [].
Proof.
  intros H E. apply (f_equal (@length byte)) in E.
  rewrite length_map, length_seq in E. exact (H E).
Qed.

Lemma iv_draw_nonempty (w : World) : iv_draw w <> [].
Proof. apply draw_nonempty. discriminate. Qed.

Lemma fields_plain (fs : list PasswordField) :
  forallb json_plain (map field_toJS fs) = true.
Proof. induction fs as [|f fs IH]; simpl; [reflexivity | exact IH]. Qed.

Lemma toJS_plain (data : DecryptedData) : json_plain (toJS data) = true.
Proof.
  unfold toJS. simpl. rewrite andb_true_r. apply fields_plain.
Qed.

Lemma toJS_basic_shape (data : DecryptedData) : basic_shape (toJS data) = true.
Proof. reflexivity. Qed.

(** The test of [decryptPasswordEntry] is [basic_shape]. *)
Lemma structure_check (v : JSValue) :
  negb (truthy v) || negb (typeof_is_string (get_prop v "title"))
  || negb (Array_isArray (get_prop v "fields"))
  = negb (basic_shape v).
Proof.
  destruct v; simpl; try reflexivity.
  - destruct b; reflexivity.
  - destruct (negb (z =? 0)%Z); reflexivity.
  - destruct (negb (s =? EmptyString)%string); reflexivity.
  - now rewrite negb_andb.
Qed.

Lemma decryptPasswordEntry_parsed (env : EncryptedData) (secret : string)
    (plain : Buffer) (v : JSValue) :
  gcm_decrypt (Crypto.deriveKey secret (ed_salt env)) (fromBase64 (ed_iv env))
    (fromBase64 (ed_salt env)) (fromBase64 (ed_encryptedData env))
    (fromBase64 (ed_authTag env)) = Some plain ->
  JSON_parse (utf8_decode plain) = Some v ->
  Crypto.decryptPasswordEntry env secret
  = if basic_shape v then inr v else inl (DecryptionFailed InvalidStructure).
Proof.
  intros D P. unfold Crypto.decryptPasswordEntry.
  rewrite D, P, structure_check. destruct (basic_shape v); reflexivity.
Qed.



(** Sealing succeeds, and opening, with a secret that derives the same
    key, gives back any value [JSON.stringify] prints faithfully. *)
Lemma open_sealed_value (v : JSValue) (salt_bytes iv_bytes : Buffer)
    (secret secret' : string) :
  base64_roundtrip R -> pbkdf2_length R -> gcm_roundtrip R -> json_roundtrip R ->
  iv_bytes <> [] ->
  json_plain v = true ->
  Crypto.deriveKey secret' (toBase64 salt_bytes)
  = Crypto.deriveKey secret (toBase64 salt_bytes) ->
  exists env,
    Crypto.seal_entry (toBase64 salt_bytes) (toBase64 iv_bytes) v secret = inr env
    /\ Crypto.decryptPasswordEntry env secret'
       = if basic_shape v then inr v else inl (DecryptionFailed InvalidStructure).
Proof.
  intros B L G J Hiv Hv K.
  destruct (G (Crypto.deriveKey secret (toBase64 salt_bytes)) iv_bytes salt_bytes
              (utf8 (JSON_stringify v)) (derived_key_length _ _ L) Hiv)
    as [cipher [tag [E D]]].
  eexists. split.
  - unfold Crypto.seal_entry. rewrite !B, E. reflexivity.
  - apply decryptPasswordEntry_parsed with (plain := utf8 (JSON_stringify v)).
    + cbn [ed_salt ed_iv ed_encryptedData ed_authTag]. rewrite K, !B. exact D.
    + unfold utf8_decode, utf8. rewrite string_of_list_byte_of_string. apply J, Hv.
Qed.

(** C3.  Opening a sealed envelope with the secret it was sealed under
    returns the payload: for every payload and secret, whatever salt and IV
    are drawn, [encryptPasswordEntry P S] returns an envelope and
    [decryptPasswordEntry] of it with [S] returns [P]. *)
Theorem seal_open_roundtrip (data : DecryptedData) (secret : string) (w : World) :
  base64_roundtrip R -> pbkdf2_length R -> gcm_roundtrip R -> json_roundtrip R ->
  exists env w',
    Crypto.encryptPasswordEntry data secret w = (inr env, w')
    /\ Crypto.decryptPasswordEntry env secret = inr (toJS data).
Proof.
  intros B L G J. rewrite encryptPasswordEntry_run.
  destruct (open_sealed_value (toJS data) (salt_draw w) (iv_draw w) secret secret
              B L G J (iv_draw_nonempty w) (toJS_plain data) eq_refl)
    as [env [E D]].
  exists env. eexists. rewrite E. split; [reflexivity | exact D].
Qed.

(** C8, as amended.  Once the tag has verified and [JSON.parse] has
    returned a value, [decryptPasswordEntry] returns that value when it is
    an object whose [title] is a string and whose [fields] is an array, and
    throws "Invalid decrypted data structure" (the specification's
    FormatError) otherwise; the elements of [fields] are not looked at. *)
Theorem structural_check_is_basic (env : EncryptedData) (secret : string)
    (plain : Buffer) (v : JSValue) :
  gcm_decrypt (Crypto.deriveKey secret (ed_salt env)) (fromBase64 (ed_iv env))
    (fromBase64 (ed_salt env)) (fromBase64 (ed_encryptedData env))
    (fromBase64 (ed_authTag env)) = Some plain ->
  JSON_parse (utf8_decode plain) = Some v ->
  (basic_shape v = true -> Crypto.decryptPasswordEntry env secret = inr v)
  /\ (basic_shape v = false ->
      Crypto.decryptPasswordEntry env secret = inl (DecryptionFailed InvalidStructure)
      /\ spec_error (DecryptionFailed InvalidStructure) = FormatError).
Proof.
  intros D P. rewrite (decryptPasswordEntry_parsed env secret plain v D P).
  split; intros ->; auto.
Qed.









End EnvelopeFacts.

(** * Session secret *)

Section SplitFacts.

Lemma split_no_colon (s : string) : has_colon s = false -> split ":" s = [s].
Proof.
  induction s as [|c s IH]; simpl; [reflexivity|].
  intros H. apply orb_false_iff in H as [Hc Hs].
  rewrite Hc, (IH Hs). reflexivity.
Qed.

Lemma split_app (a r : string) :
  has_colon a = false ->
  split ":" (a ++ String ":" r) = a :: split ":" r.
Proof.
  induction a as [|c a IH]; simpl; [reflexivity|].
  intros H. apply orb_false_iff in H as [Hc Ha].
  rewrite Hc, (IH Ha). reflexivity.
Qed.

Lemma split_three (a b c : string) :
  has_colon a = false -> has_colon b = false -> has_colon c = false ->
  split ":" (a ++ ":" ++ b ++ ":" ++ c) = [a; b; c].
Proof.
  intros Ha Hb Hc.
  change (a ++ ":" ++ b ++ ":" ++ c)%string
    with (a ++ String ":" (b ++ String ":" c))%string.
  rewrite (split_app _ _ Ha), (split_app _ _ Hb), (split_no_colon _ Hc).
  reflexivity.
Qed.

Lemma split_nonempty (s : string) : split ":" s <> [].
Proof.
  destruct s as [|c s]; simpl; [discriminate|].
  destruct (Ascii.eqb c ":"); [discriminate|].
  destruct (split ":" s); discriminate.
Qed.

Lemma split_app_colon (s t : string) :
  split ":" (s ++ String ":" t) = split ":" s ++ split ":" t.
Proof.
  induction s as [|c s IH]; cbn [String.append split]; [reflexivity|].
  rewrite IH. destruct (Ascii.eqb c ":"); [reflexivity|].
  destruct (split ":" s) as [|h l] eqn:E; [now apply split_nonempty in E|].
  reflexivity.
Qed.

End SplitFacts.

Section SessionSecretFacts.
Context {R : NodeRuntime}.

Lemma session_format_test (enc : string) :
  (let parts := split ":" enc in
   falsy_string (nth_error parts 0) || falsy_string (nth_error parts 1)
   || falsy_string (nth_error parts 2))
  = negb (first_three_nonempty enc).
Proof.
  unfold first_three_nonempty. cbv zeta.
  destruct (split ":" enc) as [|a [|b [|c t]]]; simpl; try reflexivity.
  - now rewrite orb_true_r.
  - now rewrite orb_true_r.
  - now rewrite !negb_andb, !negb_involutive.
Qed.

Lemma format_check_rejects (enc sessionSalt token : string) :
  first_three_nonempty enc = false ->
  Crypto.decryptMasterPasswordFromSession enc sessionSalt token
  = inl (SessionDecryptionFailed InvalidSessionDataFormat).
Proof.
  intros H. unfold Crypto.decryptMasterPasswordFromSession.
  pose proof (session_format_test enc) as T. cbv zeta in T |- *.
  rewrite T, H. reflexivity.
Qed.

(** C10, as amended.  Whatever the salt, the token and the runtime,
    [decryptMasterPasswordFromSession] throws "Invalid encrypted session data
    format" when one of the first three [":"]-separated components of the
    text is missing or empty; no key is derived and nothing is deciphered on
    that path.  Components after the third are not looked at. *)
Theorem session_format_rejected (enc sessionSalt token : string) :
  first_three_nonempty enc = false ->
  Crypto.decryptMasterPasswordFromSession enc sessionSalt token
  = inl (SessionDecryptionFailed InvalidSessionDataFormat)
  /\ spec_error (SessionDecryptionFailed InvalidSessionDataFormat) = FormatError.
Proof.
  intros H. split; [apply format_check_rejects, H | reflexivity].
Qed.

(** The other branch: with three leading components, the answer is that of
    the decipher on them. *)
Lemma session_format_accepted (enc sessionSalt token a b c : string) (rest : list string) :
  split ":" enc = a :: b :: c :: rest ->
  a <> EmptyString -> b <> EmptyString -> c <> EmptyString ->
  Crypto.decryptMasterPasswordFromSession enc sessionSalt token
  = match gcm_decrypt
            (pbkdf2Sync token (fromBase64 sessionSalt)
                        Crypto.PBKDF2_ITERATIONS Crypto.KEY_LENGTH)
            (fromBase64 b) [] (fromBase64 a) (fromBase64 c) with
    | None => inl (SessionDecryptionFailed CipherRejected)
    | Some decrypted => inr (utf8_decode decrypted)
    end.
Proof.
  intros E Ha Hb Hc. unfold Crypto.decryptMasterPasswordFromSession.
  rewrite E. cbn [nth_error falsy_string Crypto.defined].
  apply String.eqb_neq in Ha, Hb, Hc. rewrite Ha, Hb, Hc. reflexivity.
Qed.

(** Components after the third do not change the answer. *)
Lemma extra_components_ignored (enc extra sessionSalt token : string) :
  first_three_nonempty enc = true ->
  Crypto.decryptMasterPasswordFromSession (enc ++ String ":" extra) sessionSalt token
  = Crypto.decryptMasterPasswordFromSession enc sessionSalt token.
Proof.
  unfold first_three_nonempty, Crypto.decryptMasterPasswordFromSession.
  rewrite split_app_colon.
  destruct (split ":" enc) as [|a [|b [|c t]]]; try discriminate.
  intros _. reflexivity.
Qed.

Lemma no_colon_rejected (enc sessionSalt token : string) :
  has_colon enc = false ->
  Crypto.decryptMasterPasswordFromSession enc sessionSalt token
  = inl (SessionDecryptionFailed InvalidSessionDataFormat).
Proof.
  intros H. apply format_check_rejects.
  unfold first_three_nonempty. now rewrite (split_no_colon _ H).
Qed.

(** What [seal_session] returned, when it returned. *)
Lemma seal_session_inv (salt_text : string) (iv_bytes : Buffer) (secret : string)
    (sealed : Crypto.SessionSecret) :
  base64_roundtrip R ->
  Crypto.seal_session salt_text (toBase64 iv_bytes) secret = inr sealed ->
  exists cipher tag,
    gcm_encrypt (pbkdf2Sync secret (fromBase64 salt_text)
                            Crypto.PBKDF2_ITERATIONS Crypto.KEY_LENGTH)
                iv_bytes [] (utf8 secret) = Some (cipher, tag)
    /\ sealed = Crypto.mkSessionSecret
                  (toBase64 cipher ++ ":" ++ toBase64 iv_bytes ++ ":" ++ toBase64 tag)
                  salt_text.
Proof.
  intros B. unfold Crypto.seal_session. rewrite B.
  destruct (gcm_encrypt _ _ _ _) as [[cipher tag]|]; [|discriminate].
  intros E. injection E as <-. eauto.
Qed.

(** [seal_session] returns when the IV drawn is not empty. *)
Lemma seal_session_returns (salt_text : string) (iv_bytes : Buffer) (secret : string) :
  base64_roundtrip R -> pbkdf2_length R -> gcm_roundtrip R ->
  iv_bytes <> [] ->
  exists sealed, Crypto.seal_session salt_text (toBase64 iv_bytes) secret = inr sealed.
Proof.
  intros B L G Hiv. unfold Crypto.seal_session. rewrite B.
  destruct (G (pbkdf2Sync secret (fromBase64 salt_text)
                          Crypto.PBKDF2_ITERATIONS Crypto.KEY_LENGTH)
              iv_bytes [] (utf8 secret)) as [cipher [tag [E _]]];
    [unfold pbkdf2Sync; now rewrite L | exact Hiv |].
  rewrite E. eauto.
Qed.

(** What [decryptMasterPasswordFromSession] answers on a sealed session
    secret when the token derives another key than the secret. *)
Lemma open_session_secret (salt_text : string) (iv_bytes : Buffer)
    (secret token : string) (sealed : Crypto.SessionSecret) :
  base64_roundtrip R -> base64_no_colon R -> gcm_authentic R ->
  Crypto.seal_session salt_text (toBase64 iv_bytes) secret = inr sealed ->
  pbkdf2Sync token (fromBase64 salt_text) Crypto.PBKDF2_ITERATIONS Crypto.KEY_LENGTH
  <> pbkdf2Sync secret (fromBase64 salt_text) Crypto.PBKDF2_ITERATIONS Crypto.KEY_LENGTH ->
  exists why,
    Crypto.decryptMasterPasswordFromSession
      (Crypto.ss_encryptedMasterPassword sealed) (Crypto.ss_sessionSalt sealed) token
    = inl (SessionDecryptionFailed why).
Proof.
  intros B C A E K.
  destruct (seal_session_inv _ _ _ _ B E) as [cipher [tag [G ->]]].
  cbn [Crypto.ss_encryptedMasterPassword Crypto.ss_sessionSalt].
  unfold Crypto.decryptMasterPasswordFromSession.
  rewrite (split_three _ _ _ (C _) (C _) (C _)).
  cbn [nth_error falsy_string Crypto.defined].
  destruct (_ || _ || _); [eexists; reflexivity|].
  rewrite !B.
  rewrite (A _ _ _ _ _ _ _ G); [eexists; reflexivity|].
  intros E'. apply K. symmetry. exact E'.
Qed.

(** C1, on the code.  The session secret is sealed under a key derived
    from the master secret itself, and opened under a key derived from the
    session token: whenever the two keys differ, recovery throws and the
    secret is not returned. *)
Theorem session_secret_not_recovered (S token : string) (w w' : World)
    (secret : Crypto.SessionSecret) :
  base64_roundtrip R -> base64_no_colon R -> gcm_authentic R ->
  Crypto.encryptMasterPasswordForSession S w = (inr secret, w') ->
  pbkdf2Sync token (fromBase64 (Crypto.ss_sessionSalt secret))
             Crypto.PBKDF2_ITERATIONS Crypto.KEY_LENGTH
  <> pbkdf2Sync S (fromBase64 (Crypto.ss_sessionSalt secret))
                Crypto.PBKDF2_ITERATIONS Crypto.KEY_LENGTH ->
  exists why,
    Crypto.decryptMasterPasswordFromSession
      (Crypto.ss_encryptedMasterPassword secret) (Crypto.ss_sessionSalt secret) token
    = inl (SessionDecryptionFailed why).
Proof.
  intros B C A E K. rewrite encryptMasterPasswordForSession_run in E.
  injection E as E _.
  assert (Hs : Crypto.ss_sessionSalt secret = toBase64 (salt_draw w)).
  { destruct (seal_session_inv _ _ _ _ B E) as [cipher [tag [_ ->]]]. reflexivity. }
  rewrite Hs in K.
  exact (open_session_secret _ _ _ _ _ B C A E K).
Qed.

End SessionSecretFacts.

Section Freshness.
Context {R : NodeRuntime}.



End Freshness.

(** * The scenario: configure, log in, create an entry, list *)

Section Scenario.
Context {R : NodeRuntime}.

Lemma setup_run (secret : string) (w : World) :
  master_password w = [] ->
  exists r w1,
    DatabaseStorage.setupMasterPassword secret w = (inr r, w1)
    /\ master_password w1 = [r]
    /\ (exists rounds rnd,
          hashedPassword r = bcrypt_hash secret (bcrypt_genSalt rounds rnd))
    /\ sessions w1 = sessions w
    /\ password_entries w1 = password_entries w
    /\ now w1 = now w.
Proof.
  destruct w as [mp ss es t ent d]. simpl. intros ->.
  unfold DatabaseStorage.setupMasterPassword, DatabaseStorage.getMasterPassword,
    DatabaseStorage.createMasterPassword, Crypto.hashMasterPassword,
    insert_master_password, randomUUID, randomBytes, new_Date, bind, get_world, ret.
  cbn [master_password sessions password_entries now entropy drawn firstn nth_error
       existsb fst snd with_master_password app].
  eexists. eexists. split; [reflexivity|].
  cbn [master_password sessions password_entries now hashedPassword].
  repeat split. eexists. eexists. reflexivity.
Qed.

Lemma createSession_run (secret : string) (w : World) (r : MasterPassword) :
  base64_roundtrip R -> pbkdf2_length R -> gcm_roundtrip R ->
  master_password w = [r] ->
  bcrypt_compare secret (hashedPassword r) = true ->
  sessions w = [] ->
  exists token s w1,
    DatabaseStorage.createSession secret w
    = (inr (token, (now w + DatabaseStorage.SESSION_LIFETIME)%Z), w1)
    /\ sessions w1 = [s]
    /\ sessionToken s = token
    /\ isActive s = true
    /\ s_expiresAt s = (now w + DatabaseStorage.SESSION_LIFETIME)%Z
    /\ (exists salt_text iv_bytes sealed,
          Crypto.seal_session salt_text (toBase64 iv_bytes) secret = inr sealed
          /\ encryptedMasterPassword s = Crypto.ss_encryptedMasterPassword sealed
          /\ sessionSalt s = Crypto.ss_sessionSalt sealed)
    /\ password_entries w1 = password_entries w
    /\ now w1 = now w.
Proof.
  intros B L G. destruct w as [mp ss es t ent d]. simpl. intros -> C ->.
  unfold DatabaseStorage.createSession, DatabaseStorage.verifyMasterPassword,
    DatabaseStorage.getMasterPassword, Crypto.verifyMasterPassword, bind, get_world, ret.
  cbn [master_password firstn nth_error]. rewrite C. cbn [negb].
  unfold Crypto.encryptMasterPasswordForSession, Crypto.generateSalt, Crypto.generateIV,
    insert_session, randomUUID, randomBytes, new_Date, bind, ret, lift.
  cbn [master_password sessions password_entries now entropy drawn existsb
       with_sessions after_draw app].
  match goal with
  | |- context [Crypto.seal_session ?st (toBase64 (map ?f (seq ?k ?n))) secret] =>
      destruct (seal_session_returns st (map f (seq k n)) secret B L G
                  (draw_nonempty f k n ltac:(discriminate))) as [sealed Hsealed];
      rewrite Hsealed
  end.
  eexists. eexists. eexists. split; [reflexivity|].
  cbn [sessions with_sessions app sessionToken isActive s_expiresAt
       encryptedMasterPassword sessionSalt password_entries now].
  repeat split. eexists. eexists. exists sealed. split; [exact Hsealed|].
  split; reflexivity.
Qed.

(** With one live session row for the token, both entry operations stop at
    the recovery of the master secret when it throws. *)
Lemma entry_operations_stop (data : DecryptedData) (token : string) (w : World)
    (s : Session) (f : Failure) :
  sessions w = [s] ->
  sessionToken s = token -> isActive s = true -> (now w < s_expiresAt s)%Z ->
  Crypto.decryptMasterPasswordFromSession
    (encryptedMasterPassword s) (sessionSalt s) token = inl f ->
  fst (DatabaseStorage.verifySession token w) = inr true
  /\ DatabaseStorage.createPasswordEntry data token w = (inl f, w)
  /\ DatabaseStorage.getAllPasswordEntries token w = (inl f, w).
Proof.
  intros Hs Ht Ha Hl D.
  assert (L : live_session token (now w) s = true)
    by (apply live_session_spec; auto).
  assert (F : firstn 1 (filter (live_session token (now w)) (sessions w)) = [s])
    by (rewrite Hs; cbn [filter]; rewrite L; reflexivity).
  unfold DatabaseStorage.createPasswordEntry, DatabaseStorage.getAllPasswordEntries,
    DatabaseStorage.getMasterPasswordFromSession, DatabaseStorage.verifySession,
    bind, get_world, ret, lift.
  repeat (rewrite ?F, ?D; cbn [length Nat.ltb Nat.leb negb fst]; cbv beta iota).
  auto.
Qed.

(** C2, on the code.  From an empty store, configuring "Sup3rSecret!" and
    logging in with it succeed and issue a token; but the session secret was
    sealed under a key derived from the master secret, so unless the token
    derives that very key, [createPasswordEntry] with the issued token throws
    while recovering the secret, stores nothing, and [getAllPasswordEntries]
    throws as well instead of listing the entry. *)
Theorem scenario_entry_not_created (w0 : World) :
  base64_roundtrip R -> base64_no_colon R -> pbkdf2_length R -> gcm_roundtrip R ->
  gcm_authentic R -> bcrypt_accepts R ->
  empty_store w0 ->
  exists token expiresAt w1,
    configure_and_login "Sup3rSecret!" w0 = (inr (token, expiresAt), w1)
    /\ ((forall salt_bytes,
           pbkdf2Sync token salt_bytes Crypto.PBKDF2_ITERATIONS Crypto.KEY_LENGTH
           <> pbkdf2Sync "Sup3rSecret!" salt_bytes
                         Crypto.PBKDF2_ITERATIONS Crypto.KEY_LENGTH) ->
        exists why,
          fst (DatabaseStorage.verifySession token w1) = inr true
          /\ DatabaseStorage.createPasswordEntry mail_entry token w1
             = (inl (SessionDecryptionFailed why), w1)
          /\ DatabaseStorage.getAllPasswordEntries token w1
             = (inl (SessionDecryptionFailed why), w1)
          /\ password_entries w1 = []).
Proof.
  intros B C L G A H [Em [Es Ee]].
  destruct (setup_run "Sup3rSecret!" w0 Em)
    as [r [wa [Hrun [Hmp [[rounds [rnd Hh]] [Hss [Hes Hnow]]]]]]].
  assert (Hc : bcrypt_compare "Sup3rSecret!" (hashedPassword r) = true)
    by (rewrite Hh; apply H).
  rewrite Es in Hss. rewrite Ee in Hes.
  destruct (createSession_run "Sup3rSecret!" wa r B L G Hmp Hc Hss)
    as [token [s [w1 [Hlog [Hs1 [Htok [Hact [Hexp
         [[st [ib [sealed [Hsealed [Henc Hsalt]]]]] [He1 Hn1]]]]]]]]]].
  exists token, (now wa + DatabaseStorage.SESSION_LIFETIME)%Z, w1. split.
  - unfold configure_and_login, bind. rewrite Hrun. exact Hlog.
  - intros K.
    assert (Hst : Crypto.ss_sessionSalt sealed = st).
    { destruct (seal_session_inv _ _ _ _ B Hsealed) as [cipher [tag [_ ->]]].
      reflexivity. }
    destruct (open_session_secret st ib "Sup3rSecret!" token sealed B C A Hsealed (K _))
      as [why D].
    rewrite <- Henc, <- Hsalt in D.
    exists why.
    assert (Hl : (now w1 < s_expiresAt s)%Z)
      by (rewrite Hexp, Hn1; unfold DatabaseStorage.SESSION_LIFETIME; lia).
    destruct (entry_operations_stop mail_entry token w1 s _ Hs1 Htok Hact Hl D)
      as [V [Cr Li]].
    repeat split; try assumption. congruence.
Qed.

End Scenario.

(** * Session and entry life cycle *)

Section Lifecycle.
Context {R : NodeRuntime}.

Lemma invalidated_not_live (token : string) (time : Z) (l : list Session) :
  filter (live_session token time) (map (invalidate token) l) = [].
Proof.
  induction l as [|s l IH]; [reflexivity|].
  cbn [map filter]. rewrite IH. unfold invalidate, live_session.
  destruct (String.eqb (sessionToken s) token) eqn:E.
  - cbn [set_isActive sessionToken isActive]. rewrite E. reflexivity.
  - rewrite E. reflexivity.
Qed.

(** After [invalidateSession], the token no longer verifies and the three
    entry operations throw "Invalid session - access denied" (the
    specification's InvalidSessionError) without touching the store. *)
Theorem logged_out_token_refused (token : string) (data : DecryptedData) (w : World) :
  let w1 := snd (DatabaseStorage.invalidateSession token w) in
  DatabaseStorage.verifySession token w1 = (inr false, w1)
  /\ DatabaseStorage.createPasswordEntry data token w1 = (inl InvalidSession, w1)
  /\ DatabaseStorage.getAllPasswordEntries token w1 = (inl InvalidSession, w1)
  /\ DatabaseStorage.deleteAllPasswordEntries token w1 = (inl InvalidSession, w1)
  /\ spec_error InvalidSession = InvalidSessionError.
Proof.
  intros w1.
  assert (V : DatabaseStorage.verifySession token w1 = (inr false, w1)).
  { rewrite verifySession_run. unfold w1, DatabaseStorage.invalidateSession.
    cbn [snd sessions with_sessions now]. now rewrite invalidated_not_live. }
  unfold DatabaseStorage.createPasswordEntry, DatabaseStorage.getAllPasswordEntries,
    DatabaseStorage.deleteAllPasswordEntries, bind.
  rewrite V. auto.
Qed.

(** [deleteExpiredEntries] removes exactly the rows whose [expiresAt] is not
    after now, deleted or not, answers how many they were, and changes
    nothing else. *)
Theorem expired_entries_purged (w : World) :
  exists n w',
    DatabaseStorage.deleteExpiredEntries w = (inr n, w')
    /\ n = length (filter (fun e => (e_expiresAt e <=? now w)%Z) (password_entries w))
    /\ (forall e, In e (password_entries w') <->
                  In e (password_entries w) /\ (now w < e_expiresAt e)%Z)
    /\ sessions w' = sessions w
    /\ master_password w' = master_password w.
Proof.
  eexists. eexists. split; [reflexivity|]. split; [reflexivity|].
  cbn [password_entries sessions master_password with_password_entries].
  repeat split; try (apply filter_In in H; tauto).
  - apply filter_In in H as [_ H]. apply negb_true_iff, Z.leb_gt in H. exact H.
  - intros [Hin Hlt]. apply filter_In. split; [exact Hin|].
    apply negb_true_iff, Z.leb_gt. exact Hlt.
Qed.

(** After [deleteAllPasswordEntries] with a valid session, the query of
    [getAllPasswordEntries] selects no row, at any time. *)
Theorem soft_deleted_not_listed (token : string) (w : World) (time : Z) :
  fst (DatabaseStorage.verifySession token w) = inr true ->
  filter (listed_entry time)
    (password_entries (snd (DatabaseStorage.deleteAllPasswordEntries token w))) = [].
Proof.
  intros V. rewrite (deleteAll_run token w V).
  cbn [snd password_entries with_password_entries].
  induction (password_entries w) as [|e l IH]; [reflexivity|].
  cbn [map filter]. rewrite IH. unfold soft_delete, listed_entry.
  destruct (isDeleted e) eqn:E; cbn [Bool.eqb set_isDeleted isDeleted];
    rewrite ?E; reflexivity.
Qed.

(** [setupMasterPassword] is single-use: once a master secret is stored it
    throws "Master password already exists" (the specification's
    AlreadyConfiguredError) and changes nothing. *)
Theorem setup_is_single_use (password : string) (w : World) :
  master_password w <> [] ->
  DatabaseStorage.setupMasterPassword password w = (inl MasterPasswordExists, w)
  /\ spec_error MasterPasswordExists = AlreadyConfiguredError.
Proof.
  intros H. split; [|reflexivity].
  unfold DatabaseStorage.setupMasterPassword, DatabaseStorage.getMasterPassword,
    bind, get_world, ret, throw.
  destruct (master_password w) as [|r l]; [congruence | reflexivity].
Qed.

Lemma createSession_inserted (secret token : string) (expiresAt : Z) (w w1 : World) :
  DatabaseStorage.createSession secret w = (inr (token, expiresAt), w1) ->
  expiresAt = (now w + DatabaseStorage.SESSION_LIFETIME)%Z
  /\ now w1 = now w
  /\ (exists s, sessions w1 = sessions w ++ [s]
                /\ sessionToken s = token /\ isActive s = true
                /\ s_expiresAt s = expiresAt)
  /\ (forall x, In x (sessions w) -> sessionToken x <> token).
Proof.
  unfold DatabaseStorage.createSession, DatabaseStorage.verifyMasterPassword,
    DatabaseStorage.getMasterPassword, Crypto.encryptMasterPasswordForSession,
    Crypto.generateSalt, Crypto.generateIV, insert_session, randomUUID, randomBytes,
    new_Date, bind, get_world, ret, throw, lift.
  destruct (nth_error (firstn 1 (master_password w)) 0) as [r|]; [|discriminate].
  destruct (negb _); [discriminate|].
  cbn [sessions after_draw now drawn entropy].
  repeat match goal with
         | |- context [uuid_format ?b] =>
             let u := fresh "u" in generalize (uuid_format b); intros u
         end.
  destruct (Crypto.seal_session _ _ _) as [f|sealed]; [discriminate|].
  match goal with |- context [existsb ?p (sessions w)] =>
    destruct (existsb p (sessions w)) eqn:E end; [discriminate|].
  intros H. injection H as Ht He Hw. subst w1.
  cbn [sessions with_sessions now after_draw].
  repeat split; auto.
  - eexists. split; [reflexivity|].
    cbn [sessionToken isActive s_expiresAt]. auto.
  - intros x Hin Hx.
    rewrite <- not_true_iff_false in E. apply E.
    apply existsb_exists. exists x. split; [exact Hin|].
    subst token. cbn [sessionToken]. rewrite Hx, String.eqb_refl. apply orb_true_r.
Qed.

Lemma other_tokens_not_live (token : string) (time : Z) (l : list Session) :
  (forall x, In x l -> sessionToken x <> token) ->
  filter (live_session token time) l = [].
Proof.
  induction l as [|x l IH]; intros H; [reflexivity|].
  cbn [filter]. rewrite IH by (intros y Hy; apply H; now right).
  unfold live_session.
  destruct (String.eqb_spec (sessionToken x) token) as [Ex|_]; [|reflexivity].
  exfalso. apply (H x); [now left | exact Ex].
Qed.

(** A session created by [createSession] expires four hours after its
    creation: as the clock moves on and nothing else changes, its token
    verifies exactly as long as the time is before [expiresAt]. *)
Theorem session_valid_until_expiry (secret token : string) (expiresAt : Z)
    (w w1 : World) (time : Z) :
  DatabaseStorage.createSession secret w = (inr (token, expiresAt), w1) ->
  expiresAt = (now w + 14400000)%Z
  /\ DatabaseStorage.verifySession token (at_time time w1)
     = (inr (time <? expiresAt)%Z, at_time time w1).
Proof.
  intros H. apply createSession_inserted in H as [He [_ [[s [Hs [Ht [Ha Hx]]]] Hfresh]]].
  split; [exact He|].
  rewrite verifySession_run. cbn [at_time sessions now]. rewrite Hs.
  rewrite filter_app, (other_tokens_not_live token time _ Hfresh).
  cbn [filter app]. unfold live_session.
  rewrite Ht, Ha, Hx, String.eqb_refl. cbn [Bool.eqb andb].
  destruct (time <? expiresAt)%Z; reflexivity.
Qed.

End Lifecycle.

(** * Cleanup, logout and setup *)

Section Cleanup.
Context {R : NodeRuntime}.

Lemma filter_filter_implied {A : Type} (p q : A -> bool) (l : list A) :
  (forall x, p x = true -> q x = true) ->
  filter p (filter q l) = filter p l.
Proof.
  intros H. induction l as [|x l IH]; [reflexivity|].
  cbn [filter]. destruct (q x) eqn:Q; cbn [filter]; rewrite IH.
  - reflexivity.
  - destruct (p x) eqn:P; [|reflexivity]. apply H in P. congruence.
Qed.

Lemma live_not_expired (token : string) (time : Z) (s : Session) :
  live_session token time s = true -> negb (s_expiresAt s <=? time)%Z = true.
Proof.
  intros H. apply live_session_spec in H as [_ [_ H]].
  apply negb_true_iff, Z.leb_gt. exact H.
Qed.

Lemma listed_not_expired (time : Z) (e : PasswordEntry) :
  listed_entry time e = true -> negb (e_expiresAt e <=? time)%Z = true.
Proof.
  unfold listed_entry. intros H. apply andb_true_iff in H as [_ H].
  apply Z.ltb_lt in H. apply negb_true_iff, Z.leb_gt. exact H.
Qed.

(** [cleanupExpiredSessions] removes exactly the session rows whose
    [expiresAt] is not after now, active or not, answers how many they were,
    leaves the other tables alone, and changes the answer of
    [verifySession] for no token. *)
Theorem expired_sessions_purged (w : World) :
  exists n w',
    DatabaseStorage.cleanupExpiredSessions w = (inr n, w')
    /\ n = length (filter (fun s => (s_expiresAt s <=? now w)%Z) (sessions w))
    /\ (forall s, In s (sessions w') <->
                  In s (sessions w) /\ (now w < s_expiresAt s)%Z)
    /\ password_entries w' = password_entries w
    /\ master_password w' = master_password w
    /\ forall token,
         fst (DatabaseStorage.verifySession token w')
         = fst (DatabaseStorage.verifySession token w).
Proof.
  eexists. eexists. split; [reflexivity|]. split; [reflexivity|].
  cbn [password_entries sessions master_password with_sessions].
  split; [|split; [reflexivity|split; [reflexivity|]]].
  - intros s. rewrite filter_In, negb_true_iff, Z.leb_gt. reflexivity.
  - intros token. rewrite !verifySession_run.
    cbn [fst sessions now with_sessions].
    rewrite filter_filter_implied; [reflexivity|].
    intros s. apply live_not_expired.
Qed.

(** The world after the hourly cleanup. *)
Lemma hourly_cleanup_run (w : World) :
  Storage.hourly_cleanup w
  = (inr tt,
     mkWorld (master_password w)
       (filter (fun s => negb (s_expiresAt s <=? now w)%Z) (sessions w))
       (filter (fun e => negb (e_expiresAt e <=? now w)%Z) (password_entries w))
       (now w) (entropy w) (drawn w)).
Proof. reflexivity. Qed.

(** [getAllPasswordEntries] in one step. *)
Lemma getAllPasswordEntries_run (token : string) (w : World) :
  DatabaseStorage.getAllPasswordEntries token w
  = match firstn 1 (filter (live_session token (now w)) (sessions w)) with
    | [] => (inl InvalidSession, w)
    | session :: _ =>
        match Crypto.decryptMasterPasswordFromSession
                (encryptedMasterPassword session) (sessionSalt session) token with
        | inl f => (inl f, w)
        | inr secret =>
            (inr (DatabaseStorage.decrypt_each secret
                    (newest_first
                       (filter (listed_entry (now w)) (password_entries w)))), w)
        end
    end.
Proof.
  unfold DatabaseStorage.getAllPasswordEntries, DatabaseStorage.verifySession,
    DatabaseStorage.getMasterPasswordFromSession, bind, get_world, ret, throw, lift.
  destruct (firstn 1 (filter (live_session token (now w)) (sessions w)))
    as [|s l] eqn:F; [reflexivity|].
  cbn [length Nat.ltb Nat.leb negb]. cbv beta iota. rewrite F.
  destruct (Crypto.decryptMasterPasswordFromSession _ _ _); reflexivity.
Qed.

(** What [getAllPasswordEntries] answers depends on the live sessions of
    the token and on the listed entries only. *)
Lemma getAllPasswordEntries_answer (token : string) (w1 w2 : World) :
  filter (live_session token (now w1)) (sessions w1)
  = filter (live_session token (now w2)) (sessions w2) ->
  filter (listed_entry (now w1)) (password_entries w1)
  = filter (listed_entry (now w2)) (password_entries w2) ->
  fst (DatabaseStorage.getAllPasswordEntries token w1)
  = fst (DatabaseStorage.getAllPasswordEntries token w2).
Proof.
  intros Hs He. rewrite !getAllPasswordEntries_run, Hs, He.
  destruct (firstn 1 _) as [|s l]; [reflexivity|].
  destruct (Crypto.decryptMasterPasswordFromSession _ _ _); reflexivity.
Qed.

(** The hourly cleanup is not observable through the session and entry
    methods: after it [verifySession] and [getAllPasswordEntries] answer
    for every token what they answered before, no row that is left has
    expired, and the master secret is untouched. *)
Theorem hourly_cleanup_unobservable (w : World) :
  exists w',
    Storage.hourly_cleanup w = (inr tt, w')
    /\ (forall token,
          fst (DatabaseStorage.verifySession token w')
          = fst (DatabaseStorage.verifySession token w)
          /\ fst (DatabaseStorage.getAllPasswordEntries token w')
             = fst (DatabaseStorage.getAllPasswordEntries token w))
    /\ (forall s, In s (sessions w') -> (now w < s_expiresAt s)%Z)
    /\ (forall e, In e (password_entries w') -> (now w < e_expiresAt e)%Z)
    /\ master_password w' = master_password w.
Proof.
  eexists. split; [apply hourly_cleanup_run|].
  cbn [sessions password_entries master_password].
  assert (S : forall token,
            filter (live_session token (now w))
              (filter (fun s => negb (s_expiresAt s <=? now w)%Z) (sessions w))
            = filter (live_session token (now w)) (sessions w)).
  { intros token. apply filter_filter_implied. intros s. apply live_not_expired. }
  assert (E : filter (listed_entry (now w))
                (filter (fun e => negb (e_expiresAt e <=? now w)%Z) (password_entries w))
              = filter (listed_entry (now w)) (password_entries w)).
  { apply filter_filter_implied. intros e. apply listed_not_expired. }
  split; [|split; [|split; [|reflexivity]]].
  - intros token. split.
    + rewrite !verifySession_run. cbn [fst sessions now]. now rewrite S.
    + apply getAllPasswordEntries_answer; cbn [now sessions password_entries];
        [apply S | apply E].
  - intros s H. apply filter_In in H as [_ H].
    now apply negb_true_iff, Z.leb_gt in H.
  - intros e H. apply filter_In in H as [_ H].
    now apply negb_true_iff, Z.leb_gt in H.
Qed.

Lemma other_token_still_live (token other : string) (time : Z) (l : list Session) :
  other <> token ->
  filter (live_session other time) (map (invalidate token) l)
  = filter (live_session other time) l.
Proof.
  intros H. induction l as [|s l IH]; [reflexivity|].
  cbn [map filter]. rewrite IH. unfold invalidate.
  destruct (String.eqb_spec (sessionToken s) token) as [E|_]; [|reflexivity].
  unfold live_session. cbn [set_isActive sessionToken].
  destruct (String.eqb_spec (sessionToken s) other) as [E'|_]; [congruence|].
  reflexivity.
Qed.

Lemma invalidate_twice (token : string) (l : list Session) :
  map (invalidate token) (map (invalidate token) l) = map (invalidate token) l.
Proof.
  rewrite map_map. apply map_ext. intros s. unfold invalidate.
  destruct (String.eqb (sessionToken s) token) eqn:E.
  - cbn [set_isActive sessionToken]. rewrite E. reflexivity.
  - rewrite E. reflexivity.
Qed.

(** [invalidateSession] ends the sessions of its token and no other: the
    answer of [verifySession] for any other token is what it was, entries
    and master secret are untouched, and a second logout changes nothing. *)
Theorem logout_is_local (token other : string) (w : World) :
  other <> token ->
  exists w',
    DatabaseStorage.invalidateSession token w = (inr tt, w')
    /\ fst (DatabaseStorage.verifySession other w')
       = fst (DatabaseStorage.verifySession other w)
    /\ fst (DatabaseStorage.verifySession token w') = inr false
    /\ password_entries w' = password_entries w
    /\ master_password w' = master_password w
    /\ DatabaseStorage.invalidateSession token w' = (inr tt, w').
Proof.
  intros H. eexists. split; [reflexivity|].
  cbn [password_entries master_password with_sessions].
  rewrite !verifySession_run. cbn [fst sessions now with_sessions].
  rewrite (other_token_still_live _ _ _ _ H), invalidated_not_live.
  repeat split.
  unfold DatabaseStorage.invalidateSession, with_sessions.
  cbn [sessions master_password password_entries now entropy drawn].
  now rewrite invalidate_twice.
Qed.

(** Without a master secret [verifyMasterPassword] answers [false] to
    everything and [checkMasterPasswordExists] answers [false]; after
    [setupMasterPassword] on such a store one row is there,
    [checkMasterPasswordExists] answers [true] and [verifyMasterPassword]
    accepts the secret that was configured. *)
Theorem configured_secret_verifies (secret candidate : string) (w : World) :
  bcrypt_accepts R ->
  master_password w = [] ->
  DatabaseStorage.verifyMasterPassword candidate w = (inr false, w)
  /\ Storage.checkMasterPasswordExists w = (inr false, w)
  /\ exists r w1,
       DatabaseStorage.setupMasterPassword secret w = (inr r, w1)
       /\ master_password w1 = [r]
       /\ Storage.checkMasterPasswordExists w1 = (inr true, w1)
       /\ DatabaseStorage.verifyMasterPassword secret w1 = (inr true, w1).
Proof.
  intros A E.
  unfold DatabaseStorage.verifyMasterPassword, Storage.checkMasterPasswordExists,
    DatabaseStorage.getMasterPassword, bind, get_world, ret.
  rewrite E. cbn [firstn nth_error]. split; [reflexivity|]. split; [reflexivity|].
  destruct (setup_run secret w E) as [r [w1 [Hrun [Hmp [[rounds [rnd Hh]] _]]]]].
  exists r, w1. split; [exact Hrun|]. split; [exact Hmp|].
  rewrite Hmp. cbn [firstn nth_error].
  unfold Crypto.verifyMasterPassword. rewrite Hh, A. auto.
Qed.

End Cleanup.

(** * Creating and listing entries *)

Section EntryFacts.
Context {R : NodeRuntime}.

(** [createPasswordEntry] in one step: the identifier is drawn first, then
    salt and IV. *)
Lemma createPasswordEntry_run (data : DecryptedData) (token : string) (w : World) :
  DatabaseStorage.createPasswordEntry data token w
  = match firstn 1 (filter (live_session token (now w)) (sessions w)) with
    | [] => (inl InvalidSession, w)
    | session :: _ =>
        match Crypto.decryptMasterPasswordFromSession
                (encryptedMasterPassword session) (sessionSalt session) token with
        | inl f => (inl f, w)
        | inr secret =>
            let id := uuid_format (map (entropy w) (seq (drawn w) 16)) in
            let w1 := after_draw 16 w in
            let w2 := after_draw Crypto.IV_LENGTH (after_draw Crypto.SALT_LENGTH w1) in
            match Crypto.seal_entry (toBase64 (salt_draw w1)) (toBase64 (iv_draw w1))
                    (toJS data) secret with
            | inl f => (inl f, w2)
            | inr encrypted =>
                let entry :=
                  mkEntry id (ed_encryptedData encrypted) (ed_salt encrypted)
                          (ed_iv encrypted) (ed_authTag encrypted) (now w)
                          (now w + DatabaseStorage.ENTRY_LIFETIME)%Z false in
                if existsb (fun x => String.eqb (e_id x) id) (password_entries w)
                then (inl (UniqueViolation "password_entries"), w2)
                else (inr entry,
                      with_password_entries (password_entries w ++ [entry]) w2)
            end
        end
    end.
Proof.
  unfold DatabaseStorage.createPasswordEntry, DatabaseStorage.verifySession,
    DatabaseStorage.getMasterPasswordFromSession, bind, get_world, ret, throw, lift.
  destruct (firstn 1 (filter (live_session token (now w)) (sessions w)))
    as [|s l] eqn:F; [reflexivity|].
  cbn [length Nat.ltb Nat.leb negb]. cbv beta iota. rewrite F.
  destruct (Crypto.decryptMasterPasswordFromSession _ _ _) as [f|secret];
    [reflexivity|].
  unfold randomUUID, randomBytes, new_Date, bind, ret.
  rewrite encryptPasswordEntry_run.
  cbv zeta. cbn [now after_draw].
  destruct (Crypto.seal_entry _ _ _ _) as [f|encrypted]; [reflexivity|].
  unfold insert_password_entry.
  cbn [password_entries after_draw e_id].
  destruct (existsb _ (password_entries w)); reflexivity.
Qed.

(** What a successful [createPasswordEntry] did. *)
Lemma createPasswordEntry_inserted (data : DecryptedData) (token : string)
    (entry : PasswordEntry) (w w' : World) :
  DatabaseStorage.createPasswordEntry data token w = (inr entry, w') ->
  exists session rest secret salt_bytes iv_bytes,
    filter (live_session token (now w)) (sessions w) = session :: rest
    /\ Crypto.decryptMasterPasswordFromSession
         (encryptedMasterPassword session) (sessionSalt session) token = inr secret
    /\ iv_bytes <> []
    /\ Crypto.seal_entry (toBase64 salt_bytes) (toBase64 iv_bytes) (toJS data) secret
       = inr (mkEncrypted (encryptedData entry) (salt entry) (iv entry) (authTag entry))
    /\ e_createdAt entry = now w
    /\ e_expiresAt entry = (now w + DatabaseStorage.ENTRY_LIFETIME)%Z
    /\ isDeleted entry = false
    /\ (forall x, In x (password_entries w) -> e_id x <> e_id entry)
    /\ password_entries w' = password_entries w ++ [entry]
    /\ sessions w' = sessions w
    /\ master_password w' = master_password w
    /\ now w' = now w.
Proof.
  rewrite createPasswordEntry_run.
  destruct (filter (live_session token (now w)) (sessions w)) as [|s l] eqn:F;
    [discriminate|].
  cbn [firstn].
  destruct (Crypto.decryptMasterPasswordFromSession _ _ _) as [f|secret] eqn:D;
    [discriminate|].
  cbv zeta.
  destruct (Crypto.seal_entry _ _ _ _) as [f|encrypted] eqn:E; [discriminate|].
  destruct (existsb _ (password_entries w)) eqn:X; [discriminate|].
  intros H. injection H as <- <-.
  exists s, l, secret, (salt_draw (after_draw 16 w)), (iv_draw (after_draw 16 w)).
  cbn [encryptedData salt iv authTag e_createdAt e_expiresAt isDeleted e_id
       password_entries sessions master_password now with_password_entries after_draw].
  destruct encrypted as [c st i t]. cbn [ed_encryptedData ed_salt ed_iv ed_authTag].
  repeat split; try reflexivity; try assumption.
  - apply iv_draw_nonempty.
  - intros x Hin Hx. rewrite <- not_true_iff_false in X. apply X.
    apply existsb_exists. exists x. split; [exact Hin|].
    rewrite Hx. apply String.eqb_refl.
Qed.

(** A row [createPasswordEntry] stored is not deleted, carries the time of
    its creation, expires twenty-four hours later and is appended to the
    table with a fresh identifier; sessions and master secret are not
    touched.  As long as it is not deleted, the select of
    [getAllPasswordEntries] takes it exactly while the time is before
    [expiresAt]. *)
Theorem entry_kept_for_a_day (data : DecryptedData) (token : string)
    (entry : PasswordEntry) (w w' : World) (time : Z) :
  DatabaseStorage.createPasswordEntry data token w = (inr entry, w') ->
  password_entries w' = password_entries w ++ [entry]
  /\ (forall x, In x (password_entries w) -> e_id x <> e_id entry)
  /\ isDeleted entry = false
  /\ e_createdAt entry = now w
  /\ e_expiresAt entry = (now w + 86400000)%Z
  /\ sessions w' = sessions w
  /\ master_password w' = master_password w
  /\ listed_entry time entry = (time <? now w + 86400000)%Z.
Proof.
  intros H.
  apply createPasswordEntry_inserted in H
    as [s [l [secret [sb [ib [_ [_ [_ [_ [Hc [He [Hd [Hf [Hp [Hs [Hm _]]]]]]]]]]]]]]]].
  repeat split; try assumption.
  unfold listed_entry. rewrite Hd, He. reflexivity.
Qed.

Lemma In_insert_newest_first (e x : PasswordEntry) (l : list PasswordEntry) :
  In x (insert_newest_first e l) <-> x = e \/ In x l.
Proof.
  induction l as [|y l IH]; cbn [insert_newest_first In].
  - intuition congruence.
  - destruct (e_createdAt y <? e_createdAt e)%Z; cbn [In]; [intuition congruence|].
    rewrite IH. intuition congruence.
Qed.

Lemma In_newest_first (x : PasswordEntry) (l : list PasswordEntry) :
  In x (newest_first l) <-> In x l.
Proof.
  induction l as [|y l IH]; cbn [newest_first fold_right In]; [reflexivity|].
  rewrite In_insert_newest_first. fold (newest_first l). rewrite IH.
  intuition congruence.
Qed.

Lemma decrypt_each_In (secret : string) (e : PasswordEntry) (v : JSValue)
    (l : list PasswordEntry) :
  In e l ->
  Crypto.decryptPasswordEntry
    (mkEncrypted (encryptedData e) (salt e) (iv e) (authTag e)) secret = inr v ->
  In (DatabaseStorage.entryData_of v) (DatabaseStorage.decrypt_each secret l).
Proof.
  intros Hin D. induction l as [|y l IH]; [contradiction|].
  cbn [DatabaseStorage.decrypt_each]. cbn [In] in Hin. destruct Hin as [Hy|Hin].
  - subst y. rewrite D. now left.
  - destruct (Crypto.decryptPasswordEntry
                (mkEncrypted (encryptedData y) (salt y) (iv y) (authTag y)) secret);
      [|apply in_cons]; now apply IH.
Qed.

Lemma entryData_of_toJS (data : DecryptedData) :
  DatabaseStorage.entryData_of (toJS data) = toJS data.
Proof. reflexivity. Qed.

(** After [createPasswordEntry] has returned, [getAllPasswordEntries] with
    the same token returns a list that holds the payload as it was given;
    when the table was empty before, the list is that payload alone. *)
Theorem created_entry_is_listed (data : DecryptedData) (token : string)
    (entry : PasswordEntry) (w w' : World) :
  base64_roundtrip R -> pbkdf2_length R -> gcm_roundtrip R -> json_roundtrip R ->
  DatabaseStorage.createPasswordEntry data token w = (inr entry, w') ->
  exists listed,
    DatabaseStorage.getAllPasswordEntries token w' = (inr listed, w')
    /\ In (toJS data) listed
    /\ (password_entries w = [] -> listed = [toJS data]).
Proof.
  intros B L G J H.
  apply createPasswordEntry_inserted in H
    as [s [l [secret [sb [ib [F [D [Hiv [E [Hc [He [Hd [_ [Hp [Hs [_ Hn]]]]]]]]]]]]]]]].
  destruct (open_sealed_value (toJS data) sb ib secret secret B L G J Hiv
              (toJS_plain data) eq_refl) as [env [E' O]].
  rewrite E in E'. injection E' as <-.
  rewrite toJS_basic_shape in O.
  assert (Hl : listed_entry (now w) entry = true).
  { unfold listed_entry. rewrite Hd, He. cbn [Bool.eqb andb].
    apply Z.ltb_lt. unfold DatabaseStorage.ENTRY_LIFETIME. lia. }
  rewrite getAllPasswordEntries_run, Hs, Hn, F. cbn [firstn]. rewrite D.
  eexists. split; [reflexivity|]. split.
  - rewrite <- entryData_of_toJS. apply decrypt_each_In with (e := entry); [|exact O].
    apply In_newest_first, filter_In. split; [|exact Hl].
    rewrite Hp. apply in_or_app. right. now left.
  - intros Hempty. rewrite Hp, Hempty. cbn [app filter]. rewrite Hl.
    cbn [newest_first fold_right insert_newest_first DatabaseStorage.decrypt_each].
    rewrite O. reflexivity.
Qed.

End EntryFacts.

(** * The user table and the password generator *)

Section UserFacts.

Lemma first_match_appended {A : Type} (p : A -> bool) (l : list A) (x : A) :
  nth_error (firstn 1 (filter p (l ++ [x]))) 0
  = match nth_error (firstn 1 (filter p l)) 0 with
    | Some y => Some y
    | None => if p x then Some x else None
    end.
Proof.
  rewrite filter_app. destruct (filter p l) as [|y r]; cbn [app firstn nth_error filter].
  - destruct (p x); reflexivity.
  - reflexivity.
Qed.

Lemma no_match_no_first {A : Type} (p : A -> bool) (l : list A) :
  existsb p l = false -> nth_error (firstn 1 (filter p l)) 0 = None.
Proof.
  induction l as [|y l IH]; cbn [existsb filter]; [reflexivity|].
  intros H. apply orb_false_iff in H as [Hy Hl]. rewrite Hy. now apply IH.
Qed.

Lemma createUser_run (insertUser : Storage.InsertUser) (users : list Storage.User)
    (w : World) :
  Storage.createUser insertUser users w
  = let user :=
      Storage.mkUser (uuid_format (map (entropy w) (seq (drawn w) 16)))
        (Storage.new_username insertUser) (Storage.new_password insertUser) in
    match Storage.insert_user user users with
    | inl f => (inl f, after_draw 16 w)
    | inr inserted => (inr (user, inserted), after_draw 16 w)
    end.
Proof.
  unfold Storage.createUser, randomUUID, randomBytes, bind, ret, lift. cbv zeta.
  destruct (Storage.insert_user _ users); reflexivity.
Qed.

(** A user [createUser] returned carries the name and the password it was
    given, as they were given, is appended to the table, and is the one
    [getUser] finds under its identifier and [getUserByUsername] under its
    name; every other lookup answers as before. *)
Theorem created_user_is_found (insertUser : Storage.InsertUser)
    (users inserted : list Storage.User) (user : Storage.User) (w w' : World) :
  Storage.createUser insertUser users w = (inr (user, inserted), w') ->
  Storage.username user = Storage.new_username insertUser
  /\ Storage.password user = Storage.new_password insertUser
  /\ inserted = users ++ [user]
  /\ Storage.getUser (Storage.u_id user) inserted = Some user
  /\ Storage.getUserByUsername (Storage.new_username insertUser) inserted = Some user
  /\ (forall id, id <> Storage.u_id user ->
        Storage.getUser id inserted = Storage.getUser id users)
  /\ (forall other, other <> Storage.username user ->
        Storage.getUserByUsername other inserted
        = Storage.getUserByUsername other users).
Proof.
  rewrite createUser_run. cbv zeta. unfold Storage.insert_user.
  match goal with |- context [existsb ?p users] =>
    destruct (existsb p users) eqn:X end; [discriminate|].
  intros H. injection H as <- <- _.
  cbn [Storage.username Storage.password Storage.u_id].
  set (id := uuid_format _) in *.
  assert (Xid : existsb (fun u => String.eqb (Storage.u_id u) id) users = false).
  { rewrite <- not_true_iff_false in *. intros E. apply X.
    apply existsb_exists in E as [x [Hin Hx]]. apply existsb_exists.
    exists x. split; [exact Hin|]. cbn [Storage.u_id]. now rewrite Hx. }
  assert (Xn : existsb (fun u => String.eqb (Storage.username u)
                                   (Storage.new_username insertUser)) users = false).
  { rewrite <- not_true_iff_false in *. intros E. apply X.
    apply existsb_exists in E as [x [Hin Hx]]. apply existsb_exists.
    exists x. split; [exact Hin|]. cbn [Storage.username].
    rewrite Hx. apply orb_true_r. }
  unfold Storage.getUser, Storage.getUserByUsername.
  repeat split.
  - rewrite first_match_appended, (no_match_no_first _ _ Xid).
    cbn [Storage.u_id]. now rewrite String.eqb_refl.
  - rewrite first_match_appended, (no_match_no_first _ _ Xn).
    cbn [Storage.username]. now rewrite String.eqb_refl.
  - intros other Ho. rewrite first_match_appended. cbn [Storage.u_id].
    apply not_eq_sym, String.eqb_neq in Ho. rewrite Ho.
    destruct (nth_error _ 0); reflexivity.
  - intros other Ho. rewrite first_match_appended. cbn [Storage.username].
    apply not_eq_sym, String.eqb_neq in Ho. rewrite Ho.
    destruct (nth_error _ 0); reflexivity.
Qed.

(** [createUser] with a name that a user of the table has throws on the
    unique key and leaves the table as it is; the identifier it drew is
    spent. *)
Theorem taken_username_rejected (insertUser : Storage.InsertUser)
    (users : list Storage.User) (w : World) :
  Storage.getUserByUsername (Storage.new_username insertUser) users <> None ->
  Storage.createUser insertUser users w
  = (inl (UniqueViolation "users"), after_draw 16 w).
Proof.
  intros H. rewrite createUser_run. cbv zeta. unfold Storage.insert_user.
  match goal with |- context [existsb ?p users] =>
    destruct (existsb p users) eqn:X end; [reflexivity|].
  exfalso. apply H. unfold Storage.getUserByUsername. apply no_match_no_first.
  rewrite <- not_true_iff_false in *. intros E. apply X.
  apply existsb_exists in E as [x [Hin Hx]]. apply existsb_exists.
  exists x. split; [exact Hin|]. cbn [Storage.username].
  rewrite Hx. apply orb_true_r.
Qed.

End UserFacts.

Section GeneratorFacts.
Context {G : NodeRandomInt}.

Lemma get_In (n : nat) (s : string) (c : ascii) :
  String.get n s = Some c -> In c (list_ascii_of_string s).
Proof.
  revert n. induction s as [|a s IH]; intros n; cbn [String.get]; [discriminate|].
  destruct n as [|n]; cbn [list_ascii_of_string In].
  - intros H. injection H as ->. now left.
  - intros H. right. exact (IH n H).
Qed.

Lemma get_below (n : nat) (s : string) :
  (n < String.length s)%nat -> exists c, String.get n s = Some c.
Proof.
  revert n. induction s as [|a s IH]; intros n; cbn [String.length String.get]; [lia|].
  destruct n as [|n]; [eauto|]. intros H. apply IH. lia.
Qed.

Lemma charset_at_in_range (i : Z) :
  (0 <= i < Z.of_nat (String.length Generator.charset))%Z ->
  exists c, Generator.charset_at i = String c EmptyString
            /\ In c (list_ascii_of_string Generator.charset).
Proof.
  intros [Hl Hu]. unfold Generator.charset_at.
  destruct (i <? 0)%Z eqn:N; [apply Z.ltb_lt in N; lia|].
  destruct (get_below (Z.to_nat i) Generator.charset ltac:(lia)) as [c Hc].
  rewrite Hc. exists c. split; [reflexivity|]. exact (get_In _ _ _ Hc).
Qed.

Lemma list_ascii_app (s t : string) :
  list_ascii_of_string (s ++ t) = list_ascii_of_string s ++ list_ascii_of_string t.
Proof. induction s as [|a s IH]; cbn; [reflexivity | now rewrite IH]. Qed.

Lemma append_empty (s : string) : (s ++ EmptyString)%string = s.
Proof. induction s as [|a s IH]; cbn; [reflexivity | now rewrite IH]. Qed.

Lemma append_assoc (s t u : string) : ((s ++ t) ++ u)%string = (s ++ t ++ u)%string.
Proof. induction s as [|a s IH]; cbn; [reflexivity | now rewrite IH]. Qed.

Lemma append_random_shape (turns : nat) (so_far : string) (w : World) :
  randomInt_in_range G ->
  exists added w',
    Generator.append_random turns so_far w = (inr (so_far ++ added)%string, w')
    /\ String.length added = turns
    /\ Forall (fun c => In c (list_ascii_of_string Generator.charset))
              (list_ascii_of_string added).
Proof.
  intros H. revert so_far w. induction turns as [|k IH]; intros so_far w.
  - exists EmptyString, w. cbn [Generator.append_random].
    unfold ret. rewrite append_empty. repeat split. constructor.
  - cbn [Generator.append_random]. unfold bind.
    destruct (H 0%Z (Z.of_nat (String.length Generator.charset)) w
                ltac:(cbn; lia)) as [n [w1 [E Hn]]].
    rewrite E.
    destruct (charset_at_in_range n Hn) as [c [Hc Hin]].
    destruct (IH (so_far ++ Generator.charset_at n)%string w1)
      as [added [w' [Hrun [Hlen Hall]]]].
    exists (String c added), w'. rewrite Hrun, Hc.
    split; [|split].
    + rewrite append_assoc. reflexivity.
    + cbn [String.length]. now rewrite Hlen.
    + cbn [list_ascii_of_string]. constructor; assumption.
Qed.

(** With [randomInt] answering in its range, [generateSecurePassword(n)]
    returns a text of exactly [n] characters, each one of the seventy
    characters of the charset; for [n] zero or negative it is the empty
    text. *)
Theorem generated_password_shape (length : Z) (w : World) :
  randomInt_in_range G ->
  exists generated w',
    Generator.generateSecurePassword length w = (inr generated, w')
    /\ String.length generated = Z.to_nat length
    /\ Forall (fun c => In c (list_ascii_of_string Generator.charset))
              (list_ascii_of_string generated)
    /\ ((length <= 0)%Z -> generated = EmptyString)
    /\ String.length Generator.charset = 70.
Proof.
  intros H. unfold Generator.generateSecurePassword.
  destruct (append_random_shape (Z.to_nat length) EmptyString w H)
    as [added [w' [Hrun [Hlen Hall]]]].
  exists added, w'. cbn [String.append] in Hrun.
  repeat split; try assumption.
  intros Hneg. destruct added as [|c r]; [reflexivity|].
  cbn [String.length] in Hlen. lia.
Qed.

End GeneratorFacts.

(** * The routes *)

Section SchemaFacts.

Lemma string_min_accepts (minimum : nat) (message : string) (x : option JSValue) :
  Zod.issues (Zod.string_min minimum message) x = [] <->
  exists t, x = Some (JSString t) /\ (minimum <= js_length t)%nat.
Proof.
  cbn [Zod.issues]. split.
  - destruct x as [[| | |t| |]|]; try discriminate.
    destruct (js_length t <? minimum)%nat eqn:E; [discriminate|].
    apply Nat.ltb_ge in E. eauto.
  - intros [t [-> H]]. apply Nat.ltb_ge in H. now rewrite H.
Qed.

Lemma boolean_accepts (x : option JSValue) :
  Zod.issues Zod.boolean x = [] <-> exists b, x = Some (JSBool b).
Proof.
  cbn [Zod.issues]. split.
  - destruct x as [[|b| | | |]|]; try discriminate. eauto.
  - intros [b ->]. reflexivity.
Qed.

Lemma object_issues (shape : list (string * Zod.Schema)) (props : list (string * JSValue)) :
  Zod.issues (Zod.object shape) (Some (JSObject props))
  = flat_map (fun ks => Zod.issues (snd ks) (assoc (fst ks) props)) shape.
Proof.
  cbn [Zod.issues]. induction shape as [|[k s] r IH]; [reflexivity|].
  cbn [flat_map fst snd]. now rewrite IH.
Qed.

Lemma object_accepts (shape : list (string * Zod.Schema)) (x : option JSValue) :
  Zod.issues (Zod.object shape) x = [] <->
  exists props,
    x = Some (JSObject props)
    /\ Forall (fun ks => Zod.issues (snd ks) (assoc (fst ks) props) = []) shape.
Proof.
  split.
  - destruct x as [[| | | | |props]|]; try discriminate.
    rewrite object_issues. intros H. exists props. split; [reflexivity|].
    induction shape as [|ks r IH]; [constructor|].
    cbn [flat_map] in H. apply app_eq_nil in H as [H1 H2].
    constructor; [exact H1 | exact (IH H2)].
  - intros [props [-> H]]. rewrite object_issues.
    induction H as [|ks r H1 _ IH]; [reflexivity|].
    cbn [flat_map]. now rewrite H1, IH.
Qed.

Lemma array_accepts (element : Zod.Schema) (minimum : nat) (message : string)
    (x : option JSValue) :
  Zod.issues (Zod.array_min element minimum message) x = [] <->
  exists items,
    x = Some (JSArray items)
    /\ (minimum <= length items)%nat
    /\ Forall (fun v => Zod.issues element (Some v) = []) items.
Proof.
  cbn [Zod.issues]. split.
  - destruct x as [[| | | |items|]|]; try discriminate.
    intros H. apply app_eq_nil in H as [H1 H2]. exists items.
    split; [reflexivity|]. split.
    + destruct (length items <? minimum)%nat eqn:E; [discriminate|].
      now apply Nat.ltb_ge in E.
    + clear H1. induction items as [|v r IH]; [constructor|].
      cbn [flat_map] in H2. apply app_eq_nil in H2 as [Hv Hr].
      constructor; [exact Hv | exact (IH Hr)].
  - intros [items [-> [Hmin H]]]. apply Nat.ltb_ge in Hmin. rewrite Hmin.
    cbv iota. cbn [app]. clear Hmin. induction H as [|v r Hv _ IH]; cbn [flat_map]; [reflexivity|].
    now rewrite Hv, IH.
Qed.

(** What [field_schema] accepts, and what it gives out. *)
Lemma field_accepted (v : JSValue) :
  Zod.issues field_schema (Some v) = [] <->
  exists f, reads_as_field v f
            /\ (1 <= js_length (name f))%nat /\ (1 <= js_length (value f))%nat.
Proof.
  unfold field_schema. rewrite object_accepts. split.
  - intros [props [E H]]. injection E as ->.
    inversion_clear H as [|? ? Hn H']. inversion_clear H' as [|? ? Hv H''].
    inversion_clear H'' as [|? ? Hb _]. cbn [fst snd] in *.
    apply string_min_accepts in Hn as [n [En Ln]].
    apply string_min_accepts in Hv as [x [Ex Lx]].
    apply boolean_accepts in Hb as [b Eb].
    exists (mkField n x b). unfold reads_as_field. cbn [get_prop name value isPassword].
    auto.
  - intros [f [[Hn [Hv Hb]] [Ln Lv]]].
    destruct v as [| | | | |props]; try discriminate.
    cbn [get_prop] in *. exists props. split; [reflexivity|].
    repeat constructor; cbn [fst snd].
    + apply string_min_accepts. eauto.
    + apply string_min_accepts. eauto.
    + apply boolean_accepts. eauto.
Qed.

Lemma field_output (v : JSValue) (f : PasswordField) :
  reads_as_field v f -> Zod.output field_schema v = field_toJS f.
Proof.
  intros [Hn [Hv Hb]]. destruct v as [| | | | |props]; try discriminate.
  cbn [get_prop] in *. unfold field_schema. cbn [Zod.output].
  rewrite Hn, Hv, Hb. reflexivity.
Qed.

Lemma fields_accepted (items : list JSValue) :
  Forall (fun v => Zod.issues field_schema (Some v) = []) items <->
  exists fs, Forall2 reads_as_field items fs
             /\ Forall (fun f => (1 <= js_length (name f))%nat
                                 /\ (1 <= js_length (value f))%nat) fs.
Proof.
  split.
  - induction 1 as [|v r Hv _ [fs [H2 Hc]]].
    + exists []. split; constructor.
    + apply field_accepted in Hv as [f [Hr Hl]].
      exists (f :: fs). split; constructor; assumption.
  - intros [fs [H2 Hc]]. revert Hc.
    induction H2 as [|v f r fs Hr _ IH]; intros Hc; [constructor|].
    inversion_clear Hc as [|? ? Hl Hc']. constructor; [|exact (IH Hc')].
    apply field_accepted. eauto.
Qed.

Lemma fields_output (items : list JSValue) (fs : list PasswordField) :
  Forall2 reads_as_field items fs ->
  map (Zod.output field_schema) items = map field_toJS fs.
Proof.
  induction 1 as [|v f r fs Hr _ IH]; [reflexivity|].
  cbn [map]. now rewrite (field_output _ _ Hr), IH.
Qed.

Lemma entry_accepted (x : option JSValue) :
  Zod.issues entry_schema x = [] <->
  exists e d, x = Some e /\ reads_as_entry e d /\ complete_entry d.
Proof.
  unfold entry_schema. rewrite object_accepts. split.
  - intros [props [-> H]].
    inversion_clear H as [|? ? Ht H']. inversion_clear H' as [|? ? Hf _].
    cbn [fst snd] in *.
    apply string_min_accepts in Ht as [t [Et Lt]].
    apply array_accepts in Hf as [items [Ei [Lmin Hall]]].
    apply fields_accepted in Hall as [fs [H2 Hc]].
    exists (JSObject props), (mkData t fs). split; [reflexivity|].
    unfold reads_as_entry, complete_entry. cbn [get_prop title fields].
    split; [eauto|]. split; [exact Lt|]. split; [|exact Hc].
    intros ->. inversion H2. subst items. cbn in Lmin. lia.
  - intros [e [d [-> [[Ht [items [Hf H2]]] [Lt [Hne Hc]]]]]].
    destruct e as [| | | | |props]; try discriminate.
    cbn [get_prop] in *. exists props. split; [reflexivity|].
    repeat constructor; cbn [fst snd].
    + apply string_min_accepts. eauto.
    + apply array_accepts. exists items. split; [exact Hf|]. split.
      * destruct H2; [congruence | cbn; lia].
      * apply fields_accepted. eauto.
Qed.

Lemma entry_output (e : JSValue) (d : DecryptedData) :
  reads_as_entry e d -> Zod.output entry_schema e = toJS d.
Proof.
  intros [Ht [items [Hf H2]]]. destruct e as [| | | | |props]; try discriminate.
  cbn [get_prop] in *. unfold entry_schema.
  cbn [Zod.output]. rewrite Ht, Hf. cbn [Zod.output].
  fold field_schema. rewrite (fields_output _ _ H2). reflexivity.
Qed.

Lemma safeParse_accepts (s : Zod.Schema) (body data : JSValue) :
  Zod.safeParse s body = inr data <->
  Zod.issues s (Some body) = [] /\ data = Zod.output s body.
Proof.
  unfold Zod.safeParse. destruct (Zod.issues s (Some body)); split.
  - intros H. injection H as <-. auto.
  - intros [_ ->]. reflexivity.
  - discriminate.
  - intros [H _]. discriminate.
Qed.

Lemma safeParse_rejects (s : Zod.Schema) (body : JSValue) :
  Zod.issues s (Some body) <> [] ->
  exists errors, Zod.safeParse s body = inl errors.
Proof.
  unfold Zod.safeParse. destruct (Zod.issues s (Some body)); [congruence|eauto].
Qed.

(** What [passwordEntryCreateSchema] accepts, and what it gives out. *)
Lemma entry_schema_accepts (body data : JSValue) :
  Zod.safeParse Routes.passwordEntryCreateSchema body = inr data <->
  exists token e d,
    get_prop body "sessionToken" = Some (JSString token)
    /\ (1 <= js_length token)%nat
    /\ get_prop body "entry" = Some e
    /\ reads_as_entry e d
    /\ complete_entry d
    /\ data = JSObject [("sessionToken", JSString token); ("entry", toJS d)].
Proof.
  rewrite safeParse_accepts.
  change Routes.passwordEntryCreateSchema
    with (Zod.object [("sessionToken", Zod.string_min 1 "Session token is required");
                      ("entry", entry_schema)]).
  rewrite object_accepts. split.
  - intros [[props [E H]] ->]. injection E as ->.
    inversion_clear H as [|? ? Ht H']. inversion_clear H' as [|? ? He _].
    cbn [fst snd] in *.
    apply string_min_accepts in Ht as [token [Et Lt]].
    apply entry_accepted in He as [e [d [Ee [Hr Hc]]]].
    exists token, e, d. cbn [get_prop].
    split; [exact Et|]. split; [exact Lt|]. split; [exact Ee|].
    split; [exact Hr|]. split; [exact Hc|].
    cbn [Zod.output]. rewrite Et, Ee. now rewrite (entry_output _ _ Hr).
  - intros [token [e [d [Ht [Lt [He [Hr [Hc ->]]]]]]]].
    destruct body as [| | | | |props]; try discriminate. cbn [get_prop] in *.
    split.
    + exists props. split; [reflexivity|]. repeat constructor; cbn [fst snd].
      * apply string_min_accepts. eauto.
      * apply entry_accepted. eauto.
    + cbn [Zod.output]. rewrite Ht, He. now rewrite (entry_output _ _ Hr).
Qed.

Lemma as_field_toJS (f : PasswordField) : Routes.as_field (field_toJS f) = f.
Proof. destruct f. reflexivity. Qed.

Lemma as_entry_toJS (d : DecryptedData) : Routes.as_entry (Some (toJS d)) = d.
Proof.
  destruct d as [t fs]. unfold Routes.as_entry, toJS.
  cbn [get_prop assoc String.eqb Ascii.eqb Bool.eqb Routes.text title fields].
  f_equal. rewrite map_map. induction fs as [|f fs IH]; [reflexivity|].
  cbn [map]. now rewrite as_field_toJS, IH.
Qed.

(** [passwordEntryCreateSchema] accepts a body exactly when its
    [sessionToken] is a string that is not empty and its [entry] reads as a
    payload with a title, at least one field, and a name, a value and a
    boolean [isPassword] in every field, none of these texts empty.  The
    data handed on is that token and that payload, and nothing else the
    body carried: they are what the handler passes to
    [createPasswordEntry]. *)
Theorem entry_request_accepted (body data : JSValue) :
  Zod.safeParse Routes.passwordEntryCreateSchema body = inr data <->
  exists token e d,
    get_prop body "sessionToken" = Some (JSString token)
    /\ (1 <= js_length token)%nat
    /\ get_prop body "entry" = Some e
    /\ reads_as_entry e d
    /\ complete_entry d
    /\ data = JSObject [("sessionToken", JSString token); ("entry", toJS d)]
    /\ Routes.text (get_prop data "sessionToken") = token
    /\ Routes.as_entry (get_prop data "entry") = d.
Proof.
  rewrite entry_schema_accepts. split.
  - intros [token [e [d [Ht [Lt [He [Hr [Hc ->]]]]]]]].
    exists token, e, d.
    cbn [get_prop assoc String.eqb Ascii.eqb Bool.eqb Routes.text].
    rewrite as_entry_toJS. auto 10.
  - intros [token [e [d [Ht [Lt [He [Hr [Hc [-> _]]]]]]]]].
    exists token, e, d. auto 10.
Qed.

End SchemaFacts.

Section RouteFacts.
Context {R : NodeRuntime} {T : NodeText}.

(** What a schema of one string property accepts. *)
Lemma one_string_accepted (key message : string) (minimum : nat) (body data : JSValue) :
  Zod.safeParse (Zod.object [(key, Zod.string_min minimum message)]) body = inr data <->
  exists t,
    get_prop body key = Some (JSString t)
    /\ (minimum <= js_length t)%nat
    /\ data = JSObject [(key, JSString t)].
Proof.
  rewrite safeParse_accepts, object_accepts. split.
  - intros [[props [E H]] ->]. injection E as ->.
    inversion_clear H as [|? ? Ht _]. cbn [fst snd] in Ht.
    apply string_min_accepts in Ht as [t [Et Lt]].
    exists t. cbn [get_prop Zod.output]. rewrite Et. auto.
  - intros [t [Ht [Lt ->]]].
    destruct body as [| | | | |props]; try discriminate. cbn [get_prop] in Ht.
    split.
    + exists props. split; [reflexivity|]. repeat constructor. cbn [fst snd].
      apply string_min_accepts. eauto.
    + cbn [Zod.output]. now rewrite Ht.
Qed.

Lemma one_string_rejected (key message : string) (minimum : nat) (body : JSValue) :
  (forall t, get_prop body key = Some (JSString t) -> (js_length t < minimum)%nat) ->
  exists errors,
    Zod.safeParse (Zod.object [(key, Zod.string_min minimum message)]) body = inl errors.
Proof.
  intros H.
  destruct (Zod.safeParse _ body) as [errors|data] eqn:E; [eauto|].
  apply one_string_accepted in E as [t [Ht [Lt _]]].
  apply H in Ht. lia.
Qed.

Lemma entry_request_rejected (body : JSValue) :
  (forall t, get_prop body "sessionToken" = Some (JSString t) -> (js_length t < 1)%nat) ->
  exists errors, Zod.safeParse Routes.passwordEntryCreateSchema body = inl errors.
Proof.
  intros H.
  destruct (Zod.safeParse _ body) as [errors|data] eqn:E; [eauto|].
  rewrite safeParse_accepts in E. destruct E as [E _].
  change Routes.passwordEntryCreateSchema
    with (Zod.object [("sessionToken", Zod.string_min 1 "Session token is required");
                      ("entry", entry_schema)]) in E.
  apply object_accepts in E as [props [E F]]. injection E as ->.
  inversion_clear F as [|? ? Ht _]. cbn [fst snd] in Ht.
  apply string_min_accepts in Ht as [t [Et Lt]].
  apply (H t) in Et. lia.
Qed.

(** A body whose [sessionToken] is missing, is not a string or is the empty
    string is answered 400 "Validation error" by the four routes that take a
    token, before the storage is called: nothing is read or changed. *)
Theorem missing_token_is_bad_request (body : JSValue) (w : World) :
  (forall t, get_prop body "sessionToken" = Some (JSString t) -> js_length t = 0) ->
  exists e1 e2 e3 e4,
    Routes.post_auth_logout body w = (inr (Routes.validation_error e1), w)
    /\ Routes.post_password_entries body w = (inr (Routes.validation_error e2), w)
    /\ Routes.post_password_entries_list body w
       = (inr (Routes.validation_error e3), w)
    /\ Routes.post_password_entries_delete_all body w
       = (inr (Routes.validation_error e4), w)
    /\ forall e, Routes.status (Routes.validation_error e) = 400%Z.
Proof.
  intros H.
  assert (H' : forall t, get_prop body "sessionToken" = Some (JSString t) ->
                         (js_length t < 1)%nat)
    by (intros t Ht; rewrite (H t Ht); lia).
  destruct (one_string_rejected "sessionToken" "Session token is required" 1 body H')
    as [e1 E1].
  destruct (entry_request_rejected body H') as [e2 E2].
  exists e1, e2, e1, e1.
  unfold Routes.post_auth_logout, Routes.post_password_entries,
    Routes.post_password_entries_list, Routes.post_password_entries_delete_all,
    Routes.try_catch, Routes.sessionTokenSchema.
  rewrite E1, E2. auto.
Qed.

Lemma session_catch_invalid_session (what : string) :
  Routes.session_catch what InvalidSession = Routes.authentication_failed.
Proof. reflexivity. Qed.

Lemma session_catch_denied (what : string) :
  Routes.session_catch what InvalidMasterPassword = Routes.internal_error what.
Proof. reflexivity. Qed.

Lemma dead_token_refused (token : string) (data : DecryptedData) (w : World) :
  fst (DatabaseStorage.verifySession token w) = inr false ->
  DatabaseStorage.createPasswordEntry data token w = (inl InvalidSession, w)
  /\ DatabaseStorage.getAllPasswordEntries token w = (inl InvalidSession, w)
  /\ DatabaseStorage.deleteAllPasswordEntries token w = (inl InvalidSession, w).
Proof.
  rewrite verifySession_run. cbn [fst]. intros V.
  assert (F : firstn 1 (filter (live_session token (now w)) (sessions w)) = []).
  { destruct (firstn 1 _); [reflexivity | discriminate]. }
  rewrite createPasswordEntry_run, getAllPasswordEntries_run, F.
  unfold DatabaseStorage.deleteAllPasswordEntries, bind.
  rewrite verifySession_run, F. auto.
Qed.

(** A token that [verifySession] does not accept, whether unknown, logged
    out or expired, is answered 401 "Authentication failed" by the three
    entry routes, and the store is left as it was. *)
Theorem dead_token_is_unauthorized (body : JSValue) (token : string) (w : World) :
  get_prop body "sessionToken" = Some (JSString token) ->
  (1 <= js_length token)%nat ->
  fst (DatabaseStorage.verifySession token w) = inr false ->
  Routes.post_password_entries_list body w = (inr Routes.authentication_failed, w)
  /\ Routes.post_password_entries_delete_all body w
     = (inr Routes.authentication_failed, w)
  /\ (forall data,
        Zod.safeParse Routes.passwordEntryCreateSchema body = inr data ->
        Routes.post_password_entries body w = (inr Routes.authentication_failed, w))
  /\ Routes.status Routes.authentication_failed = 401%Z.
Proof.
  intros Ht Lt V.
  assert (P : Zod.safeParse Routes.sessionTokenSchema body
              = inr (JSObject [("sessionToken", JSString token)])).
  { apply one_string_accepted. eauto. }
  unfold Routes.post_password_entries_list, Routes.post_password_entries_delete_all,
    Routes.post_password_entries, Routes.try_catch, bind.
  rewrite P. cbn [get_prop assoc String.eqb Ascii.eqb Bool.eqb Routes.text].
  destruct (dead_token_refused token (mkData EmptyString []) w V) as [_ [L D]].
  rewrite L, D. split; [reflexivity|]. split; [reflexivity|]. split; [|reflexivity].
  intros data A. rewrite A.
  apply entry_schema_accepts in A as [token' [e [d [Ht' [_ [_ [_ [_ ->]]]]]]]].
  assert (token' = token) by congruence. subst token'.
  cbn [get_prop assoc String.eqb Ascii.eqb Bool.eqb Routes.text].
  destruct (dead_token_refused token (Routes.as_entry (Some (toJS d))) w V) as [C _].
  rewrite C. reflexivity.
Qed.

(** A login that [createSession] denies, because no master secret is
    configured or because the password does not verify, is answered 500
    "Internal server error": the message of the denial does not hold the
    words "Invalid session" the [catch] looks for before it answers 401.
    Nothing is stored. *)
Theorem login_denied_is_internal_error (body : JSValue) (candidate : string) (w : World) :
  get_prop body "masterPassword" = Some (JSString candidate) ->
  (1 <= js_length candidate)%nat ->
  master_password w = []
  \/ (exists r rest, master_password w = r :: rest
                     /\ bcrypt_compare candidate (hashedPassword r) = false) ->
  Routes.post_auth_login body w
  = (inr (Routes.internal_error "Failed to create session"), w)
  /\ Routes.status (Routes.internal_error "Failed to create session") = 500%Z.
Proof.
  intros Hc Lc H.
  assert (P : Zod.safeParse Routes.sessionCreateSchema body
              = inr (JSObject [("masterPassword", JSString candidate)])).
  { apply one_string_accepted. eauto. }
  assert (E : DatabaseStorage.createSession candidate w = (inl InvalidMasterPassword, w)).
  { unfold DatabaseStorage.createSession, DatabaseStorage.verifyMasterPassword,
      DatabaseStorage.getMasterPassword, bind, get_world, ret, throw.
    destruct H as [H | [r [rest [H C]]]]; rewrite H; simpl.
    - reflexivity.
    - unfold Crypto.verifyMasterPassword. rewrite C. reflexivity. }
  unfold Routes.post_auth_login, Routes.try_catch, bind. rewrite P.
  cbn [get_prop assoc String.eqb Ascii.eqb Bool.eqb Routes.text].
  rewrite E, session_catch_denied. auto.
Qed.

(** A login with the configured password on a store without sessions is
    answered 200 with the token issued and, as [expiresAt], the time four
    hours after now; the token is live afterwards. *)
Theorem login_route_succeeds (secret : string) (r : MasterPassword) (w : World) :
  base64_roundtrip R -> pbkdf2_length R -> gcm_roundtrip R ->
  (1 <= js_length secret)%nat ->
  master_password w = [r] ->
  bcrypt_compare secret (hashedPassword r) = true ->
  sessions w = [] ->
  exists token w',
    Routes.post_auth_login (Client.master_password_body secret) w
    = (inr (Routes.mkResponse 200
              (JSObject
                 [("sessionToken", JSString token);
                  ("expiresAt", JSString (toISOString (now w + 14400000)%Z));
                  ("message",
                   JSString "Authentication successful - session created")])),
       w')
    /\ fst (DatabaseStorage.verifySession token w') = inr true.
Proof.
  intros B L G Ls Hm Hc Hs.
  assert (P : Zod.safeParse Routes.sessionCreateSchema (Client.master_password_body secret)
              = inr (JSObject [("masterPassword", JSString secret)])).
  { apply one_string_accepted. exists secret. auto. }
  destruct (createSession_run secret w r B L G Hm Hc Hs)
    as [token [s [w1 [Hrun [Hs1 [Htok [Hact [Hexp [_ [_ Hn1]]]]]]]]]].
  exists token, w1.
  unfold Routes.post_auth_login, Routes.try_catch, bind. rewrite P.
  cbn [get_prop assoc String.eqb Ascii.eqb Bool.eqb Routes.text].
  rewrite Hrun. cbn [fst snd]. split; [reflexivity|].
  rewrite verifySession_run, Hs1. cbn [fst filter].
  assert (Hl : live_session token (now w1) s = true).
  { apply live_session_spec. rewrite Hexp, Hn1.
    unfold DatabaseStorage.SESSION_LIFETIME. repeat split; [assumption.. | lia]. }
  now rewrite Hl.
Qed.

(** [POST /api/master-password/create]: a password of fewer than eight
    UTF-16 units is answered 400 with the message of the schema; a longer
    one 409 when a master secret is stored, and in both cases nothing
    changes; on a store without master secret it is answered 201 and one
    row holding the bcrypt hash of the password is stored. *)
Theorem master_password_create_answers (body : JSValue) (typed : string) (w : World) :
  get_prop body "masterPassword" = Some (JSString typed) ->
  exists response w',
    Routes.post_master_password_create body w = (inr response, w')
    /\ ((js_length typed < 8)%nat ->
        w' = w
        /\ response
           = Routes.mkResponse 400
               (JSObject [("error", JSString "Validation error");
                          ("message",
                           JSString "Master password must be at least 8 characters")]))
    /\ ((8 <= js_length typed)%nat -> master_password w <> [] ->
        w' = w /\ Routes.status response = 409%Z)
    /\ ((8 <= js_length typed)%nat -> master_password w = [] ->
        Routes.status response = 201%Z
        /\ exists row rounds rnd,
             master_password w' = [row]
             /\ hashedPassword row = bcrypt_hash typed (bcrypt_genSalt rounds rnd)).
Proof.
  intros Ht.
  destruct (js_length typed <? 8)%nat eqn:Len.
  - destruct body as [| | | | |props]; try discriminate. cbn [get_prop] in Ht.
    unfold Routes.post_master_password_create, Routes.try_catch,
      Routes.masterPasswordCreateSchema, Zod.safeParse.
    cbn [Zod.issues app]. rewrite Ht, Len. cbn [app].
    eexists. eexists. split; [reflexivity|].
    apply Nat.ltb_lt in Len.
    split; [auto|]. split; intros; lia.
  - apply Nat.ltb_ge in Len.
    assert (P : Zod.safeParse Routes.masterPasswordCreateSchema body
                = inr (JSObject [("masterPassword", JSString typed)])).
    { apply one_string_accepted. eauto. }
    unfold Routes.post_master_password_create, Routes.try_catch, bind. rewrite P.
    cbn [get_prop assoc String.eqb Ascii.eqb Bool.eqb Routes.text].
    destruct (master_password w) as [|row rest] eqn:Hm.
    + destruct (setup_run typed w Hm) as [row [w1 [Hrun [Hmp [Hh _]]]]].
      unfold Storage.checkMasterPasswordExists, DatabaseStorage.getMasterPassword,
        bind, get_world, ret.
      rewrite Hm. cbn [firstn nth_error]. rewrite Hrun.
      eexists. eexists. split; [reflexivity|].
      split; [intros; lia|]. split; [intros _ N; now elim N|].
      intros _ _. split; [reflexivity|].
      destruct Hh as [rounds [rnd Hh]]. exists row, rounds, rnd. auto.
    + unfold Storage.checkMasterPasswordExists, DatabaseStorage.getMasterPassword,
        bind, get_world, ret.
      rewrite Hm. cbn [firstn nth_error].
      eexists. eexists. split; [reflexivity|].
      split; [intros; lia|]. split; [auto|]. intros _ N. discriminate.
Qed.

(** [POST /api/auth/logout] answers 200 for every token that is a string
    and not empty, issued or not; afterwards the token is not live, and
    the entries and the master secret are as before. *)
Theorem logout_route_answers (body : JSValue) (token : string) (w : World) :
  get_prop body "sessionToken" = Some (JSString token) ->
  (1 <= js_length token)%nat ->
  exists w',
    Routes.post_auth_logout body w
    = (inr (Routes.mkResponse 200
              (JSObject [("message", JSString "Session terminated successfully")])),
       w')
    /\ fst (DatabaseStorage.verifySession token w') = inr false
    /\ password_entries w' = password_entries w
    /\ master_password w' = master_password w.
Proof.
  intros Ht Lt.
  assert (P : Zod.safeParse Routes.sessionTokenSchema body
              = inr (JSObject [("sessionToken", JSString token)])).
  { apply one_string_accepted. eauto. }
  unfold Routes.post_auth_logout, Routes.try_catch, bind. rewrite P.
  cbn [get_prop assoc String.eqb Ascii.eqb Bool.eqb Routes.text].
  unfold DatabaseStorage.invalidateSession, ret.
  eexists. split; [reflexivity|].
  rewrite verifySession_run.
  cbn [fst sessions now with_sessions password_entries master_password].
  now rewrite invalidated_not_live.
Qed.

(** [GET /api/admin/stats] asks for no token and removes every entry row
    that has expired: it answers 200 with their number, with whether a
    master secret is stored and with the time, and leaves the sessions and
    the master secret alone. *)
Theorem stats_route_purges (w : World) :
  exists w',
    Routes.get_admin_stats w
    = (inr (Routes.mkResponse 200
              (JSObject
                 [("expiredEntriesCleanedUp",
                   JSNumber (Z.of_nat
                     (length (filter (fun e => (e_expiresAt e <=? now w)%Z)
                                     (password_entries w)))));
                  ("masterPasswordConfigured",
                   JSBool (match master_password w with [] => false | _ => true end));
                  ("timestamp", JSString (toISOString (now w)))])),
       w')
    /\ password_entries w'
       = filter (fun e => negb (e_expiresAt e <=? now w)%Z) (password_entries w)
    /\ sessions w' = sessions w
    /\ master_password w' = master_password w.
Proof.
  unfold Routes.get_admin_stats, Routes.try_catch,
    DatabaseStorage.deleteExpiredEntries, Storage.checkMasterPasswordExists,
    DatabaseStorage.getMasterPassword, get_world, new_Date.
  unfold bind, ret.
  cbn [master_password with_password_entries now].
  eexists. split.
  - destruct (master_password w) as [|r l]; reflexivity.
  - auto.
Qed.

End RouteFacts.

(** * The client against the routes *)

Section ClientFacts.
Context {R : NodeRuntime} {T : NodeText}.

Lemma reads_as_own_field (f : PasswordField) : reads_as_field (field_toJS f) f.
Proof. repeat split. Qed.

Lemma reads_as_own_fields (fs : list PasswordField) :
  Forall2 reads_as_field (map field_toJS fs) fs.
Proof.
  induction fs as [|f fs IH]; cbn [map]; constructor;
    [apply reads_as_own_field | exact IH].
Qed.

Lemma reads_as_own_entry (d : DecryptedData) : reads_as_entry (toJS d) d.
Proof.
  split; [reflexivity|]. exists (map field_toJS (fields d)).
  split; [reflexivity | apply reads_as_own_fields].
Qed.

(** A text that is not empty has at least one UTF-16 unit. *)
Lemma js_length_positive (s : string) :
  well_formed s = true -> s <> EmptyString -> (1 <= js_length s)%nat.
Proof.
  destruct s as [|c r]; [congruence|]. intros W _.
  unfold well_formed in W. cbn [utf8_sequences js_length] in *.
  unfold utf16_units.
  destruct (N_of_ascii c <? 128)%N; [lia|].
  destruct (N_of_ascii c <? 192)%N; [discriminate|].
  destruct (N_of_ascii c <? 240)%N; lia.
Qed.

Lemma nonempty_spec (s : string) : nonempty s = true <-> s <> EmptyString.
Proof.
  unfold nonempty. rewrite negb_true_iff. apply String.eqb_neq.
Qed.

Lemma trim_empty : trim EmptyString = EmptyString.
Proof. reflexivity. Qed.

(** The body [AdminPageRoute] sends to create an entry has the title and
    the fields beside the token and no [entry] property, which
    [passwordEntryCreateSchema] requires: whatever the token, the title and
    the fields, [POST /api/password-entries] answers it 400 "Validation
    error" and the storage is not called. *)
Theorem admin_entry_is_rejected (token : string) (entry : string * list PasswordField)
    (w : World) :
  json_roundtrip R ->
  exists body errors,
    Client.sent (Client.admin_entry_body token entry) = Some body
    /\ Routes.post_password_entries body w = (inr (Routes.validation_error errors), w)
    /\ Routes.status (Routes.validation_error errors) = 400%Z.
Proof.
  intros J. exists (Client.admin_entry_body token entry).
  assert (P : json_plain (Client.admin_entry_body token entry) = true).
  { unfold Client.admin_entry_body. cbn. rewrite andb_true_r. apply fields_plain. }
  destruct (Zod.safeParse Routes.passwordEntryCreateSchema
              (Client.admin_entry_body token entry)) as [errors|data] eqn:E.
  - exists errors. split; [apply J, P|].
    unfold Routes.post_password_entries, Routes.try_catch. rewrite E. auto.
  - apply entry_schema_accepts in E as [t [e [d [_ [_ [He _]]]]]].
    discriminate.
Qed.

(** What [handleSubmit] of [AdminPage] hands on is the title as typed, not
    blank, and the rows that have a name and a value, at least one.  Put
    under [entry] beside a token, it is a body that
    [passwordEntryCreateSchema] accepts. *)
Theorem admin_form_submits_complete_entries (title_typed : string)
    (rows : list PasswordField) (entry : string * list PasswordField) :
  Client.AdminPage_handleSubmit title_typed rows = Some entry ->
  well_formed title_typed = true ->
  Forall (fun f => well_formed (name f) = true /\ well_formed (value f) = true) rows ->
  fst entry = title_typed
  /\ snd entry = filter Client.filled rows
  /\ complete_entry (mkData (fst entry) (snd entry))
  /\ forall token,
       (1 <= js_length token)%nat ->
       Zod.safeParse Routes.passwordEntryCreateSchema
         (JSObject [("sessionToken", JSString token);
                    ("entry", toJS (mkData (fst entry) (snd entry)))])
       = inr (JSObject [("sessionToken", JSString token);
                        ("entry", toJS (mkData (fst entry) (snd entry)))]).
Proof.
  unfold Client.AdminPage_handleSubmit. intros H Wt Wr.
  destruct (nonempty (trim title_typed)) eqn:Nt; [|discriminate].
  destruct (existsb Client.filled rows) eqn:Ex; [|discriminate].
  cbn [andb] in H. injection H as <-. cbn [fst snd].
  assert (C : complete_entry (mkData title_typed (filter Client.filled rows))).
  { unfold complete_entry. cbn [title fields]. split; [|split].
    - apply js_length_positive; [exact Wt|]. intros ->.
      rewrite trim_empty in Nt. discriminate.
    - apply existsb_exists in Ex as [f [Hin Hf]]. intros E.
      assert (I : In f (filter Client.filled rows)) by (apply filter_In; auto).
      rewrite E in I. exact I.
    - apply Forall_forall. intros f Hf. apply filter_In in Hf as [Hin Hf].
      rewrite Forall_forall in Wr. destruct (Wr f Hin) as [Wn Wv].
      unfold Client.filled in Hf. apply andb_true_iff in Hf as [Hn Hv].
      split; apply js_length_positive; try assumption; now apply nonempty_spec. }
  split; [reflexivity|]. split; [reflexivity|]. split; [exact C|].
  intros token Lt. apply entry_schema_accepts.
  exists token, (toJS (mkData title_typed (filter Client.filled rows))),
    (mkData title_typed (filter Client.filled rows)).
  cbn [get_prop assoc String.eqb Ascii.eqb Bool.eqb].
  split; [reflexivity|]. split; [exact Lt|]. split; [reflexivity|].
  split; [apply reads_as_own_entry|]. split; [exact C | reflexivity].
Qed.

Lemma short_master_password_rejected (typed : string) (w : World) :
  (js_length typed < 8)%nat ->
  Routes.post_master_password_create (Client.master_password_body typed) w
  = (inr (Routes.mkResponse 400
            (JSObject [("error", JSString "Validation error");
                       ("message",
                        JSString "Master password must be at least 8 characters")])),
     w).
Proof.
  intros Len. apply Nat.ltb_lt in Len.
  unfold Routes.post_master_password_create, Routes.try_catch,
    Routes.masterPasswordCreateSchema, Zod.safeParse, Client.master_password_body.
  cbn [Zod.issues app assoc String.eqb Ascii.eqb Bool.eqb]. rewrite Len. reflexivity.
Qed.

(** [MasterPasswordSetup] submits a password typed twice alike of six
    UTF-16 units or more, and the route asks for eight: a password of six
    or seven units leaves the form and is answered 400 "Master password
    must be at least 8 characters", with nothing stored. *)
Theorem setup_form_and_route_disagree (typed : string) (w : World) :
  json_roundtrip R ->
  (6 <= js_length typed < 8)%nat ->
  Client.MasterPasswordSetup_handleSubmit typed typed = Some typed
  /\ Client.sent (Client.master_password_body typed)
     = Some (Client.master_password_body typed)
  /\ Routes.post_master_password_create (Client.master_password_body typed) w
     = (inr (Routes.mkResponse 400
               (JSObject [("error", JSString "Validation error");
                          ("message",
                           JSString "Master password must be at least 8 characters")])),
        w).
Proof.
  intros J [Lo Hi]. split; [|split].
  - unfold Client.MasterPasswordSetup_handleSubmit.
    rewrite String.eqb_refl. apply Nat.leb_le in Lo. now rewrite Lo.
  - apply J. reflexivity.
  - now apply short_master_password_rejected.
Qed.

(** The issues of a quiet schema have quiet messages. *)
Lemma quiet_received (expected : string) (x : option JSValue) :
  In expected ["string"; "boolean"; "array"; "object"] ->
  quiet_text (Zod.issue_message (Zod.invalid_type expected (Zod.parsed_type x))) = true.
Proof.
  intros H. cbn [In] in H.
  destruct H as [<-|[<-|[<-|[<-|[]]]]]; destruct x as [[| | | | |]|]; reflexivity.
Qed.

Lemma quiet_issues (s : Zod.Schema) :
  quiet_schema s = true ->
  forall x, Forall (fun i => quiet_text (Zod.issue_message i) = true) (Zod.issues s x).
Proof.
  induction s as [minimum message | | element minimum message IH | shape IH]
    using Schema_nested_ind; cbn [quiet_schema]; intros Q x.
  - cbn [Zod.issues].
    destruct x as [[| | |t| |]|];
      try (constructor; [apply quiet_received; cbn; auto | constructor]).
    destruct (js_length t <? minimum)%nat; repeat constructor. exact Q.
  - cbn [Zod.issues].
    destruct x as [[|b| | | |]|];
      try (constructor; [apply quiet_received; cbn; auto | constructor]).
    constructor.
  - apply andb_true_iff in Q as [Qm Qe]. cbn [Zod.issues].
    destruct x as [[| | | |items|]|];
      try (constructor; [apply quiet_received; cbn; auto 6 | constructor]).
    apply Forall_app. split.
    + destruct (length items <? minimum)%nat; repeat constructor. exact Qm.
    + induction items as [|v r IHr]; cbn [flat_map]; [constructor|].
      apply Forall_app. split; [apply IH, Qe | exact IHr].
  - destruct x as [[| | | | |props]|];
      try (cbn [Zod.issues]; constructor;
           [apply quiet_received; cbn; auto 6 | constructor]).
    rewrite object_issues.
    induction IH as [|[k s'] r Hs _ IHr]; cbn [flat_map]; [constructor|].
    apply andb_true_iff in Q as [Q1 Q2]. cbn [fst snd] in *.
    apply Forall_app. split; [apply Hs, Q1 | apply IHr, Q2].
Qed.

Lemma first_issue_quiet (s : Zod.Schema) (body : JSValue)
    (errors : Zod.Issue * list Zod.Issue) :
  quiet_schema s = true ->
  Zod.safeParse s body = inl errors ->
  quiet_text (Zod.issue_message (fst errors)) = true.
Proof.
  intros Q. unfold Zod.safeParse.
  pose proof (quiet_issues s Q (Some body)) as F.
  destruct (Zod.issues s (Some body)) as [|i r]; [discriminate|].
  intros E. injection E as <-. cbn [fst]. now inversion F.
Qed.

(** What [apiRequest] makes of the answers of the routes. *)
Lemma validation_error_not_lost (errors : Zod.Issue * list Zod.Issue) :
  quiet_text (Zod.issue_message (fst errors)) = true ->
  Client.session_lost (Client.apiRequest (Routes.validation_error errors)) = false.
Proof.
  intros Q. unfold Client.apiRequest, Routes.validation_error.
  cbn [Client.ok Routes.status Routes.json Z.leb Z.compare Pos.compare
       Pos.compare_cont andb negb get_prop assoc String.eqb Ascii.eqb Bool.eqb
       Client.or_else truthy].
  unfold quiet_text in Q. apply negb_true_iff in Q.
  destruct (negb (Zod.issue_message (fst errors) =? EmptyString)%string);
    cbn [Client.ToString Client.session_lost]; [exact Q | reflexivity].
Qed.

Lemma session_catch_not_lost (what : string) (error : Failure) :
  quiet_text what = true ->
  Client.session_lost (Client.apiRequest (Routes.session_catch what error)) = false.
Proof.
  intros Q. unfold Routes.session_catch.
  destruct (includes "Invalid session" (error_message error)); [reflexivity|].
  unfold Client.apiRequest, Routes.internal_error.
  cbn [Client.ok Routes.status Routes.json Z.leb Z.compare Pos.compare
       Pos.compare_cont andb negb get_prop assoc String.eqb Ascii.eqb Bool.eqb
       Client.or_else truthy].
  unfold quiet_text in Q. apply negb_true_iff in Q.
  destruct (negb (what =? EmptyString)%string);
    cbn [Client.ToString Client.session_lost]; [exact Q | reflexivity].
Qed.

Lemma success_not_lost (code : Z) (data : JSValue) :
  (200 <= code <= 299)%Z ->
  Client.session_lost (Client.apiRequest (Routes.mkResponse code data)) = false.
Proof.
  intros [Lo Hi]. unfold Client.apiRequest, Client.ok. cbn [Routes.status Routes.json].
  apply Z.leb_le in Lo, Hi. now rewrite Lo, Hi.
Qed.

(** No answer of the three entry routes passes the test the client makes
    before it logs out, [error.message.includes("Invalid session")]: the
    401 answer says "Invalid or expired session", and the 400 and 500
    answers do not hold these words either.  Whatever the body and the
    store, the client keeps its session state. *)
Theorem server_answers_never_log_out (body : JSValue) (w : World) :
  Forall
    (fun route : JSValue -> M Routes.Response =>
       exists response w',
         route body w = (inr response, w')
         /\ Client.session_lost (Client.apiRequest response) = false)
    [Routes.post_password_entries;
     Routes.post_password_entries_list;
     Routes.post_password_entries_delete_all].
Proof.
  repeat constructor.
  - unfold Routes.post_password_entries, Routes.try_catch.
    destruct (Zod.safeParse Routes.passwordEntryCreateSchema body) as [errors|data] eqn:E.
    + eexists. eexists. split; [reflexivity|].
      apply validation_error_not_lost.
      eapply first_issue_quiet; [|exact E]; reflexivity.
    + unfold bind.
      destruct (DatabaseStorage.createPasswordEntry _ _ w) as [[f|entry] w'].
      * eexists. eexists. split; [reflexivity|]. now apply session_catch_not_lost.
      * eexists. eexists. split; [reflexivity|]. apply success_not_lost. lia.
  - unfold Routes.post_password_entries_list, Routes.try_catch.
    destruct (Zod.safeParse Routes.sessionTokenSchema body) as [errors|data] eqn:E.
    + eexists. eexists. split; [reflexivity|].
      apply validation_error_not_lost.
      eapply first_issue_quiet; [|exact E]; reflexivity.
    + unfold bind.
      destruct (DatabaseStorage.getAllPasswordEntries _ w) as [[f|entries] w'].
      * eexists. eexists. split; [reflexivity|]. now apply session_catch_not_lost.
      * eexists. eexists. split; [reflexivity|]. apply success_not_lost. lia.
  - unfold Routes.post_password_entries_delete_all, Routes.try_catch.
    destruct (Zod.safeParse Routes.sessionTokenSchema body) as [errors|data] eqn:E.
    + eexists. eexists. split; [reflexivity|].
      apply validation_error_not_lost.
      eapply first_issue_quiet; [|exact E]; reflexivity.
    + unfold bind.
      destruct (DatabaseStorage.deleteAllPasswordEntries _ w) as [[f|u] w'].
      * eexists. eexists. split; [reflexivity|]. now apply session_catch_not_lost.
      * eexists. eexists. split; [reflexivity|]. apply success_not_lost. lia.
Qed.

End ClientFacts.

Section TimerFacts.

(** For a time difference that is not negative, [updateTimer] shows
    minutes and seconds below sixty, and hours, minutes and seconds that
    add up to the difference rounded down to the second. *)
Theorem timer_splits_the_difference (timeDiff : Z) :
  (0 <= timeDiff)%Z ->
  let '(hours, minutes, seconds) := Client.updateTimer timeDiff in
  (0 <= hours)%Z /\ (0 <= minutes < 60)%Z /\ (0 <= seconds < 60)%Z
  /\ (hours * 3600000 + minutes * 60000 + seconds * 1000 <= timeDiff
      < hours * 3600000 + minutes * 60000 + seconds * 1000 + 1000)%Z.
Proof.
  intros H. unfold Client.updateTimer.
  change (1000 * 60 * 60)%Z with 3600000%Z. change (1000 * 60)%Z with 60000%Z.
  rewrite !Z.rem_mod_nonneg by lia.
  zify. Z.to_euclidean_division_equations. lia.
Qed.

End TimerFacts.

(** * The entry routes after a login *)

Section AfterLogin.
Context {R : NodeRuntime} {T : NodeText}.

Lemma js_length_app (s t : string) :
  js_length (s ++ t) = (js_length s + js_length t)%nat.
Proof. induction s as [|c s IH]; cbn [String.append js_length]; lia. Qed.

(** The token [createSession] issues is two UUIDs joined by a hyphen. *)
Lemma createSession_token_shape (secret token : string) (expiresAt : Z) (w w1 : World) :
  DatabaseStorage.createSession secret w = (inr (token, expiresAt), w1) ->
  exists u1 u2, token = (u1 ++ "-" ++ u2)%string.
Proof.
  unfold DatabaseStorage.createSession, DatabaseStorage.verifyMasterPassword,
    DatabaseStorage.getMasterPassword, Crypto.encryptMasterPasswordForSession,
    Crypto.generateSalt, Crypto.generateIV, insert_session, randomUUID, randomBytes,
    new_Date, bind, get_world, ret, throw, lift.
  destruct (nth_error (firstn 1 (master_password w)) 0) as [r|]; [|discriminate].
  destruct (negb _); [discriminate|].
  cbn [sessions after_draw now drawn entropy].
  repeat match goal with
         | |- context [uuid_format ?b] =>
             let u := fresh "u" in generalize (uuid_format b); intros u
         end.
  destruct (Crypto.seal_session _ _ _) as [f|sealed]; [discriminate|].
  match goal with |- context [existsb ?p (sessions w)] =>
    destruct (existsb p (sessions w)) end; [discriminate|].
  intros H. injection H as Ht _ _. rewrite <- Ht. eexists. eexists. reflexivity.
Qed.

Lemma issued_token_not_empty (secret token : string) (expiresAt : Z) (w w1 : World) :
  DatabaseStorage.createSession secret w = (inr (token, expiresAt), w1) ->
  (1 <= js_length token)%nat.
Proof.
  intros H. apply createSession_token_shape in H as [u1 [u2 ->]].
  rewrite !js_length_app. cbn [js_length utf16_units N_of_ascii N.ltb N.compare
    Pos.compare Pos.compare_cont N_of_digits]. cbn. lia.
Qed.

(** After a login that the route answered 200, on a store that held the
    master secret and no session, the token it issued is live, and yet,
    unless the token derives the key of the master secret, creating any
    complete entry and listing the entries with it are both answered 500
    "Internal server error": the session secret does not open under the
    token, and the message of that failure is not one the [catch] turns
    into a 401.  The store keeps no entry. *)
Theorem entry_routes_fail_after_login (secret : string) (d : DecryptedData)
    (r : MasterPassword) (w : World) :
  base64_roundtrip R -> base64_no_colon R -> pbkdf2_length R -> gcm_roundtrip R ->
  gcm_authentic R -> no_session_wording T ->
  (1 <= js_length secret)%nat ->
  complete_entry d ->
  master_password w = [r] ->
  bcrypt_compare secret (hashedPassword r) = true ->
  sessions w = [] ->
  exists token answer w1,
    Routes.post_auth_login (Client.master_password_body secret) w = (inr answer, w1)
    /\ Routes.status answer = 200%Z
    /\ get_prop (Routes.json answer) "sessionToken" = Some (JSString token)
    /\ fst (DatabaseStorage.verifySession token w1) = inr true
    /\ ((forall salt_bytes,
           pbkdf2Sync token salt_bytes Crypto.PBKDF2_ITERATIONS Crypto.KEY_LENGTH
           <> pbkdf2Sync secret salt_bytes Crypto.PBKDF2_ITERATIONS Crypto.KEY_LENGTH) ->
        Routes.post_password_entries
          (JSObject [("sessionToken", JSString token); ("entry", toJS d)]) w1
        = (inr (Routes.internal_error "Failed to create password entry"), w1)
        /\ Routes.post_password_entries_list (Client.session_token_body token) w1
           = (inr (Routes.internal_error "Failed to retrieve password entries"), w1)
        /\ password_entries w1 = password_entries w).
Proof.
  intros B C L G A Q Ls Hd Hm Hc Hs.
  assert (P : Zod.safeParse Routes.sessionCreateSchema (Client.master_password_body secret)
              = inr (JSObject [("masterPassword", JSString secret)])).
  { apply one_string_accepted. exists secret. auto. }
  destruct (createSession_run secret w r B L G Hm Hc Hs)
    as [token [s [w1 [Hrun [Hs1 [Htok [Hact [Hexp
         [[st [ib [sealed [Hsealed [Henc Hsalt]]]]] [He1 Hn1]]]]]]]]]].
  pose proof (issued_token_not_empty _ _ _ _ _ Hrun) as Lt.
  assert (Hl : (now w1 < s_expiresAt s)%Z)
    by (rewrite Hexp, Hn1; unfold DatabaseStorage.SESSION_LIFETIME; lia).
  exists token. eexists. exists w1. split.
  { unfold Routes.post_auth_login, Routes.try_catch, bind. rewrite P.
    cbn [get_prop assoc String.eqb Ascii.eqb Bool.eqb Routes.text].
    rewrite Hrun. reflexivity. }
  cbn [Routes.status Routes.json fst snd get_prop assoc String.eqb Ascii.eqb Bool.eqb].
  split; [reflexivity|]. split; [reflexivity|]. split.
  { rewrite verifySession_run, Hs1. cbn [fst filter].
    assert (Hlive : live_session token (now w1) s = true)
      by (apply live_session_spec; auto).
    now rewrite Hlive. }
  intros K.
  assert (Hst : Crypto.ss_sessionSalt sealed = st).
  { destruct (seal_session_inv _ _ _ _ B Hsealed) as [cipher [tag [_ ->]]].
    reflexivity. }
  destruct (open_session_secret st ib secret token sealed B C A Hsealed (K _))
    as [why D].
  rewrite <- Henc, <- Hsalt in D.
  destruct (entry_operations_stop d token w1 s _ Hs1 Htok Hact Hl D) as [_ [Cr Li]].
  assert (Pe : Zod.safeParse Routes.passwordEntryCreateSchema
                 (JSObject [("sessionToken", JSString token); ("entry", toJS d)])
               = inr (JSObject [("sessionToken", JSString token); ("entry", toJS d)])).
  { apply entry_schema_accepts. exists token, (toJS d), d.
    cbn [get_prop assoc String.eqb Ascii.eqb Bool.eqb].
    split; [reflexivity|]. split; [exact Lt|]. split; [reflexivity|].
    split; [apply reads_as_own_entry|]. split; [exact Hd | reflexivity]. }
  assert (Pt : Zod.safeParse Routes.sessionTokenSchema (Client.session_token_body token)
               = inr (JSObject [("sessionToken", JSString token)])).
  { apply one_string_accepted. exists token. auto. }
  assert (S : forall what,
            Routes.session_catch what (SessionDecryptionFailed why)
            = Routes.internal_error what).
  { intros what. unfold Routes.session_catch.
    change (error_message (SessionDecryptionFailed why))
      with ("Session decryption failed: " ++ cause_message why)%string.
    now rewrite (Q why). }
  split; [|split].
  - unfold Routes.post_password_entries, Routes.try_catch, bind. rewrite Pe.
    cbn [get_prop assoc String.eqb Ascii.eqb Bool.eqb Routes.text].
    rewrite as_entry_toJS, Cr, S. reflexivity.
  - unfold Routes.post_password_entries_list, Routes.try_catch, bind. rewrite Pt.
    cbn [get_prop assoc String.eqb Ascii.eqb Bool.eqb Routes.text].
    rewrite Li, S. reflexivity.
  - exact He1.
Qed.

End AfterLogin.

(** * The session secret under the secret itself, and rows that do not
      decrypt *)

Section VaultFacts.
Context {R : NodeRuntime}.

Lemma utf8_not_empty (s : string) : s <> EmptyString -> utf8 s <> [].
Proof.
  intros H E. apply H. apply (f_equal utf8_decode) in E.
  unfold utf8_decode, utf8 in E. now rewrite string_of_list_byte_of_string in E.
Qed.

(** [encryptMasterPasswordForSession] derives its key from the master
    secret, and [decryptMasterPasswordFromSession] from its third argument:
    given the master secret itself there, and not the session token, it
    returns the secret that was sealed, for every secret that is not empty
    and is a text of Unicode scalar values (a secret with a lone surrogate
    is not: its bytes are those of another string). *)
Theorem session_secret_opens_under_secret (S : string) (w : World) :
  base64_roundtrip R -> base64_no_colon R -> base64_nonempty R ->
  pbkdf2_length R -> gcm_roundtrip R -> gcm_output_shape R ->
  unicode_text S = true ->
  S <> EmptyString ->
  exists secret w',
    Crypto.encryptMasterPasswordForSession S w = (inr secret, w')
    /\ Crypto.decryptMasterPasswordFromSession
         (Crypto.ss_encryptedMasterPassword secret) (Crypto.ss_sessionSalt secret) S
       = inr S.
Proof.
  intros B C N L G Sh _ HS. rewrite encryptMasterPasswordForSession_run.
  destruct (G (pbkdf2Sync S (salt_draw w) Crypto.PBKDF2_ITERATIONS Crypto.KEY_LENGTH)
              (iv_draw w) [] (utf8 S)) as [cipher [tag [E D]]];
    [unfold pbkdf2Sync; now rewrite L | apply iv_draw_nonempty |].
  destruct (Sh _ _ _ _ _ _ E) as [Hlen Htag].
  assert (Hc : cipher <> []).
  { intros ->. apply (utf8_not_empty S HS).
    destruct (utf8 S); [reflexivity | discriminate]. }
  eexists. eexists. split.
  - unfold Crypto.seal_session. rewrite !B, E. reflexivity.
  - cbn [Crypto.ss_encryptedMasterPassword Crypto.ss_sessionSalt].
    rewrite (session_format_accepted _ _ _ _ _ _ []
               (split_three _ _ _ (C _) (C _) (C _))
               (N _ Hc) (N _ (iv_draw_nonempty w)) (N _ Htag)).
    rewrite !B, D. unfold utf8_decode, utf8.
    now rewrite string_of_list_byte_of_string.
Qed.

Lemma decrypt_each_spec (secret : string) (rows : list PasswordEntry) (v : JSValue) :
  In v (DatabaseStorage.decrypt_each secret rows) <->
  exists e d,
    In e rows
    /\ Crypto.decryptPasswordEntry
         (mkEncrypted (encryptedData e) (salt e) (iv e) (authTag e)) secret = inr d
    /\ v = DatabaseStorage.entryData_of d.
Proof.
  induction rows as [|y rows IH]; cbn [DatabaseStorage.decrypt_each].
  - split; [contradiction | intros [e [d [[] _]]]].
  - destruct (Crypto.decryptPasswordEntry
                (mkEncrypted (encryptedData y) (salt y) (iv y) (authTag y)) secret)
      as [f|d] eqn:D.
    + rewrite IH. split.
      * intros [e [d [Hin H]]]. exists e, d. split; [now right | exact H].
      * intros [e [d [[<-|Hin] [He Hv]]]]; [congruence|]. eauto.
    + cbn [In]. rewrite IH. split.
      * intros [<-|[e [d' [Hin H]]]].
        -- exists y, d. split; [now left | auto].
        -- exists e, d'. split; [now right | exact H].
      * intros [e [d' [[<-|Hin] [He Hv]]]].
        -- left. congruence.
        -- right. eauto.
Qed.

Lemma decrypt_each_length (secret : string) (rows : list PasswordEntry) :
  (length (DatabaseStorage.decrypt_each secret rows) <= length rows)%nat.
Proof.
  induction rows as [|y rows IH]; cbn [DatabaseStorage.decrypt_each length]; [lia|].
  destruct (Crypto.decryptPasswordEntry _ secret); cbn [length]; lia.
Qed.

Lemma newest_first_length (l : list PasswordEntry) :
  length (newest_first l) = length l.
Proof.
  induction l as [|e l IH]; [reflexivity|].
  cbn [newest_first fold_right length]. fold (newest_first l). rewrite <- IH.
  generalize (newest_first l). intros s.
  induction s as [|x s IHs]; cbn [insert_newest_first length]; [reflexivity|].
  destruct (e_createdAt x <? e_createdAt e)%Z; cbn [length]; lia.
Qed.

(** Once the secret of the session is recovered, [getAllPasswordEntries]
    does not throw, whatever the rows hold: it returns what the rows that
    are not deleted, have not expired and decrypt under the secret decrypt
    to, and skips the rows that do not decrypt; the store is unchanged. *)
Theorem listing_skips_rows_that_fail (token secret : string) (w : World) :
  DatabaseStorage.getMasterPasswordFromSession token w = (inr secret, w) ->
  exists listed,
    DatabaseStorage.getAllPasswordEntries token w = (inr listed, w)
    /\ (length listed
        <= length (filter (listed_entry (now w)) (password_entries w)))%nat
    /\ forall v,
         In v listed <->
         exists e d,
           In e (password_entries w)
           /\ isDeleted e = false /\ (now w < e_expiresAt e)%Z
           /\ Crypto.decryptPasswordEntry
                (mkEncrypted (encryptedData e) (salt e) (iv e) (authTag e)) secret
              = inr d
           /\ v = DatabaseStorage.entryData_of d.
Proof.
  unfold DatabaseStorage.getMasterPasswordFromSession, bind, get_world, throw, lift.
  rewrite getAllPasswordEntries_run.
  destruct (firstn 1 (filter (live_session token (now w)) (sessions w))) as [|s l];
    [discriminate|].
  intros H. injection H as H. rewrite H.
  eexists. split; [reflexivity|]. split.
  - rewrite <- (newest_first_length (filter _ _)). apply decrypt_each_length.
  - intros v. rewrite decrypt_each_spec. split.
    + intros [e [d [Hin [D Hv]]]]. exists e, d.
      apply In_newest_first, filter_In in Hin as [Hin Hl].
      unfold listed_entry in Hl. apply andb_true_iff in Hl as [Hd Ht].
      apply Z.ltb_lt in Ht. destruct (isDeleted e); [discriminate|]. auto.
    + intros [e [d [Hin [Hd [Ht [D Hv]]]]]]. exists e, d.
      split; [|auto]. apply In_newest_first, filter_In. split; [exact Hin|].
      unfold listed_entry. rewrite Hd. apply Z.ltb_lt in Ht. now rewrite Ht.
Qed.

End VaultFacts.

(** * The reference runtime satisfies the laws *)

Module ReferenceFacts.
Import Reference.

(** ** Base64 *)

Lemma below_in_range (bound : nat) (m : N) :
  (m < N.of_nat bound)%N -> In m (map N.of_nat (seq 0 bound)).
Proof.
  intros H. apply in_map_iff. exists (N.to_nat m). split.
  - apply N2Nat.id.
  - apply in_seq. lia.
Qed.

Lemma b64_index_char (n : N) : (n < 64)%N -> b64_index (b64_char n) = Some n.
Proof.
  intros H.
  assert (A : forallb (fun m => match b64_index (b64_char m) with
                                | Some k => N.eqb k m
                                | None => false
                                end) (map N.of_nat (seq 0 64)) = true)
    by (vm_compute; reflexivity).
  rewrite forallb_forall in A.
  specialize (A n (below_in_range 64 n H)).
  destruct (b64_index (b64_char n)); [|discriminate].
  apply N.eqb_eq in A. now subst.
Qed.

Lemma b64_index_pad : b64_index pad = None.
Proof. reflexivity. Qed.

Lemma byte_of_eq (n : N) (x : byte) : n = Byte.to_N x -> byte_of n = x.
Proof. intros ->. unfold byte_of. now rewrite Byte.of_to_N. Qed.

Lemma list_ind3 {A : Type} (P : list A -> Prop) :
  P [] -> (forall a, P [a]) -> (forall a b, P [a; b]) ->
  (forall a b c r, P r -> P (a :: b :: c :: r)) ->
  forall l, P l.
Proof.
  intros H0 H1 H2 H3.
  assert (G : forall l, P l /\ (forall a, P (a :: l)) /\ (forall a b, P (a :: b :: l))).
  { induction l as [|x l [IH0 [IH1 IH2]]].
    - auto.
    - repeat split; auto. }
  intros l. apply G.
Qed.

Ltac euclid := zify; Z.to_euclidean_division_equations; lia.

Ltac read_sextets :=
  repeat match goal with
         | |- context [b64_index (b64_char ?n)] => rewrite (b64_index_char n) by euclid
         end;
  rewrite ?b64_index_pad.

Lemma b64_decode_encode (b : Buffer) : b64_decode (b64_encode b) = b.
Proof.
  induction b as [|x|x y|x y z r IH] using list_ind3.
  - reflexivity.
  - pose proof (Byte.to_N_bounded x) as Bx.
    cbn [b64_encode b64_decode]. read_sextets.
    now rewrite (byte_of_eq _ x) by euclid.
  - pose proof (Byte.to_N_bounded x) as Bx. pose proof (Byte.to_N_bounded y) as By.
    cbn [b64_encode b64_decode].
    read_sextets.
    now rewrite (byte_of_eq _ x), (byte_of_eq _ y) by euclid.
  - pose proof (Byte.to_N_bounded x) as Bx. pose proof (Byte.to_N_bounded y) as By.
    pose proof (Byte.to_N_bounded z) as Bz.
    cbn [b64_encode b64_decode].
    read_sextets. rewrite IH.
    now rewrite (byte_of_eq _ x), (byte_of_eq _ y), (byte_of_eq _ z) by euclid.
Qed.

Lemma has_colon_chars (l : list ascii) :
  has_colon (string_of_list_ascii l) = existsb (fun c => Ascii.eqb c ":") l.
Proof. induction l as [|c l IH]; simpl; [reflexivity | now rewrite IH]. Qed.

Lemma b64_char_no_colon (n : N) : Ascii.eqb (b64_char n) ":" = false.
Proof.
  assert (A : forallb (fun c => negb (Ascii.eqb c ":")) b64_alphabet = true)
    by (vm_compute; reflexivity).
  rewrite forallb_forall in A. unfold b64_char.
  destruct (nth_in_or_default (N.to_nat n) b64_alphabet "A"%char) as [H|H].
  - apply negb_true_iff, A, H.
  - rewrite H. reflexivity.
Qed.

Lemma b64_encode_no_colon (b : Buffer) :
  existsb (fun c => Ascii.eqb c ":") (b64_encode b) = false.
Proof.
  induction b as [|x|x y|x y z r IH] using list_ind3;
    cbn [b64_encode existsb]; rewrite ?b64_char_no_colon, ?IH; reflexivity.
Qed.

Lemma base64_roundtrip_holds : base64_roundtrip runtime.
Proof.
  intros b. cbn [fromBase64 toBase64 runtime].
  rewrite list_ascii_of_string_of_list_ascii. apply b64_decode_encode.
Qed.

Lemma base64_no_colon_holds : base64_no_colon runtime.
Proof.
  intros b. cbn [toBase64 runtime]. rewrite has_colon_chars.
  apply b64_encode_no_colon.
Qed.

(** ** Symbolic encryption *)

Lemma frame_injective (a b r r' : Buffer) :
  frame a ++ r = frame b ++ r' -> a = b /\ r = r'.
Proof.
  revert b. induction a as [|x a IH]; intros [|y b] H; cbn in H.
  - injection H as H. auto.
  - discriminate.
  - discriminate.
  - injection H as Hx H. apply IH in H as [Ha Hr]. subst. auto.
Qed.

Lemma buffer_eqb_eq (a b : Buffer) : buffer_eqb a b = true <-> a = b.
Proof.
  revert b. induction a as [|x a IH]; intros [|y b]; simpl; split; intros H;
    try discriminate; try reflexivity.
  - apply andb_true_iff in H as [Hx Ha]. apply Byte.byte_dec_bl in Hx.
    apply IH in Ha. now subst.
  - injection H as -> ->. rewrite (Byte.byte_dec_lb eq_refl). simpl. now apply IH.
Qed.

Lemma pbkdf2_length_holds : pbkdf2_length runtime.
Proof.
  intros block salt_bytes iterations keylen. cbn [pbkdf2_hmac runtime]. unfold kdf.
  rewrite length_firstn, length_app, repeat_length. lia.
Qed.

Lemma seal_inv (key iv_bytes aad plain cipher tag : Buffer) :
  seal key iv_bytes aad plain = Some (cipher, tag) ->
  iv_bytes <> [] /\ length key = 32 /\ cipher = plain
  /\ tag = mac key iv_bytes aad plain.
Proof.
  unfold seal. destruct iv_bytes as [|i iv_bytes]; [discriminate|].
  destruct (Nat.eqb_spec (length key) 32) as [L|_]; [|discriminate].
  intros E. injection E as <- <-. repeat split; [discriminate | exact L].
Qed.

Lemma gcm_roundtrip_holds : gcm_roundtrip runtime.
Proof.
  intros key iv_bytes aad plain L Hiv. cbn [gcm_decrypt gcm_encrypt runtime].
  unfold seal, unseal. destruct iv_bytes as [|i iv_bytes]; [contradiction|].
  unfold AES_256_KEY in L. rewrite L. cbn [Nat.eqb andb].
  exists plain, (mac key (i :: iv_bytes) aad plain). split; [reflexivity|].
  now rewrite (proj2 (buffer_eqb_eq _ _) eq_refl).
Qed.

Lemma gcm_authentic_holds : gcm_authentic runtime.
Proof.
  intros key key' iv_bytes aad plain cipher tag E K.
  cbn [gcm_decrypt gcm_encrypt runtime] in *.
  apply seal_inv in E as [Hiv [_ [-> ->]]].
  unfold unseal. destruct iv_bytes as [|i iv_bytes]; [reflexivity|].
  destruct (buffer_eqb _ _) eqn:E; [|now rewrite andb_false_r].
  apply buffer_eqb_eq in E. unfold mac in E.
  apply frame_injective in E as [E _]. congruence.
Qed.

(** ** Symbolic password hashing *)

Lemma ends_with_refl (x : string) : ends_with x x = true.
Proof. destruct x; simpl; now rewrite ?String.eqb_refl, ?Ascii.eqb_refl. Qed.

Lemma ends_with_app (x s : string) : ends_with x (s ++ x) = true.
Proof.
  induction s as [|c s IH]; simpl.
  - apply ends_with_refl.
  - rewrite IH. apply orb_true_r.
Qed.

Lemma bcrypt_accepts_holds : bcrypt_accepts runtime.
Proof.
  intros password rounds rnd. cbn [bcrypt_compare bcrypt_hash bcrypt_genSalt runtime].
  unfold compare, hash. apply ends_with_app.
Qed.

End ReferenceFacts.

(** ** JSON: reading back what was printed *)


Module JsonFacts.
Import Reference.

Lemma read_string_escape (c : ascii) (r : list ascii) :
  read_string (json_escape c ++ r) = push c (read_string r).
Proof. destruct c as [[] [] [] [] [] [] [] []]; reflexivity. Qed.

Lemma read_string_printed (l rest : list ascii) :
  read_string (flat_map json_escape l ++ dquote :: rest) = Some (l, rest).
Proof.
  induction l as [|c l IH].
  - reflexivity.
  - cbn [flat_map]. rewrite <- app_assoc, read_string_escape, IH. reflexivity.
Qed.

Lemma print_string_app (s : string) (rest : list ascii) :
  print_string s ++ rest
  = dquote :: flat_map json_escape (list_ascii_of_string s) ++ dquote :: rest.
Proof. unfold print_string. cbn [app]. now rewrite <- app_assoc. Qed.

(** Unfolding [parse_value] by the first character. *)
Lemma parse_value_string (f : nat) (s : list ascii) :
  parse_value (S f) (dquote :: s)
  = match read_string s with
    | Some (cs, r') => Some (JSString (string_of_list_ascii cs), r')
    | None => None
    end.
Proof. reflexivity. Qed.

Lemma parse_value_array (f : nat) (s : list ascii) :
  parse_value (S f) ("["%char :: s)
  = match strip_prefix ["]"%char] s with
    | Some r' => Some (JSArray [], r')
    | None =>
        match parse_elems f s with
        | Some (vs, r') => Some (JSArray vs, r')
        | None => None
        end
    end.
Proof. reflexivity. Qed.

Lemma parse_value_object (f : nat) (s : list ascii) :
  parse_value (S f) ("{"%char :: s)
  = match strip_prefix ["}"%char] s with
    | Some r' => Some (JSObject [], r')
    | None =>
        match parse_members f s with
        | Some (ms, r') => Some (JSObject ms, r')
        | None => None
        end
    end.
Proof. reflexivity. Qed.

Lemma print_value_opens (v : JSValue) (rest : list ascii) :
  json_plain v = true -> strip_prefix ["]"%char] (print_value v ++ rest) = None.
Proof. destruct v as [|[]| | | |]; intros H; try reflexivity. discriminate. Qed.

Lemma elems_read_back (l : list JSValue) :
  Forall reads_back l -> forallb json_plain l = true -> l <> [] ->
  forall f rest, fuel_elems_with fuel_needed l <= f ->
    parse_elems f (print_elems_with print_value l ++ rest) = Some (l, rest).
Proof.
  induction 1 as [|x r Hx Hr IH]; [congruence|].
  intros Hp _ f rest Hf. cbn [forallb] in Hp. apply andb_true_iff in Hp as [Hpx Hpr].
  cbn [fuel_elems_with] in Hf. destruct f as [|f]; [lia|].
  cbn [print_elems_with parse_elems]. rewrite <- app_assoc.
  rewrite (Hx Hpx f _) by lia.
  destruct r as [|y r].
  - reflexivity.
  - cbn [app]. change (Ascii.eqb "," ",") with true. cbv iota.
    rewrite (IH Hpr) by (discriminate || lia). reflexivity.
Qed.

Lemma members_read_back (l : list (string * JSValue)) :
  Forall (fun p => reads_back (snd p)) l ->
  forallb (fun p => json_plain (snd p)) l = true -> l <> [] ->
  forall f rest, fuel_members_with fuel_needed l <= f ->
    parse_members f (print_members_with print_value l ++ rest) = Some (l, rest).
Proof.
  induction 1 as [|[k x] r Hx Hr IH]; [congruence|].
  intros Hp _ f rest Hf. cbn [forallb snd] in Hp. apply andb_true_iff in Hp as [Hpx Hpr].
  cbn [fuel_members_with] in Hf. destruct f as [|f]; [lia|].
  cbn [print_members_with]. rewrite <- app_assoc, print_string_app.
  cbn [parse_members]. change (Ascii.eqb dquote dquote) with true. cbv iota.
  rewrite read_string_printed. cbn [app].
  change (Ascii.eqb ":" ":") with true. cbv iota.
  rewrite <- app_assoc. cbn [snd] in Hx. rewrite (Hx Hpx f _) by lia.
  rewrite string_of_list_ascii_of_string.
  destruct r as [|y r].
  - reflexivity.
  - cbn [app]. change (Ascii.eqb "," ",") with true. cbv iota.
    rewrite (IH Hpr) by (discriminate || lia). reflexivity.
Qed.

Lemma value_reads_back (v : JSValue) : reads_back v.
Proof.
  induction v as [|b|z|s|items IH|props IH] using JSValue_nested_ind;
    intros Hp f rest Hf; (destruct f as [|f]; [cbn in Hf; lia|]).
  - reflexivity.
  - destruct b; reflexivity.
  - discriminate.
  - cbn [print_value]. rewrite print_string_app, parse_value_string.
    rewrite read_string_printed, string_of_list_ascii_of_string. reflexivity.
  - cbn [print_value app]. rewrite parse_value_array.
    destruct items as [|x r]; [reflexivity|].
    cbn [json_plain] in Hp. cbn [fuel_needed] in Hf.
    assert (Hx : json_plain x = true)
      by (cbn [forallb] in Hp; now apply andb_true_iff in Hp).
    cbn [print_elems_with]. rewrite <- app_assoc, (print_value_opens x _ Hx).
    rewrite app_assoc.
    change (print_value x ++ match r with
                             | [] => ["]"%char]
                             | _ :: _ => ","%char :: print_elems_with print_value r
                             end)
      with (print_elems_with print_value (x :: r)).
    rewrite (elems_read_back (x :: r) IH Hp) by (discriminate || lia). reflexivity.
  - cbn [print_value app]. rewrite parse_value_object.
    destruct props as [|[k x] r]; [reflexivity|].
    cbn [json_plain] in Hp. apply andb_true_iff in Hp as [_ Hp].
    cbn [fuel_needed] in Hf.
    assert (Ho : strip_prefix ["}"%char]
                   (print_members_with print_value ((k, x) :: r) ++ rest) = None).
    { cbn [print_members_with]. rewrite <- app_assoc, print_string_app. reflexivity. }
    rewrite Ho.
    rewrite (members_read_back ((k, x) :: r) IH Hp) by (discriminate || lia).
    reflexivity.
Qed.

Lemma fuel_le_length (v : JSValue) :
  json_plain v = true -> fuel_needed v <= length (print_value v).
Proof.
  induction v as [|b|z|s|items IH|props IH] using JSValue_nested_ind; intros Hp.
  - cbn. lia.
  - destruct b; cbn; lia.
  - discriminate.
  - cbn [fuel_needed print_value print_string length]. lia.
  - cbn [fuel_needed print_value length json_plain] in *. apply le_n_S.
    induction IH as [|x r Hx Hr IHr]; [cbn; lia|].
    cbn [forallb] in Hp. apply andb_true_iff in Hp as [Hpx Hpr].
    cbn [fuel_elems_with print_elems_with]. rewrite length_app.
    specialize (Hx Hpx). specialize (IHr Hpr).
    destruct r; [cbn [fuel_elems_with length]; lia | cbn [length] in *; lia].
  - cbn [fuel_needed print_value length json_plain] in *. apply le_n_S.
    apply andb_true_iff in Hp as [_ Hp].
    induction IH as [|[k x] r Hx Hr IHr]; [cbn; lia|].
    cbn [forallb snd] in Hp, Hx. apply andb_true_iff in Hp as [Hpx Hpr].
    cbn [fuel_members_with print_members_with]. rewrite !length_app.
    specialize (Hx Hpx). specialize (IHr Hpr).
    destruct r; [cbn [fuel_members_with]|];
      rewrite ?length_app; cbn [length]; rewrite ?length_app; cbn [length]; lia.
Qed.

Lemma json_roundtrip_holds : json_roundtrip runtime.
Proof.
  intros v Hp. cbn [JSON_parse JSON_stringify runtime]. unfold parse, stringify.
  rewrite list_ascii_of_string_of_list_ascii.
  rewrite <- (app_nil_r (print_value v)) at 2.
  rewrite (value_reads_back v Hp) by (pose proof (fuel_le_length v Hp); lia).
  reflexivity.
Qed.

End JsonFacts.

(** * Concrete runs on the reference runtime *)

Module Runs.
Import Example.
#[local] Existing Instance Reference.runtime.

(** In the reference runtime two secrets whose key blocks start with
    different bytes derive different keys, whatever the salt. *)
Lemma reference_keys_differ (a b : string) (salt_bytes : Buffer) :
  hd_error (hmac_key_block (utf8 a)) <> hd_error (hmac_key_block (utf8 b)) ->
  hmac_key_block (utf8 a) <> [] -> hmac_key_block (utf8 b) <> [] ->
  pbkdf2Sync a salt_bytes Crypto.PBKDF2_ITERATIONS Crypto.KEY_LENGTH
  <> pbkdf2Sync b salt_bytes Crypto.PBKDF2_ITERATIONS Crypto.KEY_LENGTH.
Proof.
  unfold pbkdf2Sync. cbn [pbkdf2_hmac Reference.runtime]. unfold Reference.kdf.
  destruct (hmac_key_block (utf8 a)) as [|x la]; [congruence|].
  destruct (hmac_key_block (utf8 b)) as [|y lb]; [congruence|].
  intros H _ _ E. apply H.
  destruct salt_bytes; cbn in E; injection E as E _; now rewrite E.
Qed.

Lemma token_keys_differ (salt_bytes : Buffer) :
  pbkdf2Sync issued_token salt_bytes Crypto.PBKDF2_ITERATIONS Crypto.KEY_LENGTH
  <> pbkdf2Sync "Sup3rSecret!" salt_bytes Crypto.PBKDF2_ITERATIONS Crypto.KEY_LENGTH.
Proof. apply reference_keys_differ; vm_compute; discriminate. Qed.

Lemma session_secret_not_recovered_witness :
  exists why,
    Crypto.decryptMasterPasswordFromSession
      (Crypto.ss_encryptedMasterPassword session_secret)
      (Crypto.ss_sessionSalt session_secret) issued_token
    = inl (SessionDecryptionFailed why).
Proof.
  apply (session_secret_not_recovered "Sup3rSecret!" issued_token fresh_world
           later_world session_secret
           ReferenceFacts.base64_roundtrip_holds ReferenceFacts.base64_no_colon_holds
           ReferenceFacts.gcm_authentic_holds).
  - reflexivity.
  - apply token_keys_differ.
Defined.

Lemma scenario_entry_not_created_witness :
  exists why w1,
    configure_and_login "Sup3rSecret!" fresh_world
    = (inr (issued_token, 1700014400000%Z), w1)
    /\ fst (DatabaseStorage.verifySession issued_token w1) = inr true
    /\ DatabaseStorage.createPasswordEntry mail_entry issued_token w1
       = (inl (SessionDecryptionFailed why), w1)
    /\ DatabaseStorage.getAllPasswordEntries issued_token w1
       = (inl (SessionDecryptionFailed why), w1)
    /\ password_entries w1 = [].
Proof.
  destruct (scenario_entry_not_created fresh_world
              ReferenceFacts.base64_roundtrip_holds ReferenceFacts.base64_no_colon_holds
              ReferenceFacts.pbkdf2_length_holds ReferenceFacts.gcm_roundtrip_holds
              ReferenceFacts.gcm_authentic_holds ReferenceFacts.bcrypt_accepts_holds
              (conj eq_refl (conj eq_refl eq_refl)))
    as [token [expiresAt [w1 [Hrun Hfail]]]].
  assert (Ht : token = issued_token /\ expiresAt = 1700014400000%Z).
  { unfold issued_token. rewrite Hrun. cbn [fst].
    split; [reflexivity|].
    assert (E : fst (configure_and_login "Sup3rSecret!" fresh_world)
                = inr (issued_token, 1700014400000%Z)) by (vm_compute; reflexivity).
    rewrite Hrun in E. cbn [fst] in E. congruence. }
  destruct Ht as [-> ->].
  destruct Hfail as [why [V [C [L E]]]].
  - exact token_keys_differ.
  - exists why, w1. auto.
Defined.

Lemma seal_open_roundtrip_witness :
  exists env w',
    Crypto.encryptPasswordEntry mail_entry "s3cret" fresh_world = (inr env, w')
    /\ Crypto.decryptPasswordEntry env "s3cret" = inr (toJS mail_entry).
Proof.
  exact (seal_open_roundtrip mail_entry "s3cret" fresh_world
           ReferenceFacts.base64_roundtrip_holds ReferenceFacts.pbkdf2_length_holds
           ReferenceFacts.gcm_roundtrip_holds JsonFacts.json_roundtrip_holds).
Defined.



Lemma deleteAll_marks_every_row_witness :
  exists w',
    DatabaseStorage.deleteAllPasswordEntries "token-1" world_with_expired_row
    = (inr tt, w')
    /\ sessions w' = sessions world_with_expired_row
    /\ master_password w' = master_password world_with_expired_row
    /\ length (password_entries w') = length (password_entries world_with_expired_row)
    /\ forall i e, nth_error (password_entries world_with_expired_row) i = Some e ->
         exists e', nth_error (password_entries w') i = Some e'
           /\ isDeleted e' = true
           /\ e_id e' = e_id e /\ encryptedData e' = encryptedData e
           /\ salt e' = salt e /\ iv e' = iv e /\ authTag e' = authTag e
           /\ e_createdAt e' = e_createdAt e /\ e_expiresAt e' = e_expiresAt e
           /\ (isDeleted e = true -> e' = e).
Proof.
  exact (deleteAll_marks_every_row "token-1" world_with_expired_row eq_refl).
Defined.

(** C5 as stated fails: the entry expired at 86400000, before the call at
    90000000, and is not left unchanged; its [isDeleted] is now [true]. *)
Lemma expired_row_is_marked :
  fst (DatabaseStorage.verifySession "token-1" world_with_expired_row) = inr true
  /\ (e_expiresAt expired_row <=? now world_with_expired_row)%Z = true
  /\ isDeleted expired_row = false
  /\ password_entries
       (snd (DatabaseStorage.deleteAllPasswordEntries "token-1" world_with_expired_row))
     = [set_isDeleted true expired_row; deleted_row]
  /\ isDeleted (set_isDeleted true expired_row) = true.
Proof. repeat split. Qed.

Lemma createSession_denied_witness :
  (DatabaseStorage.createSession "Sup3rSecret!" fresh_world
   = (inl InvalidMasterPassword, fresh_world)
   /\ spec_error InvalidMasterPassword = AuthenticationError
   /\ sessions (snd (DatabaseStorage.createSession "Sup3rSecret!" fresh_world))
      = sessions fresh_world)
  /\ (DatabaseStorage.createSession "wrong" configured_world
      = (inl InvalidMasterPassword, configured_world)
      /\ spec_error InvalidMasterPassword = AuthenticationError
      /\ sessions (snd (DatabaseStorage.createSession "wrong" configured_world))
         = sessions configured_world).
Proof.
  split.
  - apply (createSession_denied "Sup3rSecret!" fresh_world). left. reflexivity.
  - apply (createSession_denied "wrong" configured_world). right.
    eexists. eexists. split; vm_compute; reflexivity.
Defined.

Lemma structural_check_is_basic_witness :
  ((basic_shape incomplete_fields = true ->
    Crypto.decryptPasswordEntry incomplete_envelope "s3cret" = inr incomplete_fields)
   /\ (basic_shape incomplete_fields = false ->
       Crypto.decryptPasswordEntry incomplete_envelope "s3cret"
       = inl (DecryptionFailed InvalidStructure)
       /\ spec_error (DecryptionFailed InvalidStructure) = FormatError))
  /\ ((basic_shape no_fields = true ->
       Crypto.decryptPasswordEntry no_fields_envelope "s3cret" = inr no_fields)
      /\ (basic_shape no_fields = false ->
          Crypto.decryptPasswordEntry no_fields_envelope "s3cret"
          = inl (DecryptionFailed InvalidStructure)
          /\ spec_error (DecryptionFailed InvalidStructure) = FormatError)).
Proof.
  split.
  - apply (structural_check_is_basic incomplete_envelope "s3cret"
             (utf8 (JSON_stringify incomplete_fields)) incomplete_fields);
      vm_compute; reflexivity.
  - apply (structural_check_is_basic no_fields_envelope "s3cret"
             (utf8 (JSON_stringify no_fields)) no_fields);
      vm_compute; reflexivity.
Defined.

(** C8 as stated fails: the decrypted value has a [fields] element with no
    [value] and no [isPassword], and another that is [null]; it is returned,
    not rejected. *)
Lemma incomplete_fields_returned :
  Crypto.decryptPasswordEntry incomplete_envelope "s3cret" = inr incomplete_fields
  /\ entry_shape incomplete_fields = false.
Proof.
  split; [|reflexivity].
  destruct (open_sealed_value incomplete_fields (salt_draw fresh_world)
              (iv_draw fresh_world) "s3cret" "s3cret"
              ReferenceFacts.base64_roundtrip_holds ReferenceFacts.pbkdf2_length_holds
              ReferenceFacts.gcm_roundtrip_holds JsonFacts.json_roundtrip_holds
              (iv_draw_nonempty fresh_world) eq_refl eq_refl)
    as [env [E D]].
  unfold incomplete_envelope. rewrite E. exact D.
Qed.



Lemma session_format_rejected_witness :
  (Crypto.decryptMasterPasswordFromSession EmptyString "c2FsdA==" issued_token
   = inl (SessionDecryptionFailed InvalidSessionDataFormat)
   /\ spec_error (SessionDecryptionFailed InvalidSessionDataFormat) = FormatError)
  /\ (Crypto.decryptMasterPasswordFromSession "Y3Q=" "c2FsdA==" issued_token
      = inl (SessionDecryptionFailed InvalidSessionDataFormat)
      /\ spec_error (SessionDecryptionFailed InvalidSessionDataFormat) = FormatError)
  /\ (Crypto.decryptMasterPasswordFromSession "Y3Q=::dGFn" "c2FsdA==" issued_token
      = inl (SessionDecryptionFailed InvalidSessionDataFormat)
      /\ spec_error (SessionDecryptionFailed InvalidSessionDataFormat) = FormatError)
  /\ (Crypto.decryptMasterPasswordFromSession "Y3Q=:aXY=:" "c2FsdA==" issued_token
      = inl (SessionDecryptionFailed InvalidSessionDataFormat)
      /\ spec_error (SessionDecryptionFailed InvalidSessionDataFormat) = FormatError).
Proof.
  exact (conj (session_format_rejected EmptyString "c2FsdA==" issued_token eq_refl)
          (conj (session_format_rejected "Y3Q=" "c2FsdA==" issued_token eq_refl)
             (conj (session_format_rejected "Y3Q=::dGFn" "c2FsdA==" issued_token eq_refl)
                (session_format_rejected "Y3Q=:aXY=:" "c2FsdA==" issued_token eq_refl)))).
Defined.

(** C10 as stated fails: a text of four components does not split into
    three, yet it is not rejected; the fourth is ignored and the secret is
    returned. *)
Lemma fourth_component_accepted :
  length (split ":" four_components) = 4
  /\ three_nonempty four_components = false
  /\ Crypto.decryptMasterPasswordFromSession four_components
       (Crypto.ss_sessionSalt session_secret) "Sup3rSecret!"
     = inr "Sup3rSecret!".
Proof. repeat split; vm_compute; reflexivity. Qed.

Lemma soft_deleted_not_listed_witness :
  filter (listed_entry 90000000)
    (password_entries
       (snd (DatabaseStorage.deleteAllPasswordEntries "token-1" world_with_expired_row)))
  = [].
Proof.
  exact (soft_deleted_not_listed "token-1" world_with_expired_row 90000000 eq_refl).
Defined.

Lemma setup_is_single_use_witness :
  DatabaseStorage.setupMasterPassword "An0ther!" configured_world
  = (inl MasterPasswordExists, configured_world)
  /\ spec_error MasterPasswordExists = AlreadyConfiguredError.
Proof.
  apply (setup_is_single_use "An0ther!" configured_world).
  vm_compute. discriminate.
Defined.

Lemma login_run :
  DatabaseStorage.createSession "Sup3rSecret!" configured_world
  = (inr (issued_token, 1700014400000%Z), logged_in_world).
Proof. vm_compute. reflexivity. Qed.

Lemma session_valid_until_expiry_witness :
  DatabaseStorage.verifySession issued_token (at_time 1700014399999 logged_in_world)
  = (inr true, at_time 1700014399999 logged_in_world)
  /\ DatabaseStorage.verifySession issued_token (at_time 1700014400000 logged_in_world)
     = (inr false, at_time 1700014400000 logged_in_world).
Proof.
  split.
  - exact (proj2 (session_valid_until_expiry "Sup3rSecret!" issued_token 1700014400000
                    configured_world logged_in_world 1700014399999 login_run)).
  - exact (proj2 (session_valid_until_expiry "Sup3rSecret!" issued_token 1700014400000
                    configured_world logged_in_world 1700014400000 login_run)).
Defined.

End Runs.

(** * Concrete runs of the routes, the cleanup and the client *)

Module MoreRuns.
Import Example Sample.
#[local] Existing Instance Reference.runtime.
#[local] Existing Instance ReferenceText.text.
#[local] Existing Instance ReferenceText.random_below.

Lemma logout_is_local_witness :
  exists w',
    DatabaseStorage.invalidateSession "token-1" two_sessions = (inr tt, w')
    /\ fst (DatabaseStorage.verifySession "token-2" w') = inr true
    /\ fst (DatabaseStorage.verifySession "token-1" w') = inr false.
Proof.
  destruct (logout_is_local "token-1" "token-2" two_sessions ltac:(discriminate))
    as [w' [E [V2 [V1 _]]]].
  exists w'. rewrite V2. auto.
Defined.

Lemma configured_secret_verifies_witness :
  DatabaseStorage.verifyMasterPassword "guess" fresh_world = (inr false, fresh_world)
  /\ Storage.checkMasterPasswordExists fresh_world = (inr false, fresh_world)
  /\ exists r w1,
       DatabaseStorage.setupMasterPassword "Sup3rSecret!" fresh_world = (inr r, w1)
       /\ master_password w1 = [r]
       /\ Storage.checkMasterPasswordExists w1 = (inr true, w1)
       /\ DatabaseStorage.verifyMasterPassword "Sup3rSecret!" w1 = (inr true, w1).
Proof.
  apply (configured_secret_verifies "Sup3rSecret!" "guess" fresh_world
           ReferenceFacts.bcrypt_accepts_holds).
  reflexivity.
Defined.

(** In [vault_world] the token opens the session secret, and an entry is
    created. *)
Lemma vault_entry_created :
  exists entry w',
    DatabaseStorage.createPasswordEntry mail_entry "token-1" vault_world
    = (inr entry, w').
Proof. eexists. eexists. vm_compute. reflexivity. Qed.

Lemma entry_kept_for_a_day_witness :
  exists entry w',
    DatabaseStorage.createPasswordEntry mail_entry "token-1" vault_world
    = (inr entry, w')
    /\ password_entries w' = [entry]
    /\ e_expiresAt entry = 1700086400000%Z
    /\ listed_entry 1700086399999 entry = true
    /\ listed_entry 1700086400000 entry = false.
Proof.
  destruct vault_entry_created as [entry [w' H]].
  exists entry, w'. split; [exact H|].
  destruct (entry_kept_for_a_day mail_entry "token-1" entry vault_world w'
              1700086399999 H) as [Hp [_ [_ [_ [He [_ [_ Hl]]]]]]].
  destruct (entry_kept_for_a_day mail_entry "token-1" entry vault_world w'
              1700086400000 H) as [_ [_ [_ [_ [_ [_ [_ Hl']]]]]]].
  rewrite Hp, He, Hl, Hl'. auto.
Defined.

Lemma created_entry_is_listed_witness :
  exists entry w',
    DatabaseStorage.createPasswordEntry mail_entry "token-1" vault_world
    = (inr entry, w')
    /\ DatabaseStorage.getAllPasswordEntries "token-1" w'
       = (inr [toJS mail_entry], w').
Proof.
  destruct vault_entry_created as [entry [w' H]].
  exists entry, w'. split; [exact H|].
  destruct (created_entry_is_listed mail_entry "token-1" entry vault_world w'
              ReferenceFacts.base64_roundtrip_holds ReferenceFacts.pbkdf2_length_holds
              ReferenceFacts.gcm_roundtrip_holds JsonFacts.json_roundtrip_holds H)
    as [listed [L [_ E]]].
  rewrite L, (E eq_refl). reflexivity.
Defined.

Lemma alice_created :
  exists user inserted w',
    Storage.createUser alice [] fresh_world = (inr (user, inserted), w').
Proof. eexists. eexists. eexists. reflexivity. Qed.

Lemma created_user_is_found_witness :
  exists user inserted w',
    Storage.createUser alice [] fresh_world = (inr (user, inserted), w')
    /\ Storage.password user = "wonderland"
    /\ Storage.getUser (Storage.u_id user) inserted = Some user
    /\ Storage.getUserByUsername "alice" inserted = Some user.
Proof.
  destruct alice_created as [user [inserted [w' H]]].
  exists user, inserted, w'. split; [exact H|].
  destruct (created_user_is_found alice [] inserted user fresh_world w' H)
    as [_ [Hp [_ [Hi [Hn _]]]]].
  auto.
Defined.

Lemma taken_username_rejected_witness :
  Storage.createUser alice one_user fresh_world
  = (inl (UniqueViolation "users"), after_draw 16 fresh_world).
Proof.
  apply (taken_username_rejected alice one_user fresh_world). discriminate.
Defined.

(** The reference [randomInt] answers in its range. *)
Lemma random_below_in_range : randomInt_in_range ReferenceText.random_below.
Proof.
  intros min max w H. cbn [randomInt ReferenceText.random_below].
  unfold bind, randomBytes, ret. eexists. eexists. split; [reflexivity|].
  apply Z.ltb_lt in H as H'. rewrite H'.
  pose proof (Z.mod_pos_bound
                (ReferenceText.big_endian (map (entropy w) (seq (drawn w) 6)))
                (max - min) ltac:(lia)).
  lia.
Qed.

Lemma generated_password_shape_witness :
  exists generated w',
    Generator.generateSecurePassword Generator.DEFAULT_LENGTH fresh_world
    = (inr generated, w')
    /\ String.length generated = 16
    /\ Forall (fun c => In c (list_ascii_of_string Generator.charset))
              (list_ascii_of_string generated).
Proof.
  destruct (generated_password_shape Generator.DEFAULT_LENGTH fresh_world
              random_below_in_range) as [generated [w' [H [Hl [Hc _]]]]].
  exists generated, w'. auto.
Defined.

Lemma missing_token_is_bad_request_witness :
  exists e1 e2 e3 e4,
    Routes.post_auth_logout empty_body fresh_world
    = (inr (Routes.validation_error e1), fresh_world)
    /\ Routes.post_password_entries empty_body fresh_world
       = (inr (Routes.validation_error e2), fresh_world)
    /\ Routes.post_password_entries_list empty_body fresh_world
       = (inr (Routes.validation_error e3), fresh_world)
    /\ Routes.post_password_entries_delete_all empty_body fresh_world
       = (inr (Routes.validation_error e4), fresh_world)
    /\ forall e, Routes.status (Routes.validation_error e) = 400%Z.
Proof.
  apply (missing_token_is_bad_request empty_body fresh_world).
  intros t H. discriminate H.
Defined.

Lemma dead_token_is_unauthorized_witness :
  Routes.post_password_entries_list (Client.session_token_body "token-9") two_sessions
  = (inr Routes.authentication_failed, two_sessions)
  /\ Routes.post_password_entries_delete_all (Client.session_token_body "token-9")
       two_sessions
     = (inr Routes.authentication_failed, two_sessions).
Proof.
  destruct (dead_token_is_unauthorized (Client.session_token_body "token-9") "token-9"
              two_sessions eq_refl ltac:(cbn; lia) eq_refl) as [L [D _]].
  auto.
Defined.

Lemma login_denied_is_internal_error_witness :
  Routes.post_auth_login (Client.master_password_body "guess") fresh_world
  = (inr (Routes.internal_error "Failed to create session"), fresh_world)
  /\ Routes.status (Routes.internal_error "Failed to create session") = 500%Z.
Proof.
  apply (login_denied_is_internal_error (Client.master_password_body "guess") "guess"
           fresh_world eq_refl).
  - cbn. lia.
  - left. reflexivity.
Defined.

Lemma configured_row_stored : master_password configured_world = [configured_row].
Proof. vm_compute. reflexivity. Qed.

Lemma configured_row_accepts :
  bcrypt_compare "Sup3rSecret!" (hashedPassword configured_row) = true.
Proof. vm_compute. reflexivity. Qed.

Lemma login_route_succeeds_witness :
  exists token w',
    Routes.post_auth_login (Client.master_password_body "Sup3rSecret!") configured_world
    = (inr (Routes.mkResponse 200
              (JSObject
                 [("sessionToken", JSString token);
                  ("expiresAt", JSString "2023-11-15T02:13:20.000Z");
                  ("message",
                   JSString "Authentication successful - session created")])),
       w')
    /\ fst (DatabaseStorage.verifySession token w') = inr true.
Proof.
  assert (E : toISOString (now configured_world + 14400000)%Z
              = "2023-11-15T02:13:20.000Z") by (vm_compute; reflexivity).
  rewrite <- E.
  apply (login_route_succeeds "Sup3rSecret!" configured_row configured_world
           ReferenceFacts.base64_roundtrip_holds ReferenceFacts.pbkdf2_length_holds
           ReferenceFacts.gcm_roundtrip_holds).
  - cbn. lia.
  - apply configured_row_stored.
  - apply configured_row_accepts.
  - reflexivity.
Defined.

Lemma master_password_create_answers_witness :
  exists w',
    Routes.post_master_password_create (Client.master_password_body "Sup3rSecret!")
      fresh_world
    = (inr (Routes.mkResponse 201
              (JSObject
                 [("message", JSString "Master password created successfully");
                  ("success", JSBool true)])), w')
    /\ exists row, master_password w' = [row].
Proof.
  destruct (master_password_create_answers
              (Client.master_password_body "Sup3rSecret!") "Sup3rSecret!" fresh_world
              eq_refl) as [response [w' [H [_ [_ Created]]]]].
  destruct (Created ltac:(cbn; lia) eq_refl) as [_ [row [_ [_ [Hrow _]]]]].
  exists w'. split; [|eauto].
  assert (E : fst (Routes.post_master_password_create
                     (Client.master_password_body "Sup3rSecret!") fresh_world)
              = inr (Routes.mkResponse 201
                       (JSObject
                          [("message", JSString "Master password created successfully");
                           ("success", JSBool true)])))
    by (vm_compute; reflexivity).
  rewrite H in E. cbn [fst] in E. rewrite H. congruence.
Defined.

Lemma logout_route_answers_witness :
  exists w',
    Routes.post_auth_logout (Client.session_token_body "token-1") two_sessions
    = (inr (Routes.mkResponse 200
              (JSObject [("message", JSString "Session terminated successfully")])),
       w')
    /\ fst (DatabaseStorage.verifySession "token-1" w') = inr false.
Proof.
  destruct (logout_route_answers (Client.session_token_body "token-1") "token-1"
              two_sessions eq_refl ltac:(cbn; lia)) as [w' [H [V _]]].
  exists w'. auto.
Defined.

Lemma admin_entry_is_rejected_witness :
  exists body errors,
    Client.sent (Client.admin_entry_body "token-1" ("Mail", fields mail_entry))
    = Some body
    /\ Routes.post_password_entries body two_sessions
       = (inr (Routes.validation_error errors), two_sessions)
    /\ Routes.status (Routes.validation_error errors) = 400%Z.
Proof.
  apply (admin_entry_is_rejected "token-1" ("Mail", fields mail_entry) two_sessions
           JsonFacts.json_roundtrip_holds).
Defined.

Lemma admin_form_submits_complete_entries_witness :
  Client.AdminPage_handleSubmit "Mail" typed_rows
  = Some ("Mail", [mkField "Username" "a@b.com" false])
  /\ complete_entry (mkData "Mail" [mkField "Username" "a@b.com" false]).
Proof.
  split; [reflexivity|].
  destruct (admin_form_submits_complete_entries "Mail" typed_rows
              ("Mail", [mkField "Username" "a@b.com" false]) eq_refl eq_refl)
    as [_ [_ [C _]]].
  - repeat constructor.
  - exact C.
Defined.

Lemma setup_form_and_route_disagree_witness :
  Client.MasterPasswordSetup_handleSubmit "sixsix" "sixsix" = Some "sixsix"
  /\ Client.sent (Client.master_password_body "sixsix")
     = Some (Client.master_password_body "sixsix")
  /\ Routes.post_master_password_create (Client.master_password_body "sixsix")
       fresh_world
     = (inr (Routes.mkResponse 400
               (JSObject [("error", JSString "Validation error");
                          ("message",
                           JSString "Master password must be at least 8 characters")])),
        fresh_world).
Proof.
  apply (setup_form_and_route_disagree "sixsix" fresh_world
           JsonFacts.json_roundtrip_holds).
  cbn. lia.
Defined.

Lemma timer_splits_the_difference_witness :
  Client.updateTimer 3723004 = (1, 2, 3)%Z
  /\ (1 * 3600000 + 2 * 60000 + 3 * 1000 <= 3723004
      < 1 * 3600000 + 2 * 60000 + 3 * 1000 + 1000)%Z.
Proof.
  split; [reflexivity|].
  pose proof (timer_splits_the_difference 3723004 ltac:(lia)) as H.
  change (Client.updateTimer 3723004) with (1, 2, 3)%Z in H.
  cbv beta iota in H. tauto.
Defined.

Lemma reference_text_quiet : no_session_wording ReferenceText.text.
Proof. intros why. destruct why; reflexivity. Qed.

Lemma entry_routes_fail_after_login_witness :
  exists w1,
    Routes.post_password_entries
      (JSObject [("sessionToken", JSString issued_token); ("entry", toJS mail_entry)]) w1
    = (inr (Routes.internal_error "Failed to create password entry"), w1)
    /\ Routes.post_password_entries_list (Client.session_token_body issued_token) w1
       = (inr (Routes.internal_error "Failed to retrieve password entries"), w1)
    /\ fst (DatabaseStorage.verifySession issued_token w1) = inr true.
Proof.
  destruct (entry_routes_fail_after_login "Sup3rSecret!" mail_entry configured_row
              configured_world
              ReferenceFacts.base64_roundtrip_holds ReferenceFacts.base64_no_colon_holds
              ReferenceFacts.pbkdf2_length_holds ReferenceFacts.gcm_roundtrip_holds
              ReferenceFacts.gcm_authentic_holds reference_text_quiet)
    as [token [answer [w1 [Hrun [_ [Htok [V Hfail]]]]]]].
  - cbn. lia.
  - repeat split; cbn; try lia; try discriminate. repeat constructor; cbn; lia.
  - apply configured_row_stored.
  - apply configured_row_accepts.
  - reflexivity.
  - assert (E : get_prop
                  (match fst (Routes.post_auth_login
                                (Client.master_password_body "Sup3rSecret!")
                                configured_world) with
                   | inr a => Routes.json a
                   | inl _ => JSNull
                   end) "sessionToken" = Some (JSString issued_token))
      by (vm_compute; reflexivity).
    rewrite Hrun in E. cbn [fst] in E.
    assert (token = issued_token) by congruence. subst token.
    destruct (Hfail Runs.token_keys_differ) as [C [L _]].
    exists w1. auto.
Defined.

Lemma base64_nonempty_holds : base64_nonempty Reference.runtime.
Proof.
  intros b H. cbn [toBase64 Reference.runtime].
  destruct b as [|x [|y [|z r]]]; [congruence | discriminate..].
Qed.

Lemma gcm_output_shape_holds : gcm_output_shape Reference.runtime.
Proof.
  intros key iv_bytes aad plain cipher tag. cbn [gcm_encrypt Reference.runtime].
  unfold Reference.seal. destruct iv_bytes; [discriminate|].
  destruct (length key =? 32)%nat; [|discriminate].
  intros H. injection H as <- <-. split; [reflexivity|].
  unfold Reference.mac, Reference.frame.
  destruct (flat_map _ key); discriminate.
Qed.

Lemma session_secret_opens_under_secret_witness :
  Crypto.decryptMasterPasswordFromSession
    (Crypto.ss_encryptedMasterPassword session_secret)
    (Crypto.ss_sessionSalt session_secret) "Sup3rSecret!"
  = inr "Sup3rSecret!".
Proof.
  destruct (session_secret_opens_under_secret "Sup3rSecret!" fresh_world
              ReferenceFacts.base64_roundtrip_holds ReferenceFacts.base64_no_colon_holds
              base64_nonempty_holds ReferenceFacts.pbkdf2_length_holds
              ReferenceFacts.gcm_roundtrip_holds gcm_output_shape_holds
              eq_refl ltac:(discriminate)) as [secret [w' [E D]]].
  unfold session_secret. rewrite E. exact D.
Defined.

Lemma listing_skips_rows_that_fail_witness :
  length (password_entries vault_with_garbage) = 2
  /\ DatabaseStorage.getAllPasswordEntries "token-1" vault_with_garbage
     = (inr [toJS mail_entry], vault_with_garbage).
Proof.
  split; [vm_compute; reflexivity|].
  destruct (listing_skips_rows_that_fail "token-1" "token-1" vault_with_garbage)
    as [listed [L _]].
  - vm_compute. reflexivity.
  - assert (E : fst (DatabaseStorage.getAllPasswordEntries "token-1" vault_with_garbage)
                = inr [toJS mail_entry]) by (vm_compute; reflexivity).
    rewrite L in E. cbn [fst] in E. rewrite L. congruence.
Defined.

End MoreRuns.
